(** * Qupath_to_LMD: the validation and transformation pipeline of
    [streamlit_app.py], embedded in Rocq.

    The development follows the script top to bottom.  Python values,
    exceptions and the Streamlit/loguru side effects are modelled first;
    then the pure helpers ([generate_combinations],
    [create_list_of_acceptable_wells], [create_default_samples_and_wells],
    [sample_placement_384wp]); then the functions that work on the loaded
    GeoJSON table.  The geometry predicates of shapely ([intersects],
    [simplify]) are parameters of a section: the script only calls them.

    Conventions.
    - Text is UTF-8: a Python [str] is the [string] of the bytes of its
      UTF-8 encoding.
    - A function that may raise or call [st.stop()] returns an [outcome];
      one that also writes to the page or the log returns a [run], the
      trace of what it wrote together with its outcome.
    - [logger.debug] lines carry no decision and are left out of traces. *)

From Stdlib Require Import ZArith QArith Ascii String DecimalString DecimalPos DecimalZ.
From stdpp Require Import base list strings sorting.

Open Scope string_scope.
Open Scope list_scope.
Open Scope Z_scope.
Open Scope nat_scope.
Open Scope stdpp_scope.

(* ================================================================== *)
(** ** Python runtime: exceptions and outcomes *)
(* ================================================================== *)

Inductive exn :=
| IndexError | KeyError | AttributeError | AssertionError
| TypeError | ValueError | SyntaxError | RecursionError.

(** [Stop] is Streamlit's [st.stop()]: the script run ends there. *)
Inductive outcome (A : Type) :=
| Ok (a : A)
| Raise (e : exn)
| Stop.
Arguments Ok {A} a.
Arguments Raise {A} e.
Arguments Stop {A}.

#[global] Instance outcome_ret : MRet outcome := @Ok.
#[global] Instance outcome_bind : MBind outcome := λ A B f m,
  match m with
  | Ok a => f a
  | Raise e => Raise e
  | Stop => Stop
  end.
#[global] Instance outcome_fmap : FMap outcome := λ A B f m,
  match m with
  | Ok a => Ok (f a)
  | Raise e => Raise e
  | Stop => Stop
  end.

(** [assert cond] *)
Definition py_assert (cond : bool) : outcome unit :=
  if cond then Ok tt else Raise AssertionError.

(** Map a fallible function over a list, left to right, stopping at the
    first failure: a list comprehension or [Series.apply]. *)
Fixpoint mapO {A B} (f : A → outcome B) (l : list A) : outcome (list B) :=
  match l with
  | [] => Ok []
  | x :: l' => y ← f x; ys ← mapO f l'; Ok (y :: ys)
  end.

(* ================================================================== *)
(** ** Characters and strings *)
(* ================================================================== *)

Definition dquote : ascii := "034".
Definition squote : ascii := "039".
Definition backslash : ascii := "092".
Definition newline : ascii := "010".
Definition space : ascii := " ".

(** [str(i)] for integers. *)
Definition str_nat (n : nat) : string := NilZero.string_of_uint (Nat.to_uint n).
Definition str_Z (z : Z) : string := NilZero.string_of_int (Z.to_int z).

(** [s.replace(old, new)] for a one-character [old], the only form the
    script uses. *)
Fixpoint replace (old : ascii) (new : string) (s : string) : string :=
  match s with
  | EmptyString => EmptyString
  | String c s' =>
      if Ascii.eqb c old then new +:+ replace old new s'
      else String c (replace old new s')
  end.

(** [string.ascii_uppercase] and slicing [s[i:j]], [s[0]], [s[1:]]. *)
Definition ascii_uppercase : string := "ABCDEFGHIJKLMNOPQRSTUVWXYZ".

Definition slice (i j : nat) (s : string) : string := substring i (j - i) s.

Definition chars_of (s : string) : list string :=
  (λ c, String c EmptyString) <$> list_ascii_of_string s.

(** Text is UTF-8.  A continuation byte is a byte [10xxxxxx]. *)
Definition is_cont (b : ascii) : bool :=
  let n := N_of_ascii b in (128 <=? n)%N && (n <? 192)%N.

Definition cont_bits (b : ascii) : N := (N_of_ascii b - 128)%N.

(** The code points of a text. *)
Fixpoint code_points (s : list ascii) : option (list N) :=
  match s with
  | [] => Some []
  | b0 :: r0 =>
      let n0 := N_of_ascii b0 in
      if (n0 <? 128)%N then cons n0 <$> code_points r0
      else if (n0 <? 192)%N then None
      else if (n0 <? 224)%N then
        match r0 with
        | b1 :: r1 =>
            let cp := ((n0 - 192) * 64 + cont_bits b1)%N in
            if is_cont b1 && (128 <=? cp)%N then cons cp <$> code_points r1 else None
        | _ => None
        end
      else if (n0 <? 240)%N then
        match r0 with
        | b1 :: b2 :: r2 =>
            let cp := ((n0 - 224) * 4096 + cont_bits b1 * 64 + cont_bits b2)%N in
            if is_cont b1 && is_cont b2 && (2048 <=? cp)%N
               && negb ((0xD800 <=? cp)%N && (cp <? 0xE000)%N)
            then cons cp <$> code_points r2 else None
        | _ => None
        end
      else if (n0 <? 248)%N then
        match r0 with
        | b1 :: b2 :: b3 :: r3 =>
            let cp := ((n0 - 240) * 262144 + cont_bits b1 * 4096
                       + cont_bits b2 * 64 + cont_bits b3)%N in
            if is_cont b1 && is_cont b2 && is_cont b3
               && (0x10000 <=? cp)%N && (cp <? 0x110000)%N
            then cons cp <$> code_points r3 else None
        | _ => None
        end
      else None
  end.

(** The characters of a text, each with its bytes: a byte that is no
    continuation byte opens a character, and the continuation bytes that
    follow belong to it. *)
Fixpoint characters (s : list ascii) : list (list ascii) :=
  match s with
  | [] => []
  | b :: r =>
      match characters r with
      | (b' :: w) :: l =>
          if is_cont b' then (b :: b' :: w) :: l else [b] :: (b' :: w) :: l
      | l => [b] :: l
      end
  end.

(** The code points that [str.isspace()] and [str.strip()] take for white
    space: the ASCII ones and U+0085, U+00A0, U+1680, U+2000 to U+200A,
    U+2028, U+2029, U+202F, U+205F and U+3000. *)
Definition white_space : list N :=
  [0x09; 0x0A; 0x0B; 0x0C; 0x0D; 0x1C; 0x1D; 0x1E; 0x1F; 0x20; 0x85; 0xA0;
   0x1680; 0x2000; 0x2001; 0x2002; 0x2003; 0x2004; 0x2005; 0x2006; 0x2007;
   0x2008; 0x2009; 0x200A; 0x2028; 0x2029; 0x202F; 0x205F; 0x3000]%N.

(** [c.isspace()] for a character [c], given with its bytes. *)
Definition isspace (c : list ascii) : bool :=
  match code_points c with
  | Some [cp] => bool_decide (cp ∈ white_space)
  | _ => false
  end.

(** [lstrip] and [rstrip] drop the white space at the start and at the
    end of a list of characters; [s.strip()] does both. *)
Fixpoint lstrip (l : list (list ascii)) : list (list ascii) :=
  match l with
  | [] => []
  | c :: l' => if isspace c then lstrip l' else l
  end.

Fixpoint rstrip (l : list (list ascii)) : list (list ascii) :=
  match l with
  | [] => []
  | c :: l' =>
      match rstrip l' with
      | [] => if isspace c then [] else [c]
      | r => c :: r
      end
  end.

Definition strip (s : string) : string :=
  string_of_list_ascii
    (concat (rstrip (lstrip (characters (list_ascii_of_string s))))).

(** A character: one byte and continuation bytes after it.  In a list of
    characters, every character but the first opens with a byte that is
    no continuation byte. *)
Definition character (c : list ascii) : Prop :=
  match c with
  | [] => False
  | _ :: t => Forall (λ b, is_cont b = true) t
  end.

Definition opens (c : list ascii) : Prop :=
  match c with
  | [] => False
  | b :: _ => is_cont b = false
  end.

Definition characters_ok (l : list (list ascii)) : Prop :=
  Forall character l ∧ Forall opens (tail l).

(* ================================================================== *)
(** ** Python values and dictionaries *)
(* ================================================================== *)

(** The values [ast.literal_eval] builds from the literals this program
    reads: [None], integers, strings, lists and dicts.  A [PDict] keeps
    its entries in insertion order, as a Python [dict] does. *)
#[local] Set Warnings "-register-all".

Inductive pyval :=
| PNone
| PInt (z : Z)
| PStr (s : string)
| PList (l : list pyval)
| PDict (d : list (pyval * pyval)).

Fixpoint pyval_eq_dec (x y : pyval) : {x = y} + {x ≠ y}.
Proof.
  decide equality.
  - apply Z.eq_dec.
  - apply String.string_dec.
  - apply (List.list_eq_dec pyval_eq_dec).
  - apply List.list_eq_dec. decide equality.
Defined.

#[global] Instance pyval_eqdec : EqDecision pyval := pyval_eq_dec.

(** A dict is an association list with distinct keys in insertion order. *)
Definition dict (K V : Type) : Type := list (K * V).

Section Dict.
Context {K V : Type} `{EqDecision K}.

(** [d[k]] as [d.get(k)]: [None] when the key is missing. *)
Fixpoint dict_get (d : dict K V) (k : K) : option V :=
  match d with
  | [] => None
  | (k', v) :: d' => if decide (k' = k) then Some v else dict_get d' k
  end.

(** [d[k] = v]: overwrite in place, or append a new entry. *)
Fixpoint dict_set (d : dict K V) (k : K) (v : V) : dict K V :=
  match d with
  | [] => [(k, v)]
  | (k', v') :: d' =>
      if decide (k' = k) then (k', v) :: d' else (k', v') :: dict_set d' k v
  end.

Definition dict_keys (d : dict K V) : list K := fst <$> d.
Definition dict_values (d : dict K V) : list V := snd <$> d.

(** [dict(pairs)]: insert the pairs one after the other. *)
Definition dict_of_pairs (l : list (K * V)) : dict K V :=
  foldl (λ d kv, dict_set d kv.1 kv.2) [] l.

(** [k in d] *)
Definition dict_mem (d : dict K V) (k : K) : bool :=
  bool_decide (k ∈ dict_keys d).
End Dict.

(** Lists and dicts cannot be dict keys or set members. *)
Definition hashable (v : pyval) : bool :=
  match v with
  | PList _ | PDict _ => false
  | _ => true
  end.

(** [x.get('name')]: defined on dicts only. *)
Definition py_get (x : pyval) (key : string) : outcome pyval :=
  match x with
  | PDict d => Ok (default PNone (dict_get d (PStr key)))
  | _ => Raise AttributeError
  end.

(** Every string inside a value, keys included, satisfies [P]. *)
Fixpoint all_strings (P : string → Prop) (v : pyval) : Prop :=
  match v with
  | PStr s => P s
  | PList l =>
      (fix go (l : list pyval) : Prop :=
         match l with
         | [] => True
         | x :: l' => all_strings P x ∧ go l'
         end) l
  | PDict d =>
      (fix go (d : list (pyval * pyval)) : Prop :=
         match d with
         | [] => True
         | kv :: d' => (all_strings P kv.1 ∧ all_strings P kv.2) ∧ go d'
         end) d
  | _ => True
  end.

(** The characters of a string all satisfy [P]. *)
Definition chars_all (P : ascii → Prop) (s : string) : Prop :=
  Forall P (list_ascii_of_string s).

(** A character that is neither a backslash, nor a space, nor a newline. *)
Definition plain_char (c : ascii) : Prop :=
  c ≠ backslash ∧ c ≠ space ∧ c ≠ newline.

(* ================================================================== *)
(** ** [ast.literal_eval]

    Model of the standard library's literal parser on the fragment above:
    [None], decimal integers with an optional sign, string literals in
    single, double or triple quotes with their backslash escapes
    (adjacent literals are concatenated), lists and dicts, with optional
    trailing commas and white space between tokens.

    The text is read the way Python reads source text.  [literal_eval]
    strips the spaces and tabs at its start; a NUL character is refused;
    CR LF and a lone CR are line ends; blank lines before and after the
    expression are passed over, and the expression starts in the first
    column of its line; a line end is white space inside brackets only;
    brackets nest 200 deep at most; an integer literal has 4300 digits
    at most.  The characters that the escapes [\x..] and [\ooo] stand
    for are given in UTF-8, like the rest of the text.

    Booleans, floats and other number formats, tuples, sets,
    parentheses, prefixed literals, the escapes [\u], [\U] and [\N],
    comments, line continuations outside of strings and names that are
    not ASCII are outside the fragment: the model reports an error for
    them. *)
(* ================================================================== *)

Definition tab : ascii := "009".
Definition formfeed : ascii := "012".
Definition carriage_return : ascii := "013".

(** Universal newlines: CR LF and a lone CR become LF. *)
Fixpoint universal_newlines (s : list ascii) : list ascii :=
  match s with
  | [] => []
  | c :: r =>
      if Ascii.eqb c carriage_return then
        newline :: match r with
                   | c' :: r' =>
                       if Ascii.eqb c' newline then universal_newlines r'
                       else universal_newlines r
                   | [] => []
                   end
      else c :: universal_newlines r
  end.

(** [s.lstrip(" \t")] *)
Fixpoint lstrip_space_tab (s : list ascii) : list ascii :=
  match s with
  | c :: r => if Ascii.eqb c space || Ascii.eqb c tab then lstrip_space_tab r else s
  | [] => []
  end.

(** White space between tokens: spaces, tabs and form feeds on a line,
    and line ends as well inside brackets. *)
Definition is_blank (c : ascii) : bool :=
  Ascii.eqb c space || Ascii.eqb c tab || Ascii.eqb c formfeed.

Definition is_ws (c : ascii) : bool := is_blank c || Ascii.eqb c newline.

Fixpoint skip_blank (s : list ascii) : list ascii :=
  match s with
  | c :: r => if is_blank c then skip_blank r else s
  | [] => []
  end.

Fixpoint skip_ws (s : list ascii) : list ascii :=
  match s with
  | c :: r => if is_ws c then skip_ws r else s
  | [] => []
  end.

(** The white space passed over at bracket depth [level]. *)
Definition skip (level : nat) (s : list ascii) : list ascii :=
  match level with
  | 0 => skip_blank s
  | S _ => skip_ws s
  end.

(** The text from the first token on.  Blank lines are passed over;
    [indented] tells whether the line read so far is indented: a space
    or a tab indents, a form feed starts the count again.  A first token
    that is indented is an [IndentationError] (a [SyntaxError]). *)
Fixpoint first_token (indented : bool) (s : list ascii) : outcome (list ascii) :=
  match s with
  | [] => Raise SyntaxError
  | c :: r =>
      if Ascii.eqb c space || Ascii.eqb c tab then first_token true r
      else if Ascii.eqb c formfeed || Ascii.eqb c newline then first_token false r
      else if indented then Raise SyntaxError else Ok s
  end.

(** The lines after the expression are blank, and the last one, when
    it has no line end, is not indented. *)
Fixpoint blank_lines (indented : bool) (s : list ascii) : bool :=
  match s with
  | [] => negb indented
  | c :: r =>
      if Ascii.eqb c space || Ascii.eqb c tab then blank_lines true r
      else if Ascii.eqb c formfeed || Ascii.eqb c newline then blank_lines false r
      else false
  end.

Definition is_digit (c : ascii) : bool :=
  let n := nat_of_ascii c in (48 <=? n) && (n <=? 57).

Definition is_octal (c : ascii) : bool :=
  let n := nat_of_ascii c in (48 <=? n) && (n <=? 55).

Definition digit_val (c : ascii) : nat := nat_of_ascii c - 48.

Definition hex_val (c : ascii) : option nat :=
  let n := nat_of_ascii c in
  if (48 <=? n) && (n <=? 57) then Some (n - 48)
  else if (65 <=? n) && (n <=? 70) then Some (n - 55)
  else if (97 <=? n) && (n <=? 102) then Some (n - 87)
  else None.

Definition is_ident (c : ascii) : bool :=
  let n := nat_of_ascii c in
  is_digit c || ((65 <=? n) && (n <=? 90)) || ((97 <=? n) && (n <=? 122))
  || (n =? 95) || (128 <=? n).

(** One-character escapes: the character after the backslash and the
    character it stands for. *)
Definition simple_escape (e : ascii) : option ascii :=
  if Ascii.eqb e backslash then Some backslash
  else if Ascii.eqb e squote then Some squote
  else if Ascii.eqb e dquote then Some dquote
  else if Ascii.eqb e "a" then Some "007"%char
  else if Ascii.eqb e "b" then Some "008"%char
  else if Ascii.eqb e "t" then Some "009"%char
  else if Ascii.eqb e "n" then Some "010"%char
  else if Ascii.eqb e "v" then Some "011"%char
  else if Ascii.eqb e "f" then Some "012"%char
  else if Ascii.eqb e "r" then Some "013"%char
  else None.

Definition cons_char (c : ascii) (r : outcome (list ascii * list ascii))
  : outcome (list ascii * list ascii) :=
  p ← r; Ok (c :: p.1, p.2).

(** The character with code point [n], for [n] below 2048, in UTF-8. *)
Definition cons_code (n : nat) (r : outcome (list ascii * list ascii))
  : outcome (list ascii * list ascii) :=
  if n <? 128 then cons_char (ascii_of_nat n) r
  else cons_char (ascii_of_nat (192 + n / 64))
                 (cons_char (ascii_of_nat (128 + n mod 64)) r).

(** The body of a string literal opened with quote [q], or with three
    of them when [triple] is set: the decoded characters up to the
    closing quotes, and the text after them.  A line end closes nothing:
    it is an error in a literal with one quote, and a character of a
    literal with three. *)
Fixpoint scan_string (triple : bool) (q : ascii) (s : list ascii)
  : outcome (list ascii * list ascii) :=
  match s with
  | [] => Raise SyntaxError
  | c :: r =>
      if Ascii.eqb c q then
        if triple then
          match r with
          | c2 :: c3 :: r' =>
              if Ascii.eqb c2 q && Ascii.eqb c3 q then Ok ([], r')
              else cons_char c (scan_string triple q r)
          | _ => Raise SyntaxError
          end
        else Ok ([], r)
      else if Ascii.eqb c newline then
        if triple then cons_char c (scan_string triple q r) else Raise SyntaxError
      else if Ascii.eqb c backslash then
        match r with
        | [] => Raise SyntaxError
        | e :: r1 =>
            match simple_escape e with
            | Some d => cons_char d (scan_string triple q r1)
            | None =>
                if Ascii.eqb e "x" then
                  match r1 with
                  | h1 :: h2 :: r2 =>
                      match hex_val h1, hex_val h2 with
                      | Some a, Some b =>
                          cons_code (16 * a + b) (scan_string triple q r2)
                      | _, _ => Raise SyntaxError
                      end
                  | _ => Raise SyntaxError
                  end
                else if Ascii.eqb e newline then scan_string triple q r1
                else if is_octal e then
                  match r1 with
                  | o2 :: r2 =>
                      if is_octal o2 then
                        match r2 with
                        | o3 :: r3 =>
                            if is_octal o3 then
                              cons_code (64 * digit_val e + 8 * digit_val o2 + digit_val o3)
                                        (scan_string triple q r3)
                            else cons_code (8 * digit_val e + digit_val o2)
                                           (scan_string triple q r2)
                        | [] => cons_code (8 * digit_val e + digit_val o2)
                                          (scan_string triple q r2)
                        end
                      else cons_code (digit_val e) (scan_string triple q r1)
                  | [] => cons_code (digit_val e) (scan_string triple q r1)
                  end
                else if Ascii.eqb e "u" || Ascii.eqb e "U" || Ascii.eqb e "N" then
                  Raise SyntaxError
                else cons_char backslash (cons_char e (scan_string triple q r1))
            end
        end
      else cons_char c (scan_string triple q r)
  end.

(** A string literal, from the character after its first quote [q]:
    two more quotes open a literal with three quotes. *)
Definition string_literal (q : ascii) (r : list ascii)
  : outcome (list ascii * list ascii) :=
  match r with
  | c2 :: c3 :: r' =>
      if Ascii.eqb c2 q && Ascii.eqb c3 q then scan_string true q r'
      else scan_string false q r
  | _ => scan_string false q r
  end.

(** The longest prefix of identifier characters, and the rest. *)
Fixpoint scan_ident (s : list ascii) : list ascii * list ascii :=
  match s with
  | c :: r => if is_ident c then let p := scan_ident r in (c :: p.1, p.2) else ([], s)
  | [] => ([], [])
  end.

(** The longest prefix of decimal digits, and the rest. *)
Fixpoint scan_digits (s : list ascii) : list ascii * list ascii :=
  match s with
  | c :: r => if is_digit c then let p := scan_digits r in (c :: p.1, p.2) else ([], s)
  | [] => ([], [])
  end.

Definition digits_value (ds : list ascii) : Z :=
  foldl (λ acc c, (10 * acc + Z.of_nat (digit_val c))%Z) 0%Z ds.

(** A decimal integer literal: no leading zero unless the number is zero,
    no identifier character or dot right after it, and no more than 4300
    digits unless they are all zeros. *)
Definition scan_int (s : list ascii) : outcome (Z * list ascii) :=
  let '(ds, rest) := scan_digits s in
  let ok_lead :=
    match ds with
    | [] => false
    | d :: ds' => negb (Ascii.eqb d "0") || forallb (λ c, Ascii.eqb c "0") ds'
    end in
  let ok_next :=
    match rest with
    | c :: _ => negb (is_ident c || Ascii.eqb c ".")
    | [] => true
    end in
  let ok_size := forallb (λ c, Ascii.eqb c "0") ds || (length ds <=? 4300) in
  if ok_lead && ok_next && ok_size then Ok (digits_value ds, rest)
  else Raise SyntaxError.

(** [{k1: v1, k2: v2, ...}]: later entries overwrite earlier ones with the
    same key; an unhashable key is a [TypeError]. *)
Definition build_dict (entries : list (pyval * pyval)) : outcome pyval :=
  if forallb (λ kv, hashable kv.1) entries
  then Ok (PDict (dict_of_pairs entries))
  else Raise TypeError.

(** A value, the items of a list and the entries of a dict.  [level] is
    the number of brackets that are open. *)
Fixpoint parse_value (level fuel : nat) (s : list ascii)
  : outcome (pyval * list ascii) :=
  match fuel with
  | 0 => Raise RecursionError
  | S n =>
      match skip level s with
      | [] => Raise SyntaxError
      | c :: r =>
          if Ascii.eqb c dquote || Ascii.eqb c squote then
            p ← string_literal c r;
            match skip level p.2 with
            | c' :: _ =>
                if Ascii.eqb c' dquote || Ascii.eqb c' squote then
                  q ← parse_value level n p.2;
                  match q.1 with
                  | PStr s2 => Ok (PStr (string_of_list_ascii p.1 +:+ s2), q.2)
                  | _ => Raise SyntaxError
                  end
                else Ok (PStr (string_of_list_ascii p.1), p.2)
            | [] => Ok (PStr (string_of_list_ascii p.1), p.2)
            end
          else if Ascii.eqb c "[" then
            if 200 <=? level then Raise SyntaxError
            else p ← parse_items (S level) n r; Ok (PList p.1, p.2)
          else if Ascii.eqb c "{" then
            if 200 <=? level then Raise SyntaxError
            else p ← parse_entries (S level) n r; d ← build_dict p.1; Ok (d, p.2)
          else if Ascii.eqb c "-" then
            p ← scan_int (skip level r); Ok (PInt (- p.1), p.2)
          else if Ascii.eqb c "+" then
            p ← scan_int (skip level r); Ok (PInt p.1, p.2)
          else if is_digit c then
            p ← scan_int (c :: r); Ok (PInt p.1, p.2)
          else if is_ident c then
            let p := scan_ident (c :: r) in
            if decide (string_of_list_ascii p.1 = "None") then Ok (PNone, p.2)
            else Raise ValueError
          else Raise SyntaxError
      end
  end
with parse_items (level fuel : nat) (s : list ascii)
  : outcome (list pyval * list ascii) :=
  match fuel with
  | 0 => Raise RecursionError
  | S n =>
      match skip_ws s with
      | "]"%char :: rest => Ok ([], rest)
      | _ =>
          p ← parse_value level n s;
          match skip_ws p.2 with
          | ","%char :: rest => q ← parse_items level n rest; Ok (p.1 :: q.1, q.2)
          | "]"%char :: rest => Ok ([p.1], rest)
          | _ => Raise SyntaxError
          end
      end
  end
with parse_entries (level fuel : nat) (s : list ascii)
  : outcome (list (pyval * pyval) * list ascii) :=
  match fuel with
  | 0 => Raise RecursionError
  | S n =>
      match skip_ws s with
      | "}"%char :: rest => Ok ([], rest)
      | _ =>
          k ← parse_value level n s;
          match skip_ws k.2 with
          | ":"%char :: rest =>
              v ← parse_value level n rest;
              match skip_ws v.2 with
              | ","%char :: rest' =>
                  q ← parse_entries level n rest'; Ok ((k.1, v.1) :: q.1, q.2)
              | "}"%char :: rest' => Ok ([(k.1, v.1)], rest')
              | _ => Raise SyntaxError
              end
          | _ => Raise SyntaxError
          end
      end
  end.

(** [ast.literal_eval(text)].  Two steps of the parser read at least one
    character, so the fuel is never used up. *)
Definition literal_eval (text : string) : outcome pyval :=
  let s := universal_newlines (lstrip_space_tab (list_ascii_of_string text)) in
  if bool_decide ("000"%char ∈ s) then Raise SyntaxError
  else
    start ← first_token false s;
    p ← parse_value 0 (2 * length start + 2) start;
    match skip_blank p.2 with
    | [] => Ok p.1
    | c :: rest =>
        if Ascii.eqb c newline && blank_lines false rest then Ok p.1
        else Raise SyntaxError
    end.

(* ================================================================== *)
(** ** What a run shows: log lines and page elements *)
(* ================================================================== *)

(** The quotient of two counts as numpy computes it: a division by zero
    does not raise, it yields [nan] (0/0) or [inf].  A finite quotient is
    kept exact. *)
Inductive np_float :=
| fin (q : Q)
| inf
| nan.

Definition true_divide (n d : nat) : np_float :=
  match d with
  | 0 => match n with 0 => nan | _ => inf end
  | _ => fin (Z.of_nat n # Pos.of_nat d)
  end.

(** [x < q]: false for [nan] and [inf]. *)
Definition np_lt (x : np_float) (q : Q) : bool :=
  match x with
  | fin a => negb (Qle_bool q a)
  | _ => false
  end.

(** A quotient that is a number between 0 and 1. *)
Definition in_unit_interval (x : np_float) : Prop :=
  match x with
  | fin q => (0 <= q)%Q ∧ (q <= 1)%Q
  | _ => False
  end.

Inductive level := INFO | WARNING | ERROR.

Inductive message :=
| Loaded (nrows : nat)
| LoadedForColoring (nrows : nat)
| NoNameColumn
| Geometries (counts : list (string * nat))
| CalibNameAbsent (point_name : string)
| CalibNamesPassed (names : list string)
| CalibNamesFound (names : list (option string))
| IntersectPercent (fraction : np_float)
| LowIntersect
| LowIntersectLog
| WarpedLog
| PointsRemoved
| NaNClassifications (n : nat)
| MultiPolygonPresent
| MultiPolygonIgnored
| GeometryNotSupported (geom_type : string)
| FileQCComplete
| WellNotAcceptable (well : pyval)
| TooManyWellWarnings
| NameNotInSamples (name : pyval)
| SamplesWellsQCDone
| CsvError
| AllNamesFound
| NamesNotFound (names : list pyval)
| OverlappingNames (names : list pyval).

Inductive event :=
| Log (lvl : level) (m : message)
| Write (m : message)
| Table (rows : list (option string * pyval))
| Success (m : message).

(** A run: the events in the order they were produced, and how it ended. *)
Record run (A : Type) := Run { trace : list event; result : outcome A }.
Arguments Run {A} trace result.
Arguments trace {A} r.
Arguments result {A} r.

#[global] Instance run_ret : MRet run := λ A a, Run [] (Ok a).
#[global] Instance run_bind : MBind run := λ A B f m,
  match result m with
  | Ok a => let r := f a in Run (trace m ++ trace r) (result r)
  | Raise e => Run (trace m) (Raise e)
  | Stop => Run (trace m) Stop
  end.

Definition emit (e : event) : run unit := Run [e] (Ok tt).
Definition lift {A} (o : outcome A) : run A := Run [] o.
Definition st_stop {A} : run A := Run [] Stop.
Definition when (b : bool) (r : run unit) : run unit := if b then r else mret tt.

(** A [for] loop whose body only has effects. *)
Fixpoint for_each {A} (l : list A) (body : A → run unit) : run unit :=
  match l with
  | [] => mret tt
  | x :: l' => _ ← body x; for_each l' body
  end.

(** A loop that threads a state and may raise. *)
Fixpoint foldO {A S} (f : S → A → outcome S) (s : S) (l : list A) : outcome S :=
  match l with
  | [] => Ok s
  | x :: l' => s' ← f s x; foldO f s' l'
  end.

(* ================================================================== *)
(** ** [generate_combinations] *)
(* ================================================================== *)

(** [range(a, b)] *)
Definition range (a b : nat) : list nat := seq a (b - a).

(** [itertools.product] of a list of pools, after the equivalent code of the library
    documentation: each pool extends every partial tuple built so far. *)
Definition product {A} (pools : list (list A)) : list (list A) :=
  foldl (λ result pool, x ← result; y ← pool; [x ++ [y]]) [[]] pools.

(** The pools hold strings and the replicate numbers. *)
Definition fmt (x : string + Z) : string :=
  match x with
  | inl s => s
  | inr z => str_Z z
  end.

(** [f"{a}_{b}_{i}" for a, b, i in ...] *)
Definition combination_key (t : list (string + Z)) : outcome string :=
  match t with
  | [a; b; i] => Ok (fmt a +:+ "_" +:+ fmt b +:+ "_" +:+ fmt i)
  | _ => Raise ValueError
  end.

Definition generate_combinations (list1 list2 : list string) (num : Z)
  : outcome (list string) :=
  _ ← py_assert (0 <? num)%Z;
  mapO combination_key
       (product [inl <$> list1; inl <$> list2; inr <$> seqZ 1 num]).

(** The keys as three nested loops, outermost first: the order the
    class list is read in. *)
Definition combinations (list1 list2 : list string) (num : Z) : list string :=
  a ← list1; b ← list2; i ← seqZ 1 num; [a +:+ "_" +:+ b +:+ "_" +:+ str_Z i].

(* ================================================================== *)
(** ** Wells *)
(* ================================================================== *)

Definition create_list_of_acceptable_wells : list string :=
  row ← chars_of (slice 2 14 ascii_uppercase);
  column ← range 3 22;
  [row +:+ str_nat column].

Definition create_default_samples_and_wells
    (list_of_samples list_of_acceptable_wells : list string)
  : outcome (dict string string) :=
  _ ← py_assert (length list_of_samples <=? length list_of_acceptable_wells);
  Ok (foldl (λ samples_and_wells sw, dict_set samples_and_wells sw.1 sw.2)
            [] (zip list_of_samples list_of_acceptable_wells)).

(* ================================================================== *)
(** ** The plate layout: a pandas [DataFrame] of text cells *)
(* ================================================================== *)

Inductive cell :=
| CellStr (s : string)
| CellNaN.

#[global] Instance cell_eqdec : EqDecision cell.
Proof. solve_decision. Defined.

(** Row labels, column labels, and the cells row by row. *)
Record DataFrame := {
  index : list string;
  columns : list string;
  values : list (list cell)
}.

(** [pandas.DataFrame(v, columns=..., index=...)] *)
Definition DataFrame_filled (v : cell) (cols rows : list string) : DataFrame :=
  {| index := rows; columns := cols;
     values := replicate (length rows) (replicate (length cols) v) |}.

(** [Index.get_loc]: the position of a label. *)
Fixpoint get_loc (labels : list string) (k : string) : option nat :=
  match labels with
  | [] => None
  | l :: labels' => if decide (l = k) then Some 0 else S <$> get_loc labels' k
  end.

Definition add_column (df : DataFrame) (c : string) : DataFrame :=
  {| index := index df; columns := columns df ++ [c];
     values := (λ row, row ++ [CellNaN]) <$> values df |}.

Definition add_row (df : DataFrame) (r : string) : DataFrame :=
  {| index := index df ++ [r]; columns := columns df;
     values := values df ++ [replicate (length (columns df)) CellNaN] |}.

(** The frame with label [c] on the column axis, and with label [r] on
    the row axis. *)
Definition with_column (df : DataFrame) (c : string) : DataFrame :=
  if get_loc (columns df) c is Some _ then df else add_column df c.

Definition with_row (df : DataFrame) (r : string) : DataFrame :=
  if get_loc (index df) r is Some _ then df else add_row df r.

(** [df.at[r, c] = v].  Setting through [.at] with a label that is not
    on an axis enlarges the frame: the label is appended to the axis and
    the new cells are NaN. *)
Definition at_set (df : DataFrame) (r c : string) (v : cell) : DataFrame :=
  let df2 := with_row (with_column df c) r in
  match get_loc (index df2) r, get_loc (columns df2) c with
  | Some i, Some j =>
      {| index := index df2; columns := columns df2;
         values := alter (λ row, <[j := v]> row) i (values df2) |}
  | _, _ => df2
  end.

(** [df.at[r, c]] read: [None] is a [KeyError]. *)
Definition at_get (df : DataFrame) (r c : string) : option cell :=
  i ← get_loc (index df) r;
  j ← get_loc (columns df) c;
  row ← values df !! i;
  row !! j.

(** [location[0]] and [location[1:]] *)
Definition first_char (s : string) : outcome string :=
  match s with
  | EmptyString => Raise IndexError
  | String c _ => Ok (String c EmptyString)
  end.

Definition tail_chars (s : string) : string :=
  match s with
  | EmptyString => EmptyString
  | String _ s' => s'
  end.

Definition rows_A_P : list string := chars_of (slice 0 16 ascii_uppercase).
Definition columns_1_24 : list string := str_nat <$> range 1 25.

Definition sample_placement_384wp (samples_and_wells : dict string string)
  : outcome DataFrame :=
  foldO (λ df_wp384 i,
           location ← (if dict_get samples_and_wells i is Some w then Ok w
                       else Raise KeyError);
           row ← first_char location;
           Ok (at_set df_wp384 row (tail_chars location) (CellStr i)))
        (DataFrame_filled (CellStr EmptyString) columns_1_24 rows_A_P)
        (dict_keys samples_and_wells).

(** Every row of cells is as long as the column axis, and there is one
    row of cells per row label. *)
Definition frame_ok (df : DataFrame) : Prop :=
  length (values df) = length (index df)
  ∧ Forall (λ row, length row = length (columns df)) (values df).

(** One step of the placement loop, on an entry of the mapping. *)
Definition place_sample (df : DataFrame) (sw : string * string) : outcome DataFrame :=
  row ← first_char sw.2;
  Ok (at_set df row (tail_chars sw.2) (CellStr sw.1)).

(** The specification's reading of a well label: an uppercase row letter
    A-P followed by digits that read as a number from 1 to 24. *)
Definition spec_row_letter (c : ascii) : bool :=
  let n := nat_of_ascii c in (65 <=? n) && (n <=? 80).

Definition spec_column_number (s : string) : option nat :=
  let ds := list_ascii_of_string s in
  if forallb is_digit ds && negb (bool_decide (ds = []))
  then Some (Z.to_nat (digits_value ds)) else None.

Definition spec_well_label_ok (well : string) : bool :=
  match well with
  | String c rest =>
      spec_row_letter c
      && (if spec_column_number rest is Some n then (1 <=? n) && (n <=? 24) else false)
  | EmptyString => false
  end.

(* ================================================================== *)
(** ** The loaded GeoJSON table

    [geopandas.read_file] is the boundary: the functions below start from
    the table it returns.  Coordinates are floats, kept abstract; the two
    shapely operations the script calls are parameters. *)
(* ================================================================== *)

Section Shapely.
Context {float : Type}.

Definition coords : Type := list (float * float).

Inductive Geometry :=
| Point (x y : float)
| LineString (cs : coords)
| Polygon (exterior : coords) (interiors : list coords)
| MultiPoint (pts : coords)
| MultiLineString (lines : list coords)
| MultiPolygon (polys : list (coords * list coords))
| GeometryCollection (gs : list Geometry).

Definition geom_type (g : Geometry) : string :=
  match g with
  | Point _ _ => "Point"
  | LineString _ => "LineString"
  | Polygon _ _ => "Polygon"
  | MultiPoint _ => "MultiPoint"
  | MultiLineString _ => "MultiLineString"
  | MultiPolygon _ => "MultiPolygon"
  | GeometryCollection _ => "GeometryCollection"
  end.

(** [isinstance(geom, shapely.geometry.Point)] *)
Definition is_Point (g : Geometry) : bool :=
  if g is Point _ _ then true else false.

(** [a.intersects(b)] and [g.simplify(tolerance)] *)
Variable intersects : Geometry → Geometry → bool.
Variable simplify : Z → Geometry → Geometry.

(** One row of the table.  [name] and [classification] are [None] where
    the file has no value (NaN); [classification_name] is the derived
    column, [None] while it has not been set. *)
Record Feature := {
  geometry : Geometry;
  name : option string;
  classification : option pyval;
  classification_name : option pyval
}.

(** The table, with the two property columns it may lack. *)
Record GeoDataFrame := {
  has_name : bool;
  has_classification : bool;
  rows : list Feature
}.

Definition with_rows (df : GeoDataFrame) (l : list Feature) : GeoDataFrame :=
  {| has_name := has_name df; has_classification := has_classification df;
     rows := l |}.

(** [df[col]] on a column that may be absent *)
Definition need_column (present : bool) : outcome unit :=
  if present then Ok tt else Raise KeyError.

(** [Series.unique()]: first occurrences, in order. *)
Definition unique {A} `{EqDecision A} (l : list A) : list A :=
  foldl (λ seen x, if decide (x ∈ seen) then seen else seen ++ [x]) [] l.

(** [Series.value_counts()], here in order of first appearance (pandas
    lists the same pairs by decreasing count). *)
Definition value_counts (l : list string) : list (string * nat) :=
  (λ k, (k, length (filter (λ x, x = k) l))) <$> unique l.

(* ---------------------------------------------------------------- *)
(** *** [extract_coordinates] *)

Definition extract_coordinates (g : Geometry) : run coords :=
  match g with
  | Polygon exterior _ => mret exterior
  | LineString cs => mret cs
  | _ => _ ← emit (Write (GeometryNotSupported (geom_type g))); st_stop
  end.

Fixpoint map_run {A B} (f : A → run B) (l : list A) : run (list B) :=
  match l with
  | [] => mret []
  | x :: l' => y ← f x; ys ← map_run f l'; mret (y :: ys)
  end.

(* ---------------------------------------------------------------- *)
(** *** Shared steps *)

(** [ast.literal_eval(x).get('name') if isinstance(x, str) else x.get('name')] *)
Definition classification_name_of (x : pyval) : outcome pyval :=
  match x with
  | PStr s => v ← literal_eval s; py_get v "name"
  | _ => py_get x "name"
  end.

Definition notna (r : Feature) : bool := bool_decide (is_Some (classification r)).

Definition set_classification_name (r : Feature) (v : pyval) : Feature :=
  {| geometry := geometry r; name := name r;
     classification := classification r; classification_name := Some v |}.

(** [df['classification_name'] = df['classification'].apply(...)] on rows
    whose classification is not NaN. *)
Definition derive_classification_name (l : list Feature) : outcome (list Feature) :=
  mapO (λ r, v ← classification_name_of (default PNone (classification r));
             Ok (set_classification_name r v)) l.

(** The x and y of the first row called [point_name]. *)
Definition calib_xy (df : GeoDataFrame) (point_name : string)
  : outcome (float * float) :=
  match filter (λ r, name r = Some point_name) (rows df) with
  | [] => Raise IndexError
  | r :: _ =>
      match geometry r with
      | Point x y => Ok (x, y)
      | _ => Raise AttributeError
      end
  end.

(** The three calibration point names, in order. *)
Definition calibpoint_names : Type := string * string * string.
Definition names_list (n : calibpoint_names) : list string :=
  [n.1.1; n.1.2; n.2].

(** The mapping text, cleaned and parsed. *)
Definition samples_and_wells_processed (samples_and_wells_input : string) : string :=
  replace space EmptyString (replace newline EmptyString samples_and_wells_input).

(** [d.values()] and [d.keys()] need a dict. *)
Definition as_dict (v : pyval) : outcome (dict pyval pyval) :=
  match v with
  | PDict d => Ok d
  | _ => Raise AttributeError
  end.

(** pandas hashes the values of a column in [unique], [isin] and
    [set(...)]. *)
Definition need_hashable (l : list pyval) : outcome unit :=
  if forallb hashable l then Ok tt else Raise TypeError.

(* ---------------------------------------------------------------- *)
(** *** [QC_geojson_file] *)

Definition QC_geojson_file (df : GeoDataFrame) : run GeoDataFrame :=
  _ ← emit (Log INFO (LoadedForColoring (length (rows df))));
  let rows1 := filter (λ r, negb (is_Point (geometry r))) (rows df) in
  _ ← emit (Log INFO PointsRemoved);
  _ ← lift (need_column (has_classification df));
  let rows2 := filter (λ r, notna r) rows1 in
  let rows3 := filter (λ r, geom_type (geometry r) ≠ "MultiPolygon") rows2 in
  rows4 ← lift (derive_classification_name rows3);
  mret (with_rows df rows4).

(** The rows the cleaner keeps, before the class name is derived. *)
Definition retained (r : Feature) : Prop :=
  negb (is_Point (geometry r)) ∧ notna r ∧ geom_type (geometry r) ≠ "MultiPolygon".

(* ---------------------------------------------------------------- *)
(** *** [load_and_QC_geojson_file] *)

Definition polygon_intersects_triangle (polygon triangle : Geometry) : bool :=
  match polygon with
  | Polygon _ _ => intersects polygon triangle
  | LineString _ => intersects polygon triangle
  | _ => false
  end.

(** The check of the calibration names: three error lines per name that
    is absent, and nothing else. *)
Definition check_calibration_names (df : GeoDataFrame) (names : list string)
  : run unit :=
  for_each names (λ point_name,
    when (bool_decide (Some point_name ∉ name <$> rows df))
      (_ ← emit (Log ERROR (CalibNameAbsent point_name));
       _ ← emit (Log ERROR (CalibNamesPassed names));
       emit (Log ERROR (CalibNamesFound
               (name <$> filter (λ r, geom_type (geometry r) = "Point") (rows df)))))).

(** The start of a run on a table with a name column: the report of the
    geometries and the check of the calibration names. *)
Definition calibration_prelude (df : GeoDataFrame) (names : list string) : list event :=
  [Log INFO (Loaded (length (rows df)));
   Log INFO (Geometries (value_counts ((λ r, geom_type (geometry r)) <$> rows df)));
   Write (Geometries (value_counts ((λ r, geom_type (geometry r)) <$> rows df)))]
  ++ trace (check_calibration_names df names).

(** The [intersects] column, the number of polygons and line strings,
    and their quotient. *)
Definition intersects_column (df : GeoDataFrame) (calib_np_array : coords)
  : list bool :=
  (λ r, polygon_intersects_triangle (geometry r) (Polygon calib_np_array []))
    <$> rows df.

Definition num_of_polygons_and_LineString (df : GeoDataFrame) : nat :=
  length (filter (λ r, geom_type (geometry r) ∈ ["Polygon"; "LineString"]) (rows df)).

Definition intersect_fraction (df : GeoDataFrame) (calib_np_array : coords)
  : np_float :=
  true_divide (length (filter (λ b, b = true) (intersects_column df calib_np_array)))
              (num_of_polygons_and_LineString df).

Definition load_and_QC_geojson_file
    (df : GeoDataFrame) (list_of_calibpoint_names : calibpoint_names) : run unit :=
  let names := names_list list_of_calibpoint_names in
  _ ← emit (Log INFO (Loaded (length (rows df))));
  _ ← (if has_name df then mret tt
       else _ ← emit (Log WARNING NoNameColumn); st_stop);
  let geometry_counts := value_counts ((λ r, geom_type (geometry r)) <$> rows df) in
  _ ← emit (Log INFO (Geometries geometry_counts));
  _ ← emit (Write (Geometries geometry_counts));
  _ ← check_calibration_names df names;
  calib_np_array ← lift (mapO (calib_xy df) names);
  let fraction := intersect_fraction df calib_np_array in
  _ ← emit (Log INFO (IntersectPercent fraction));
  _ ← emit (Write (IntersectPercent fraction));
  _ ← when (np_lt fraction (1 # 4))
        (_ ← emit (Write LowIntersect);
         _ ← emit (Log WARNING LowIntersectLog);
         emit (Log WARNING WarpedLog));
  let rows1 := filter (λ r, negb (is_Point (geometry r))) (rows df) in
  _ ← emit (Log INFO PointsRemoved);
  _ ← lift (need_column (has_classification df));
  let n_na := length (filter (λ r, negb (notna r)) rows1) in
  _ ← when (negb (n_na =? 0)) (emit (Write (NaNClassifications n_na)));
  let rows2 := filter (λ r, notna r) rows1 in
  rows3 ← lift (derive_classification_name rows2);
  let multi := filter (λ r, geom_type (geometry r) = "MultiPolygon") rows3 in
  _ ← when (negb (bool_decide (multi = [])))
        (_ ← emit (Write MultiPolygonPresent);
         _ ← emit (Table ((λ r, (name r, default PNone (classification_name r))) <$> multi));
         emit (Write MultiPolygonIgnored));
  let rows4 := filter (λ r, geom_type (geometry r) ≠ "MultiPolygon") rows3 in
  _ ← map_run extract_coordinates ((λ r, simplify 1 (geometry r)) <$> rows4);
  emit (Success FileQCComplete).

(* ---------------------------------------------------------------- *)
(** *** [load_and_QC_SamplesandWells] *)

(** The mapped wells that are not in the acceptable list. *)
Definition unacceptable (wells : list pyval) : list pyval :=
  filter (λ well, well ∉ PStr <$> create_list_of_acceptable_wells) wells.

(** The loop over the mapped wells; [warning_limit] counts the wells
    that are not acceptable. *)
Fixpoint check_wells (wells : list pyval) (warning_limit : nat) : run nat :=
  match wells with
  | [] => mret warning_limit
  | well :: wells' =>
      if bool_decide (well ∉ PStr <$> create_list_of_acceptable_wells) then
        let warning_limit := S warning_limit in
        _ ← when (warning_limit <? 10) (emit (Write (WellNotAcceptable well)));
        check_wells wells' warning_limit
      else check_wells wells' warning_limit
  end.

Definition load_and_QC_SamplesandWells
    (df : GeoDataFrame) (list_of_calibpoint_names : calibpoint_names)
    (samples_and_wells_input : string) : run unit :=
  _ ← lift (need_column (has_name df));
  let rows1 := filter (λ r, name r ∉ Some <$> names_list list_of_calibpoint_names)
                      (rows df) in
  _ ← lift (need_column (has_classification df));
  let rows2 := filter (λ r, notna r) rows1 in
  let rows3 := filter (λ r, geom_type (geometry r) ≠ "MultiPolygon") rows2 in
  Name ← lift (mapO (λ r, classification_name_of (default PNone (classification r))) rows3);
  parsed ← lift (literal_eval (samples_and_wells_processed samples_and_wells_input));
  samples_and_wells ← lift (as_dict parsed);
  warning_limit ← check_wells (dict_values samples_and_wells) 0;
  _ ← when (10 <=? warning_limit) (emit (Write TooManyWellWarnings));
  _ ← lift (need_hashable Name);
  _ ← for_each (unique Name) (λ name,
        when (negb (dict_mem samples_and_wells name))
             (emit (Write (NameNotInSamples name))));
  emit (Success SamplesWellsQCDone).

(* ---------------------------------------------------------------- *)
(** *** [create_collection]

    The model ends with the collection handed to the lmd library and
    the parsed mapping; the preview, the XML file and the plate CSV are
    written from these two. *)

Record Collection := {
  calibration_points : coords;
  orientation_transform : (Z * Z) * (Z * Z);
  shapes : list (coords * pyval)
}.

Definition create_collection
    (df : GeoDataFrame) (list_of_calibpoint_names : calibpoint_names)
    (samples_and_wells_input : string)
  : run (Collection * dict pyval pyval) :=
  _ ← lift (need_column (has_name df));
  calib_np_array ← lift (mapO (calib_xy df) (names_list list_of_calibpoint_names));
  let rows1 := filter (λ r, negb (is_Point (geometry r))) (rows df) in
  _ ← lift (need_column (has_classification df));
  let rows2 := filter (λ r, notna r) rows1 in
  let rows3 := filter (λ r, geom_type (geometry r) ≠ "MultiPolygon") rows2 in
  coords_col ← map_run extract_coordinates ((λ r, simplify 1 (geometry r)) <$> rows3);
  Name ← lift (mapO (λ r, classification_name_of (default PNone (classification r))) rows3);
  parsed ← lift (literal_eval (samples_and_wells_processed samples_and_wells_input));
  samples_and_wells ← lift (as_dict parsed);
  _ ← lift (need_hashable Name);
  let kept := filter (λ cn, dict_mem samples_and_wells cn.2 = true) (zip coords_col Name) in
  the_shapes ← lift (mapO (λ cn, if dict_get samples_and_wells cn.2 is Some well
                                 then Ok (cn.1, well) else Raise KeyError) kept);
  mret ({| calibration_points := calib_np_array;
           orientation_transform := ((1, 0), (0, -1))%Z;
           shapes := the_shapes |}, samples_and_wells).

(* ---------------------------------------------------------------- *)
(** *** The metadata table and [check_ids]

    [pandas.read_csv] is the boundary.  A column is read either as
    integers or as text with NaN for empty cells. *)

Inductive column :=
| IntCol (l : list Z)
| StrCol (l : list (option string)).

Definition MetadataTable : Type := dict string column.

(** A cell of a column, as a Python value (NaN is [PNone] here). *)
Definition column_cells (c : column) : list pyval :=
  match c with
  | IntCol l => PInt <$> l
  | StrCol l => (λ o, if o is Some s then PStr s else PNone) <$> l
  end.

(** [col.astype(str)] *)
Definition astype_str (c : column) : list string :=
  match c with
  | IntCol l => str_Z <$> l
  | StrCol l => (λ o, default "nan" o) <$> l
  end.

(** [metadata[key]] *)
Definition get_column (metadata : MetadataTable) (key : string) : outcome column :=
  if dict_get metadata key is Some c then Ok c else Raise KeyError.

(** [parse_metadata_csv]: [None] stands for a file the reader rejects. *)
Definition parse_metadata_csv (csv : option MetadataTable) : run MetadataTable :=
  match csv with
  | Some df => mret df
  | None => _ ← emit (Log ERROR CsvError); st_stop
  end.

(** The class names of the shapes, and the stripped names of the table. *)
Definition shape_names (shapes : GeoDataFrame) : list pyval :=
  (λ r, default PNone (classification_name r)) <$> rows shapes.

Definition metadata_names (col : column) : list pyval :=
  PStr <$> (strip <$> astype_str col).

(** [check_ids] strips the name column in place: the table is returned
    with the answer. *)
Definition check_ids (shapes : GeoDataFrame) (metadata : MetadataTable)
    (metadata_name_key : string) : run (bool * MetadataTable) :=
  col ← lift (get_column metadata metadata_name_key);
  let stripped := strip <$> astype_str col in
  let metadata := dict_set metadata metadata_name_key (StrCol (Some <$> stripped)) in
  let shape_names := (λ r, default PNone (classification_name r)) <$> rows shapes in
  _ ← lift (need_hashable shape_names);
  let shape_names_set := unique shape_names in
  let metadata_names_set := PStr <$> unique stripped in
  if bool_decide (shape_names_set ⊆ metadata_names_set) then
    _ ← emit (Log INFO AllNamesFound);
    _ ← emit (Write AllNamesFound);
    mret (true, metadata)
  else
    _ ← emit (Log ERROR (NamesNotFound
                (filter (λ n, n ∉ metadata_names_set) shape_names_set)));
    _ ← emit (Log ERROR (OverlappingNames
                (filter (λ n, n ∈ metadata_names_set) shape_names_set)));
    mret (false, metadata).

(** [process_geojson_with_metadata] up to the join: each cleaned shape
    with the metadata value found for its class name ([None] is NaN).
    The recolouring and the export that follow work on this table. *)
Definition process_geojson_with_metadata
    (geojson : GeoDataFrame) (csv : option MetadataTable)
    (metadata_name_key metadata_variable_key : string)
  : run (list (Feature * option pyval)) :=
  shapes ← QC_geojson_file geojson;
  metadata ← parse_metadata_csv csv;
  checked ← check_ids shapes metadata metadata_name_key;
  _ ← lift (py_assert checked.1);
  let metadata := checked.2 in
  names ← lift (get_column metadata metadata_name_key);
  variable ← lift (get_column metadata metadata_variable_key);
  let mapping := dict_of_pairs (zip (column_cells names) (column_cells variable)) in
  mret ((λ r, (r, dict_get mapping (default PNone (classification_name r))))
          <$> rows shapes).

(** What follows [check_ids] in [process_geojson_with_metadata]. *)
Definition join_after_check (shapes : GeoDataFrame)
    (metadata_name_key metadata_variable_key : string)
    (checked : bool * MetadataTable) : run (list (Feature * option pyval)) :=
  _ ← lift (py_assert checked.1);
  names ← lift (get_column checked.2 metadata_name_key);
  variable ← lift (get_column checked.2 metadata_variable_key);
  mret ((λ r, (r, dict_get (dict_of_pairs (zip (column_cells names) (column_cells variable)))
                           (default PNone (classification_name r))))
          <$> rows shapes).

End Shapely.

(* ================================================================== *)
(** ** The rest of the page: text inputs, file names, colours *)
(* ================================================================== *)

(** [s.split(sep)] for a one-character separator: the pieces between the
    separators, empty pieces included. *)
Fixpoint split (sep : ascii) (s : string) : list string :=
  match s with
  | EmptyString => [EmptyString]
  | String c s' =>
      if Ascii.eqb c sep then EmptyString :: split sep s'
      else match split sep s' with
           | piece :: pieces => String c piece :: pieces
           | [] => [String c EmptyString]
           end
  end.

(** [sep.join(pieces)] *)
Fixpoint join (sep : string) (pieces : list string) : string :=
  match pieces with
  | [] => EmptyString
  | [piece] => piece
  | piece :: pieces' => piece +:+ sep +:+ join sep pieces'
  end.

(** [[i.strip() for i in input.split(",") if i.strip()]] *)
Definition categoricals (input : string) : list string :=
  filter (λ i, i ≠ EmptyString) (strip <$> split "," input).

(** [s.replace(old, new)] for any [old]: the occurrences of [old] are
    replaced from left to right, without overlap.  [skip] counts the
    characters of an occurrence that are still to be passed over. *)
Fixpoint str_replace_from (old new : string) (skip : nat) (s : string) : string :=
  match s with
  | EmptyString => EmptyString
  | String c s' =>
      match skip with
      | S k => str_replace_from old new k s'
      | 0 =>
          if String.prefix old s
          then new +:+ str_replace_from old new (String.length old - 1) s'
          else String c (str_replace_from old new 0 s')
      end
  end.

Definition str_replace (old new : string) (s : string) : string :=
  match old with
  | EmptyString =>
      new +:+ String.concat EmptyString
                ((λ c, String c new) <$> list_ascii_of_string s)
  | _ => str_replace_from old new 0 s
  end.

(** The files written for an uploaded file called [name]. *)
Definition xml_name (name : string) : string :=
  "./" +:+ str_replace "geojson" "xml" name.

Definition wellplate_name (name : string) : string :=
  "./" +:+ str_replace "geojson" "_384_wellplate.csv" name.

Definition labelled_name (name metadata_variable_key : string) : string :=
  "./" +:+ str_replace "geojson" (metadata_variable_key +:+ "_labelled_shapes.geojson") name.

(** [old] occurs in [s]. *)
Definition occurs (old s : string) : Prop := ∃ a b, s = a +:+ old +:+ b.

(** The class colours of the annotation tool. *)
Definition color_map : dict string Z :=
  [("red", 0xFF0000); ("green", 0x00FF00); ("blue", 0x0000FF);
   ("magenta", 0xFF00FF); ("cyan", 0x00FFFF); ("yellow", 0xFFFF00)]%Z.

(** [-(0x1000000 - rgb)] *)
Definition java_color (rgb : Z) : Z := (- (0x1000000 - rgb))%Z.

Definition java_colors : list Z := java_color <$> dict_values color_map.

(** The entries of [classes.json]: the name of each sample with the colour
    [java_colors[i % len(java_colors)]]. *)
Definition pathClasses (list_of_samples : list string) : outcome (list (string * Z)) :=
  mapO (λ ix, if java_colors !! (ix.1 mod length java_colors) is Some color
              then Ok (ix.2, color) else Raise IndexError)
       (imap pair list_of_samples).

(** [l[::2]] *)
Fixpoint every_other {A} (l : list A) : list A :=
  match l with
  | x :: _ :: l' => x :: every_other l'
  | _ => l
  end.

(** The button "Create Samples and wells scheme with default wells". *)
Definition default_scheme (list3 list4 : list string) (input6 : Z)
  : outcome (dict string string) :=
  let spaced_list_of_acceptable_wells := every_other create_list_of_acceptable_wells in
  list_of_samples ← generate_combinations list3 list4 input6;
  create_default_samples_and_wells list_of_samples spaced_list_of_acceptable_wells.

(** The button "Create class names for QuPath". *)
Definition class_names (list1 list2 : list string) (input3 : Z)
  : outcome (list (string * Z)) :=
  list_of_samples ← generate_combinations list1 list2 input3;
  pathClasses list_of_samples.

(** [old] occurs in [s] at position [skip] or later. *)
Definition occurs_from (old : string) (skip : nat) (s : string) : Prop :=
  ∃ a b, s = a +:+ old +:+ b ∧ skip ≤ String.length a.

(** The coordinates that [extract_coordinates] returns for a Polygon (its
    exterior ring) or a LineString. *)
Section Rings.
Context {float : Type}.

Definition exterior_or_line (g : @Geometry float) : @coords float :=
  match g with
  | Polygon exterior _ => exterior
  | LineString cs => cs
  | _ => []
  end.

End Rings.

(* ================================================================== *)
(** ** Colours by category

    The end of [process_geojson_with_metadata]: each shape gets a
    classification made of its metadata value and the colour of that
    value. *)
(* ================================================================== *)

Definition default_colors : list (list Z) :=
  [[31; 119; 180]; [255; 127; 14]; [44; 160; 44]; [214; 39; 40]; [148; 103; 189]]%Z.

(** The first [n] items of [itertools.cycle(l)]. *)
Definition cycle {A} (n : nat) (l : list A) : list A :=
  take n (mjoin (replicate n l)).

(** The order of Python on [str], character by character. *)
Definition str_le (a b : string) : Prop := String.leb a b = true.

#[global] Instance str_le_dec (a b : string) : Decision (str_le a b).
Proof. unfold str_le. apply _. Defined.

(** [col.astype("category").cat.categories.astype(str)]: the values of
    the column that are not NaN, each once, sorted, as text. *)
Definition categories (c : column) : list string :=
  match c with
  | IntCol l => str_Z <$> merge_sort Z.le (unique l)
  | StrCol l => merge_sort str_le (unique (omap id l))
  end.

(** [dict(zip(categories, color_cycle))] *)
Definition color_dict (variable : column) : dict string (list Z) :=
  let categories := categories variable in
  dict_of_pairs (zip categories (cycle (length categories) default_colors)).

(** [{'name': x, 'color': color_dict[x]}]: the keys of [color_dict] are
    text, so a number or NaN is not among them. *)
Definition colour (color_dict : dict string (list Z)) (x : option pyval) : outcome pyval :=
  match x with
  | Some (PStr s) =>
      if dict_get color_dict s is Some rgb
      then Ok (PDict [(PStr "name", PStr s); (PStr "color", PList (PInt <$> rgb))])
      else Raise KeyError
  | Some v => if hashable v then Raise KeyError else Raise TypeError
  | None => Raise KeyError
  end.

(** [shapes["metadata"].apply(...)] on the column of joined values. *)
Definition colour_shapes (variable : column) (metadata : list (option pyval))
  : outcome (list pyval) :=
  mapO (colour (color_dict variable)) metadata.

(* ================================================================== *)
(** ** The scheme as a file: [json.dump(samples_and_wells, f, indent=4)]

    The encoder works on the code points of the text.  A text that is
    not UTF-8 is not a Python [str]: the functions below give [None] for
    it. *)
(* ================================================================== *)

(** [{0:04x}] *)
Definition hex_digit (n : N) : ascii :=
  if (n <? 10)%N then ascii_of_N (48 + n) else ascii_of_N (87 + n).

Definition hex4 (n : N) : list ascii :=
  [hex_digit (n / 4096 mod 16)%N; hex_digit (n / 256 mod 16)%N;
   hex_digit (n / 16 mod 16)%N; hex_digit (n mod 16)%N].

(** One code point in a JSON string, with [ensure_ascii]: a backslash, a
    double quote and every code point outside space to tilde are
    escaped; a code point above [0xFFFF] is written as two surrogates. *)
Definition json_escape (cp : N) : list ascii :=
  if (cp =? 92)%N then [backslash; backslash]
  else if (cp =? 34)%N then [backslash; dquote]
  else if (cp =? 8)%N then [backslash; "b"%char]
  else if (cp =? 12)%N then [backslash; "f"%char]
  else if (cp =? 10)%N then [backslash; "n"%char]
  else if (cp =? 13)%N then [backslash; "r"%char]
  else if (cp =? 9)%N then [backslash; "t"%char]
  else if (32 <=? cp)%N && (cp <=? 126)%N then [ascii_of_N cp]
  else if (cp <? 0x10000)%N then backslash :: "u"%char :: hex4 cp
  else
    let v := (cp - 0x10000)%N in
    (backslash :: "u"%char :: hex4 (0xD800 + v / 1024)%N)
    ++ (backslash :: "u"%char :: hex4 (0xDC00 + v mod 1024)%N).

Definition json_string (s : string) : option string :=
  cps ← code_points (list_ascii_of_string s);
  Some (string_of_list_ascii ([dquote] ++ (cps ≫= json_escape) ++ [dquote])).

(** A dict of text keys and text values with [indent=4]: one entry per
    line, [": "] between key and value. *)
Definition newline_indent : string := String newline "    ".

Definition json_dump (samples_and_wells : dict string string) : option string :=
  entries ← mapM (λ kv, k ← json_string kv.1; v ← json_string kv.2;
                        Some (k +:+ ": " +:+ v)) samples_and_wells;
  Some (match entries with
        | [] => "{}"
        | _ => "{" +:+ newline_indent +:+ join ("," +:+ newline_indent) entries
               +:+ String newline "}"
        end).

(** A visible ASCII character other than the double quote and the
    backslash: what a JSON string holds unescaped, space apart. *)
Definition word_char (c : ascii) : Prop :=
  (33 <= N_of_ascii c <= 126)%N ∧ c ≠ dquote ∧ c ≠ backslash.

(** What the cleaning of the mapping text keeps of a list of characters:
    [samples_and_wells_processed], character by character. *)
Definition squeeze (l : list ascii) : list ascii :=
  filter (λ c, c ≠ space) (filter (λ c, c ≠ newline) l).

(** The text of the file once newlines and spaces are deleted, for keys
    and values of word characters, followed by [rest]. *)
Definition compact_entry (kv : string * string) (rest : list ascii) : list ascii :=
  dquote :: list_ascii_of_string kv.1
  ++ dquote :: ":"%char :: dquote :: list_ascii_of_string kv.2 ++ dquote :: rest.

Fixpoint compact_entries (d : dict string string) (rest : list ascii) : list ascii :=
  match d with
  | [] => "}"%char :: rest
  | [kv] => compact_entry kv ("}"%char :: rest)
  | kv :: d' => compact_entry kv (","%char :: compact_entries d' rest)
  end.

(* ================================================================== *)
(** ** Concrete inputs

    Tables with integer coordinates, and mapping texts.  A mapping text
    is written with a backquote where it has a double quote. *)
(* ================================================================== *)

Definition quoted (s : string) : string := replace "`" (String dquote EmptyString) s.

Definition calibration_rows : list (@Feature Z) :=
  [ {| geometry := Point 0%Z 0%Z; name := Some "calib1";
       classification := None; classification_name := None |};
    {| geometry := Point 10%Z 0%Z; name := Some "calib2";
       classification := None; classification_name := None |};
    {| geometry := Point 0%Z 10%Z; name := Some "calib3";
       classification := None; classification_name := None |} ].

Definition square (class : string) : @Feature Z :=
  {| geometry := Polygon [(1, 1); (2, 1); (2, 2); (1, 1)]%Z [];
     name := None;
     classification := Some (PStr class);
     classification_name := None |}.

Definition empty_table : @GeoDataFrame Z :=
  {| has_name := true; has_classification := true; rows := [] |}.

Definition with_square : @GeoDataFrame Z :=
  {| has_name := true; has_classification := true;
     rows := calibration_rows ++ [square "{'name': 'tumor', 'color': [200, 0, 0]}"] |}.

Definition only_points : @GeoDataFrame Z :=
  {| has_name := true; has_classification := true;
     rows := [ {| geometry := Point 0%Z 0%Z; name := Some "calib1";
                  classification := Some (PStr "{'name': 'calibration'}");
                  classification_name := None |};
               {| geometry := Point 10%Z 0%Z; name := Some "calib2";
                  classification := None; classification_name := None |};
               {| geometry := Point 0%Z 10%Z; name := Some "calib3";
                  classification := None; classification_name := None |} ] |}.

Definition spaced_class : @GeoDataFrame Z :=
  {| has_name := true; has_classification := true;
     rows := calibration_rows ++ [square "{'name': 'a b'}"] |}.

Definition ten_bad_wells : string :=
  quoted "{`s1`:`A1`,`s2`:`A2`,`s3`:`A3`,`s4`:`A4`,`s5`:`A5`,`s6`:`A6`,`s7`:`A7`,`s8`:`A8`,`s9`:`A9`,`s10`:`A10`}".

Definition escaped_space : string := quoted "{`a\x20b`:`C3`}".

Definition written_space : string := quoted "{`a b`: `C 3`}".

Definition two_names : MetadataTable :=
  [("Class name", StrCol [Some " tumor "; Some "stroma"]);
   ("status", StrCol [Some "collected"; None])].

(* ================================================================== *)
(** * Properties *)
(* ================================================================== *)

(** ** Outcomes, runs and loops *)

Lemma mapO_fmap {A B} (f : A → outcome B) (g : A → B) (l : list A) :
  Forall (λ x, f x = Ok (g x)) l → mapO f l = Ok (g <$> l).
Proof.
  induction 1 as [|x l Hx _ IH]; [done|].
  cbn [mapO]. rewrite Hx, IH. done.
Qed.

Lemma run_bind_Ok {A B} (m : run A) (f : A → run B) (a : A) :
  result m = Ok a → m ≫= f = Run (trace m ++ trace (f a)) (result (f a)).
Proof. intros Hm. unfold mbind, run_bind. by rewrite Hm. Qed.

Lemma run_bind_Raise {A B} (m : run A) (f : A → run B) (e : exn) :
  result m = Raise e → m ≫= f = Run (trace m) (Raise e).
Proof. intros Hm. unfold mbind, run_bind. by rewrite Hm. Qed.

Lemma run_bind_Stop {A B} (m : run A) (f : A → run B) :
  result m = Stop → m ≫= f = Run (trace m) Stop.
Proof. intros Hm. unfold mbind, run_bind. by rewrite Hm. Qed.

Lemma run_bind_ret {A B} (a : A) (f : A → run B) : mret a ≫= f = f a.
Proof. unfold mbind, run_bind, mret, run_ret. simpl. by destruct (f a). Qed.

Lemma run_bind_emit {B} (e : event) (f : unit → run B) :
  emit e ≫= f = Run (e :: trace (f tt)) (result (f tt)).
Proof. done. Qed.

Lemma run_bind_lift_Ok {A B} (a : A) (f : A → run B) : lift (Ok a) ≫= f = f a.
Proof. unfold mbind, run_bind, lift. simpl. by destruct (f a). Qed.

Lemma run_bind_lift_Raise {A B} (e : exn) (f : A → run B) :
  lift (Raise e) ≫= f = Run [] (Raise e).
Proof. done. Qed.

(** One step of a run whose head is known. *)
Ltac run_step :=
  first [ rewrite run_bind_emit | rewrite run_bind_ret
        | rewrite run_bind_lift_Ok | rewrite run_bind_lift_Raise ];
  cbn beta; cbn [trace result].

(** ** Lists built by nested loops *)

Lemma length_bind_uniform {A B} (f : A → list B) (n : nat) (l : list A) :
  (∀ x, length (f x) = n) → length (l ≫= f) = length l * n.
Proof.
  intros Hf. induction l as [|x l IH]; [done|].
  rewrite bind_cons, length_app, Hf, IH. simpl. lia.
Qed.

Lemma lookup_bind_uniform {A B} (f : A → list B) (n : nat) (l : list A) i j x y :
  (∀ x, length (f x) = n) →
  l !! i = Some x → f x !! j = Some y → (l ≫= f) !! (i * n + j) = Some y.
Proof.
  intros Hf. revert i. induction l as [|a l IH]; intros i Hi Hj; [done|].
  rewrite bind_cons. destruct i as [|i]; simpl in Hi.
  - injection Hi as ->. simpl. by apply lookup_app_l_Some.
  - rewrite lookup_app_r; rewrite Hf; [|lia].
    replace (S i * n + j - n) with (i * n + j) by lia. by apply IH.
Qed.

(** ** [generate_combinations] *)

Lemma list_bind_assoc {A B C} (f : A → list B) (g : B → list C) (l : list A) :
  (l ≫= f) ≫= g = l ≫= (λ x, f x ≫= g).
Proof.
  induction l as [|x l IH]; [done|].
  rewrite !bind_cons, bind_app, IH. done.
Qed.

Lemma list_bind_fmap {A B C} (f : B → C) (g : A → list B) (l : list A) :
  f <$> (l ≫= g) = l ≫= (λ x, f <$> g x).
Proof.
  induction l as [|x l IH]; [done|].
  rewrite !bind_cons, fmap_app, IH. done.
Qed.

Lemma product_three {A} (l1 l2 l3 : list A) :
  product [l1; l2; l3] = a ← l1; b ← l2; c ← l3; [[a; b; c]].
Proof.
  unfold product. cbn [foldl]. rewrite bind_singleton.
  rewrite !list_bind_assoc. apply list_bind_ext; [|done]. intros a.
  rewrite bind_singleton, list_bind_assoc. apply list_bind_ext; [|done]. intros b.
  rewrite bind_singleton. done.
Qed.

Lemma generate_combinations_loops list1 list2 num :
  (0 < num)%Z →
  generate_combinations list1 list2 num = Ok (combinations list1 list2 num).
Proof.
  intros Hnum. unfold generate_combinations, py_assert.
  assert ((0 <? num)%Z = true) as -> by lia. cbn [mbind outcome_bind].
  rewrite product_three.
  rewrite (mapO_fmap _ (λ t, match t with
                              | [a; b; i] => fmt a +:+ "_" +:+ fmt b +:+ "_" +:+ fmt i
                              | _ => EmptyString
                              end)).
  - f_equal. unfold combinations.
    rewrite list_bind_fmap, list_fmap_bind. apply list_bind_ext; [|done]. intros a.
    cbn [compose]. rewrite list_bind_fmap, list_fmap_bind. apply list_bind_ext; [|done].
    intros b. cbn [compose]. rewrite list_bind_fmap, list_fmap_bind. done.
  - apply Forall_forall. intros t Ht.
    apply list_elem_of_bind in Ht as (a & Ht & _).
    apply list_elem_of_bind in Ht as (b & Ht & _).
    apply list_elem_of_bind in Ht as (c & Ht & _).
    apply list_elem_of_singleton in Ht as ->. done.
Qed.

Lemma combinations_length list1 list2 num :
  length (combinations list1 list2 num)
  = length list1 * length list2 * Z.to_nat num.
Proof.
  unfold combinations.
  rewrite (length_bind_uniform _ (length list2 * Z.to_nat num)); [lia|]. intros a.
  rewrite (length_bind_uniform _ (Z.to_nat num)); [lia|]. intros b.
  rewrite (length_bind_uniform _ 1); [|done]. rewrite length_seqZ. lia.
Qed.

Lemma combinations_lookup list1 list2 num i j k a b :
  list1 !! i = Some a → list2 !! j = Some b → k < Z.to_nat num →
  combinations list1 list2 num !! ((i * length list2 + j) * Z.to_nat num + k)
  = Some (a +:+ "_" +:+ b +:+ "_" +:+ str_Z (Z.of_nat k + 1)).
Proof.
  intros Ha Hb Hk. unfold combinations.
  replace ((i * length list2 + j) * Z.to_nat num + k)
    with (i * (length list2 * Z.to_nat num) + (j * Z.to_nat num + k)) by lia.
  eapply lookup_bind_uniform; [|exact Ha|].
  { intros x. rewrite (length_bind_uniform _ (Z.to_nat num)); [done|]. intros y.
    rewrite (length_bind_uniform _ 1); [|done]. rewrite length_seqZ. lia. }
  eapply lookup_bind_uniform; [|exact Hb|].
  { intros y. rewrite (length_bind_uniform _ 1); [|done]. rewrite length_seqZ. lia. }
  replace k with (k * 1 + 0) at 1 by lia.
  eapply lookup_bind_uniform; [done| |].
  - apply lookup_seqZ. split; [reflexivity|lia].
  - simpl. by rewrite (Z.add_comm 1).
Qed.

(** C8. For every two lists of strings and every positive [num],
    [generate_combinations] returns the names [a_b_i] in the order of the
    cartesian product: [list1] varies slowest, then [list2], then the
    replicate index, which runs from 1 to [num].  The name of the [i]-th
    element of [list1], the [j]-th of [list2] and replicate [k+1] is at
    position [(i * len(list2) + j) * num + k].  In particular
    [generate_combinations(["A","B"], ["1"], 2)] is
    [["A_1_1","A_1_2","B_1_1","B_1_2"]]. *)
Theorem generate_combinations_order (list1 list2 : list string) (num : Z) :
  (0 < num)%Z →
  ∃ keys,
    generate_combinations list1 list2 num = Ok keys
    ∧ length keys = length list1 * length list2 * Z.to_nat num
    ∧ (∀ i j k a b,
         list1 !! i = Some a → list2 !! j = Some b → k < Z.to_nat num →
         keys !! ((i * length list2 + j) * Z.to_nat num + k)
         = Some (a +:+ "_" +:+ b +:+ "_" +:+ str_Z (Z.of_nat k + 1)))
    ∧ generate_combinations ["A"; "B"] ["1"] 2
      = Ok ["A_1_1"; "A_1_2"; "B_1_1"; "B_1_2"].
Proof.
  intros Hnum. exists (combinations list1 list2 num).
  split; [by apply generate_combinations_loops|].
  split; [apply combinations_length|].
  split; [|reflexivity].
  intros i j k a b. apply combinations_lookup.
Qed.

(** Two classes, one treatment, two replicates: the last name is [B_1_2]. *)
Lemma generate_combinations_order_witness :
  ∃ keys,
    generate_combinations ["A"; "B"] ["1"] 2 = Ok keys
    ∧ length keys = 2 * 1 * 2
    ∧ keys !! 3 = Some "B_1_2".
Proof.
  assert (0 < 2)%Z as Hnum by lia.
  destruct (generate_combinations_order ["A"; "B"] ["1"] 2 Hnum)
    as (keys & Hk & Hlen & Hidx & _).
  exists keys. split; [exact Hk|]. split; [exact Hlen|].
  apply (Hidx 1 0 1 "B" "1"); [reflexivity|reflexivity|simpl; lia].
Defined.

(** ** Dictionaries *)

Section DictFacts.
Context {K V : Type} `{EqDecision K}.
Implicit Types (d : dict K V) (k : K) (v : V).

Lemma dict_get_set d k v k' :
  dict_get (dict_set d k v) k' = if decide (k = k') then Some v else dict_get d k'.
Proof.
  induction d as [|[k0 v0] d IH]; simpl.
  - repeat case_decide; congruence.
  - repeat (case_decide; simpl); try congruence.
Qed.

Lemma dict_keys_set d k v :
  k ∈ dict_keys d → dict_keys (dict_set d k v) = dict_keys d.
Proof.
  unfold dict_keys. induction d as [|[k0 v0] d IH]; simpl; [by inv 1|].
  intros Hk. case_decide; simpl; [done|]. f_equal. apply IH.
  apply elem_of_cons in Hk as [->|]; done.
Qed.

Lemma foldl_dict_set_snoc d (l : list (K * V)) k v :
  foldl (λ d kv, dict_set d kv.1 kv.2) d (l ++ [(k, v)])
  = dict_set (foldl (λ d kv, dict_set d kv.1 kv.2) d l) k v.
Proof. by rewrite foldl_app. Qed.

(** After a run of insertions, a key holds the value of its last
    insertion. *)
Lemma dict_get_foldl_last d (l : list (K * V)) i k v :
  l !! i = Some (k, v) →
  (∀ j v', i < j → l !! j ≠ Some (k, v')) →
  dict_get (foldl (λ d kv, dict_set d kv.1 kv.2) d l) k = Some v.
Proof.
  revert i. induction l as [|[k1 v1] l IH] using rev_ind; intros i Hi Hlast; [done|].
  rewrite foldl_dict_set_snoc, dict_get_set.
  destruct (decide (i = length l)) as [->|Hne].
  - rewrite lookup_app_r, Nat.sub_diag in Hi by lia. simpl in Hi.
    injection Hi as -> ->. by rewrite decide_True.
  - assert (i < length l) as Hlt.
    { apply lookup_lt_Some in Hi. rewrite length_app in Hi. simpl in Hi. lia. }
    rewrite lookup_app_l in Hi by done.
    case_decide as Hk.
    + subst k1. exfalso. apply (Hlast (length l) v1 Hlt).
      by rewrite lookup_app_r, Nat.sub_diag by lia.
    + apply (IH i Hi). intros j v' Hj Hl. apply (Hlast j v' Hj).
      by apply lookup_app_l_Some.
Qed.

(** Every value read back was inserted, or was there before. *)
Lemma dict_get_foldl_inv d (l : list (K * V)) k v :
  dict_get (foldl (λ d kv, dict_set d kv.1 kv.2) d l) k = Some v →
  (k, v) ∈ l ∨ dict_get d k = Some v.
Proof.
  induction l as [|[k1 v1] l IH] using rev_ind; [by right|].
  rewrite foldl_dict_set_snoc, dict_get_set. case_decide as Hk.
  - intros [= <-]. subst k1. left. apply elem_of_app. right. by left.
  - intros Hg. destruct (IH Hg) as [Hin|Hd]; [|by right].
    left. apply elem_of_app. by left.
Qed.

Lemma dict_get_foldl_is_Some d (l : list (K * V)) k :
  k ∈ l.*1 → is_Some (dict_get (foldl (λ d kv, dict_set d kv.1 kv.2) d l) k).
Proof.
  induction l as [|[k1 v1] l IH] using rev_ind; [by inv 1|].
  rewrite foldl_dict_set_snoc, dict_get_set, fmap_app, elem_of_app.
  case_decide as Hk; [by eauto|]. intros [Hin|Hin]; [by apply IH|].
  simpl in Hin. apply list_elem_of_singleton in Hin. congruence.
Qed.

(** In a dict, reading a key gives the value it is listed with. *)
Lemma dict_get_entry d k v :
  NoDup (dict_keys d) → (k, v) ∈ d → dict_get d k = Some v.
Proof.
  unfold dict_keys. induction d as [|[k0 v0] d IH]; [by inv 2|].
  rewrite fmap_cons, NoDup_cons. intros [Hk0 Hnd] Hin. simpl.
  apply elem_of_cons in Hin as [[= -> ->]|Hin].
  - by rewrite decide_True.
  - rewrite decide_False; [by apply IH|]. intros ->. apply Hk0.
    apply list_elem_of_fmap. by exists (k, v).
Qed.
End DictFacts.

(** ** [create_default_samples_and_wells] *)

(** C10. [create_default_samples_and_wells] asserts that there are at most
    as many samples as wells; otherwise it pairs the i-th sample with the
    i-th well (when a sample is listed more than once its last pairing
    stands).  Hence, when neither list has duplicates, every sample gets a
    well and distinct samples get distinct wells. *)
Theorem create_default_samples_and_wells_pairs
    (list_of_samples list_of_acceptable_wells : list string) :
  (length list_of_acceptable_wells < length list_of_samples →
   create_default_samples_and_wells list_of_samples list_of_acceptable_wells
   = Raise AssertionError)
  ∧ (length list_of_samples ≤ length list_of_acceptable_wells →
     ∃ samples_and_wells,
       create_default_samples_and_wells list_of_samples list_of_acceptable_wells
       = Ok samples_and_wells
       ∧ (∀ i sample well,
            list_of_samples !! i = Some sample →
            list_of_acceptable_wells !! i = Some well →
            (∀ j, i < j → list_of_samples !! j ≠ Some sample) →
            dict_get samples_and_wells sample = Some well)
       ∧ (NoDup list_of_samples →
          ∀ sample, sample ∈ list_of_samples →
                    is_Some (dict_get samples_and_wells sample))
       ∧ (NoDup list_of_samples → NoDup list_of_acceptable_wells →
          ∀ sample1 sample2 well,
            dict_get samples_and_wells sample1 = Some well →
            dict_get samples_and_wells sample2 = Some well →
            sample1 = sample2)).
Proof.
  unfold create_default_samples_and_wells, py_assert. split.
  - intros Hlt. apply Nat.leb_gt in Hlt. by rewrite Hlt.
  - intros Hle. pose proof Hle as Hb. apply Nat.leb_le in Hb. rewrite Hb.
    cbn [mbind outcome_bind]. eexists. split; [reflexivity|].
    assert (∀ i sample well,
              list_of_samples !! i = Some sample →
              list_of_acceptable_wells !! i = Some well →
              (∀ j, i < j → list_of_samples !! j ≠ Some sample) →
              dict_get (foldl (λ d sw, dict_set d sw.1 sw.2) []
                          (zip list_of_samples list_of_acceptable_wells)) sample
              = Some well) as Hpair.
    { intros i sample well Hs Hw Hlast.
      apply (dict_get_foldl_last _ _ i).
      - by apply lookup_zip_Some.
      - intros j v' Hj Hz. apply lookup_zip_Some in Hz as [Hz _].
        by apply (Hlast j Hj). }
    split; [exact Hpair|]. split.
    + intros Hnd sample Hin. apply list_elem_of_lookup in Hin as [i Hi].
      destruct (lookup_lt_is_Some_2 list_of_acceptable_wells i) as [well Hw].
      { apply lookup_lt_Some in Hi. lia. }
      exists well. apply (Hpair i); [done..|].
      intros j Hj Hs. assert (i = j) by (by eapply NoDup_lookup). lia.
    + intros Hnds Hndw sample1 sample2 well H1 H2.
      apply dict_get_foldl_inv in H1 as [H1|?]; [|done].
      apply dict_get_foldl_inv in H2 as [H2|?]; [|done].
      apply list_elem_of_lookup in H1 as [i1 H1]. apply list_elem_of_lookup in H2 as [i2 H2].
      apply lookup_zip_Some in H1 as [Hs1 Hw1]. apply lookup_zip_Some in H2 as [Hs2 Hw2].
      assert (i1 = i2) as -> by (by eapply NoDup_lookup). congruence.
Qed.

(** Two samples on one well are refused; on three wells the second sample
    gets the second well. *)
Lemma create_default_samples_and_wells_pairs_witness :
  create_default_samples_and_wells ["a"; "b"] ["C3"] = Raise AssertionError
  ∧ ∃ samples_and_wells,
      create_default_samples_and_wells ["a"; "b"] ["C3"; "C5"; "C7"] = Ok samples_and_wells
      ∧ dict_get samples_and_wells "b" = Some "C5".
Proof.
  split.
  - apply (create_default_samples_and_wells_pairs ["a"; "b"] ["C3"]). simpl. lia.
  - destruct (create_default_samples_and_wells_pairs ["a"; "b"] ["C3"; "C5"; "C7"])
      as [_ Hok].
    destruct Hok as (d & Hd & Hpair & _); [simpl; lia|].
    exists d. split; [exact Hd|].
    apply (Hpair 1); [reflexivity|reflexivity|].
    intros [|[|[|j]]] Hj; simpl; [lia|lia|discriminate|discriminate].
Defined.

(** ** The plate frame *)

Lemma get_loc_Some labels k i :
  get_loc labels k = Some i → labels !! i = Some k.
Proof.
  revert i. induction labels as [|l labels IH]; intros i; simpl; [done|].
  case_decide as Hl; [by intros [= <-]; subst|].
  destruct (get_loc labels k) as [i'|]; simpl; [|done].
  intros [= <-]. by apply IH.
Qed.

Lemma get_loc_None labels k : get_loc labels k = None ↔ k ∉ labels.
Proof.
  induction labels as [|l labels IH]; simpl.
  - split; [intros _; by inv 1|done].
  - rewrite not_elem_of_cons. case_decide as Hl.
    + split; [done|]. intros [? _]. congruence.
    + destruct (get_loc labels k); simpl.
      * split; [done|]. intros [_ Hk]. by apply IH in Hk.
      * split; [|done]. intros _. split; [congruence|]. by apply IH.
Qed.

Lemma get_loc_is_Some labels k : k ∈ labels → is_Some (get_loc labels k).
Proof.
  intros Hk. destruct (get_loc labels k) eqn:Hg; [by eauto|].
  by apply get_loc_None in Hg.
Qed.

Lemma get_loc_app_l labels extra k i :
  get_loc labels k = Some i → get_loc (labels ++ extra) k = Some i.
Proof.
  revert i. induction labels as [|l labels IH]; intros i; simpl; [done|].
  case_decide; [done|].
  destruct (get_loc labels k) as [i'|]; simpl; [|done].
  intros [= <-]. by rewrite (IH i').
Qed.

Lemma get_loc_app_new labels k :
  get_loc labels k = None → get_loc (labels ++ [k]) k = Some (length labels).
Proof.
  induction labels as [|l labels IH]; simpl.
  - by rewrite decide_True.
  - case_decide; [done|]. destruct (get_loc labels k); simpl; [done|].
    intros _. by rewrite IH.
Qed.

Lemma get_loc_inj labels k k' i :
  get_loc labels k = Some i → get_loc labels k' = Some i → k = k'.
Proof. intros H1%get_loc_Some H2%get_loc_Some. congruence. Qed.

Lemma DataFrame_filled_ok v cols rows : frame_ok (DataFrame_filled v cols rows).
Proof.
  split; simpl; [by rewrite length_replicate|].
  apply Forall_replicate. by rewrite length_replicate.
Qed.

Lemma with_column_ok df c : frame_ok df → frame_ok (with_column df c).
Proof.
  intros [Hlen Hrows]. unfold with_column. destruct (get_loc _ c); [done|].
  split; simpl; [by rewrite length_fmap|].
  apply Forall_fmap. eapply Forall_impl; [exact Hrows|].
  intros row Hrow. simpl. rewrite !length_app, Hrow. done.
Qed.

Lemma with_row_ok df r : frame_ok df → frame_ok (with_row df r).
Proof.
  intros [Hlen Hrows]. unfold with_row. destruct (get_loc _ r); [done|].
  split; simpl; [rewrite !length_app, Hlen; done|].
  apply Forall_app. split; [done|]. apply Forall_singleton. by rewrite length_replicate.
Qed.

Lemma with_column_loc df c : is_Some (get_loc (columns (with_column df c)) c).
Proof.
  unfold with_column. destruct (get_loc (columns df) c) eqn:Hg; [by rewrite Hg|].
  simpl. rewrite get_loc_app_new; done.
Qed.

Lemma with_row_loc df r : is_Some (get_loc (index (with_row df r)) r).
Proof.
  unfold with_row. destruct (get_loc (index df) r) eqn:Hg; [by rewrite Hg|].
  simpl. rewrite get_loc_app_new; done.
Qed.

Lemma with_column_get df c r' c' x :
  at_get df r' c' = Some x → at_get (with_column df c) r' c' = Some x.
Proof.
  unfold with_column. destruct (get_loc (columns df) c); [done|].
  unfold at_get. simpl.
  destruct (get_loc (index df) r') as [i|]; simpl; [|done].
  destruct (get_loc (columns df) c') as [j|] eqn:Hj; simpl; [|done].
  rewrite (get_loc_app_l _ _ _ _ Hj). simpl. rewrite list_lookup_fmap.
  destruct (values df !! i) as [row|]; simpl; [|done].
  apply lookup_app_l_Some.
Qed.

Lemma with_row_get df r r' c' x :
  at_get df r' c' = Some x → at_get (with_row df r) r' c' = Some x.
Proof.
  unfold with_row. destruct (get_loc (index df) r); [done|].
  unfold at_get. simpl.
  destruct (get_loc (index df) r') as [i|] eqn:Hi; simpl; [|done].
  rewrite (get_loc_app_l _ _ _ _ Hi). simpl.
  destruct (get_loc (columns df) c') as [j|]; simpl; [|done].
  destruct (values df !! i) as [row|] eqn:Hrow; simpl; [|done].
  rewrite (lookup_app_l_Some _ _ _ _ Hrow). done.
Qed.

Lemma with_row_columns df r : columns (with_row df r) = columns df.
Proof. unfold with_row. by destruct (get_loc _ r). Qed.

Lemma with_column_index df c : index (with_column df c) = index df.
Proof. unfold with_column. by destruct (get_loc _ c). Qed.

Lemma with_column_same df c : c ∈ columns df → with_column df c = df.
Proof. intros [j Hj]%get_loc_is_Some. unfold with_column. by rewrite Hj. Qed.

Lemma with_row_same df r : r ∈ index df → with_row df r = df.
Proof. intros [i Hi]%get_loc_is_Some. unfold with_row. by rewrite Hi. Qed.

(** What [at_set] does, with the two positions made explicit. *)
Lemma at_set_unfold df r c v :
  ∃ i j, get_loc (index (with_row (with_column df c) r)) r = Some i
       ∧ get_loc (columns (with_row (with_column df c) r)) c = Some j
       ∧ at_set df r c v
         = {| index := index (with_row (with_column df c) r);
              columns := columns (with_row (with_column df c) r);
              values := alter (λ row, <[j := v]> row) i
                              (values (with_row (with_column df c) r)) |}.
Proof.
  destruct (with_row_loc (with_column df c) r) as [i Hi].
  destruct (with_column_loc df c) as [j Hj].
  exists i, j. unfold at_set. cbn zeta.
  rewrite with_row_columns in *. rewrite Hi, Hj. done.
Qed.

Lemma at_set_ok df r c v : frame_ok df → frame_ok (at_set df r c v).
Proof.
  intros Hok. destruct (at_set_unfold df r c v) as (i & j & _ & _ & ->).
  pose proof (with_row_ok _ r (with_column_ok _ c Hok)) as [Hlen Hrows].
  split; simpl; [by rewrite length_alter|].
  apply Forall_alter; [done|]. intros row _ Hrow. by rewrite length_insert.
Qed.

Lemma at_get_set_eq df r c v :
  frame_ok df → at_get (at_set df r c v) r c = Some v.
Proof.
  intros Hok. destruct (at_set_unfold df r c v) as (i & j & Hi & Hj & ->).
  pose proof (with_row_ok _ r (with_column_ok _ c Hok)) as [Hlen Hrows].
  unfold at_get. simpl. rewrite Hi, Hj. simpl.
  rewrite list_lookup_alter_eq.
  destruct (lookup_lt_is_Some_2 (values (with_row (with_column df c) r)) i) as [row Hrow].
  { rewrite Hlen. apply get_loc_Some, lookup_lt_Some in Hi. done. }
  rewrite Hrow. simpl. apply list_lookup_insert_eq.
  rewrite Forall_forall in Hrows. rewrite (Hrows row).
  - apply get_loc_Some, lookup_lt_Some in Hj. done.
  - by eapply list_elem_of_lookup_2.
Qed.

Lemma at_get_set_ne df r c v r' c' x :
  (r, c) ≠ (r', c') →
  at_get df r' c' = Some x → at_get (at_set df r c v) r' c' = Some x.
Proof.
  intros Hne Hget. destruct (at_set_unfold df r c v) as (i & j & Hi & Hj & ->).
  apply (with_column_get _ c), (with_row_get _ r) in Hget.
  revert Hget. unfold at_get. simpl.
  destruct (get_loc (index _) r') as [i'|] eqn:Hi'; simpl; [|done].
  destruct (get_loc (columns _) c') as [j'|] eqn:Hj'; simpl; [|done].
  destruct (decide (i = i')) as [<-|Hii].
  - rewrite list_lookup_alter_eq.
    destruct (values _ !! i) as [row|]; simpl; [|done].
    rewrite list_lookup_insert_ne; [done|]. intros <-. apply Hne.
    f_equal; eapply get_loc_inj; eauto.
  - by rewrite list_lookup_alter_ne.
Qed.

Lemma at_set_axes df r c v :
  r ∈ index df → c ∈ columns df →
  index (at_set df r c v) = index df ∧ columns (at_set df r c v) = columns df.
Proof.
  intros Hr Hc. destruct (at_set_unfold df r c v) as (i & j & _ & _ & ->). simpl.
  rewrite (with_column_same _ _ Hc), (with_row_same _ _ Hr). done.
Qed.

(** ** [sample_placement_384wp] *)

Lemma foldO_keys_entries (d l : dict string string) (df0 : DataFrame) :
  Forall (λ sw, dict_get d sw.1 = Some sw.2) l →
  foldO (λ df_wp384 i,
           location ← (if dict_get d i is Some w then Ok w else Raise KeyError);
           row ← first_char location;
           Ok (at_set df_wp384 row (tail_chars location) (CellStr i)))
        df0 (dict_keys l)
  = foldO place_sample df0 l.
Proof.
  intros Hall. revert df0. induction Hall as [|[s w] l Hsw _ IH]; intros df0; [done|].
  simpl in Hsw. unfold dict_keys in *. cbn [fmap list_fmap foldO fst].
  rewrite Hsw. unfold place_sample at 2. simpl.
  destruct (first_char w); simpl; [|done..]. apply IH.
Qed.

Lemma sample_placement_entries (d : dict string string) :
  NoDup (dict_keys d) →
  sample_placement_384wp d
  = foldO place_sample (DataFrame_filled (CellStr EmptyString) columns_1_24 rows_A_P) d.
Proof.
  intros Hnd. apply foldO_keys_entries.
  apply Forall_forall. intros [s w] Hin. by apply dict_get_entry.
Qed.

Lemma foldO_place_sample (l : list (string * string)) (df0 : DataFrame) :
  frame_ok df0 →
  Forall (λ sw, sw.2 ≠ EmptyString) l →
  ∃ df,
    foldO place_sample df0 l = Ok df
    ∧ frame_ok df
    ∧ (∀ i s c rest,
         l !! i = Some (s, String c rest) →
         (∀ j s', i < j → l !! j ≠ Some (s', String c rest)) →
         at_get df (String c EmptyString) rest = Some (CellStr s))
    ∧ (∀ r c x,
         at_get df0 r c = Some x →
         (∀ s a rest, (s, String a rest) ∈ l → (String a EmptyString, rest) ≠ (r, c)) →
         at_get df r c = Some x)
    ∧ (Forall (λ sw, ∀ a rest, sw.2 = String a rest →
                     String a EmptyString ∈ index df0 ∧ rest ∈ columns df0) l →
       index df = index df0 ∧ columns df = columns df0).
Proof.
  intros Hok Hne. revert df0 Hok.
  induction Hne as [|[s w] l Hw _ IH]; intros df0 Hok.
  { exists df0. split; [done|]. split; [done|]. repeat split; done. }
  simpl in Hw. destruct w as [|a rest]; [done|].
  set (df1 := at_set df0 (String a EmptyString) rest (CellStr s)).
  destruct (IH df1) as (df & Hrun & Hdf & Hplaced & Hkept & Haxes).
  { by apply at_set_ok. }
  exists df. split; [exact Hrun|]. split; [exact Hdf|]. split; [|split].
  - intros [|i] s0 c0 rest0 Hi Hlast.
    + simpl in Hi. injection Hi as -> -> ->.
      apply Hkept; [by apply at_get_set_eq|].
      intros s' a' rest' Hin [= -> ->].
      apply list_elem_of_lookup in Hin as [j Hj].
      apply (Hlast (S j) s'); [lia|done].
    + apply (Hplaced i); [done|]. intros j s' Hj. apply (Hlast (S j) s'). lia.
  - intros r c x Hget Hfree. apply Hkept.
    + apply at_get_set_ne; [|done]. apply (Hfree s). by left.
    + intros s' a' rest' Hin. apply (Hfree s'). by right.
  - intros Hin. apply Forall_cons in Hin as [Hhd Hin].
    destruct (Hhd a rest eq_refl) as [Hr Hc].
    destruct (at_set_axes df0 _ _ (CellStr s) Hr Hc) as [Hi1 Hc1].
    fold df1 in Hi1, Hc1. rewrite <-Hi1, <-Hc1. apply Haxes.
    rewrite Hi1, Hc1. done.
Qed.




(** C5. For the mapping [{"a":"C3","b":"D10"}] the grid has the 16 rows
    A-P and the 24 columns 1-24, ["a"] at row C column 3, ["b"] at row D
    column 10, and the empty string in the 382 other cells. *)
Theorem sample_placement_384wp_example :
  ∃ df_wp384,
    sample_placement_384wp [("a", "C3"); ("b", "D10")] = Ok df_wp384
    ∧ index df_wp384
      = ["A"; "B"; "C"; "D"; "E"; "F"; "G"; "H"; "I"; "J"; "K"; "L"; "M"; "N"; "O"; "P"]
    ∧ columns df_wp384
      = ["1"; "2"; "3"; "4"; "5"; "6"; "7"; "8"; "9"; "10"; "11"; "12"; "13"; "14";
         "15"; "16"; "17"; "18"; "19"; "20"; "21"; "22"; "23"; "24"]
    ∧ length (values df_wp384) = 16
    ∧ Forall (λ row, length row = 24) (values df_wp384)
    ∧ at_get df_wp384 "C" "3" = Some (CellStr "a")
    ∧ at_get df_wp384 "D" "10" = Some (CellStr "b")
    ∧ length (filter (λ x, x = CellStr EmptyString) (concat (values df_wp384))) = 382.
Proof.
  eexists. split; [reflexivity|]. vm_compute.
  repeat split. repeat constructor.
Qed.

(** An empty well label is the one label that makes the placement fail. *)
Lemma sample_placement_384wp_empty_label (sample : string) :
  sample_placement_384wp [(sample, EmptyString)] = Raise IndexError.
Proof. unfold sample_placement_384wp. cbn. by rewrite decide_True. Qed.

(** ** Runs *)

Lemma for_each_result {A} (l : list A) (body : A → run unit) :
  (∀ x, result (body x) = Ok tt) → result (for_each l body) = Ok tt.
Proof.
  intros Hbody. induction l as [|x l IH]; [done|].
  cbn [for_each]. by rewrite (run_bind_Ok _ _ tt (Hbody x)).
Qed.

Lemma for_each_trace {A} (l : list A) (body : A → run unit) :
  (∀ x, result (body x) = Ok tt) →
  trace (for_each l body) = l ≫= (λ x, trace (body x)).
Proof.
  intros Hbody. induction l as [|x l IH]; [done|].
  cbn [for_each]. rewrite (run_bind_Ok _ _ tt (Hbody x)). cbn [trace]. by rewrite IH.
Qed.

(** ** The well warnings of [load_and_QC_SamplesandWells] *)

(** The loop counts every unacceptable well, and writes a warning for
    those counted 1 to 9. *)
Lemma check_wells_counts (wells : list pyval) (warning_limit : nat) :
  result (check_wells wells warning_limit)
  = Ok (warning_limit + length (unacceptable wells))
  ∧ trace (check_wells wells warning_limit)
    = (λ well, Write (WellNotAcceptable well))
        <$> take (9 - warning_limit) (unacceptable wells).
Proof.
  revert warning_limit. unfold unacceptable.
  induction wells as [|well wells IH]; intros n.
  { cbn. split; [by rewrite Nat.add_0_r|by rewrite take_nil]. }
  cbn [check_wells]. rewrite filter_cons.
  destruct (decide (well ∉ PStr <$> create_list_of_acceptable_wells)) as [Hw|Hw].
  - rewrite (bool_decide_eq_true_2 _ Hw).
    destruct (IH (S n)) as [Hres Htr]. unfold when.
    destruct (S n <? 10) eqn:Hlt.
    + apply Nat.ltb_lt in Hlt.
      rewrite run_bind_emit. cbn [trace result]. rewrite Hres, Htr. split; [simpl; f_equal; lia|].
      replace (9 - n) with (S (9 - S n)) by lia. done.
    + apply Nat.ltb_ge in Hlt.
      rewrite run_bind_ret. rewrite Hres, Htr. split; [simpl; f_equal; lia|].
      replace (9 - n) with 0 by lia. replace (9 - S n) with 0 by lia.
      by rewrite !take_0.
  - rewrite (bool_decide_eq_false_2 _ Hw). apply IH.
Qed.

(** C4, the code at ten unacceptable wells: the tenth well gets no
    warning of its own; nine per-well warnings are written, then the
    summary.  With the mapping [{"a":"C3","b":"ZZ99"}] exactly one warning
    is written and the run completes. *)
Theorem load_and_QC_SamplesandWells_tenth_well :
  load_and_QC_SamplesandWells empty_table ("calib1", "calib2", "calib3") ten_bad_wells
  = Run [Write (WellNotAcceptable (PStr "A1")); Write (WellNotAcceptable (PStr "A2"));
         Write (WellNotAcceptable (PStr "A3")); Write (WellNotAcceptable (PStr "A4"));
         Write (WellNotAcceptable (PStr "A5")); Write (WellNotAcceptable (PStr "A6"));
         Write (WellNotAcceptable (PStr "A7")); Write (WellNotAcceptable (PStr "A8"));
         Write (WellNotAcceptable (PStr "A9"));
         Write TooManyWellWarnings; Success SamplesWellsQCDone] (Ok tt)
  ∧ load_and_QC_SamplesandWells empty_table ("calib1", "calib2", "calib3")
      (quoted "{`a`:`C3`,`b`:`ZZ99`}")
    = Run [Write (WellNotAcceptable (PStr "ZZ99")); Success SamplesWellsQCDone] (Ok tt).
Proof. split; vm_compute; reflexivity. Qed.

(** ** [load_and_QC_geojson_file] *)

Lemma true_divide_unit (n d : nat) :
  n ≤ d → 0 < d →
  ∃ q, true_divide n d = fin q
       ∧ (q == Z.of_nat n # Pos.of_nat d)%Q ∧ (0 <= q)%Q ∧ (q <= 1)%Q.
Proof.
  intros Hnd Hd. destruct d as [|d]; [lia|].
  exists (Z.of_nat n # Pos.of_nat (S d))%Q. split; [done|]. split; [reflexivity|].
  assert (Z.pos (Pos.of_nat (S d)) = Z.of_nat (S d)) as Hpos.
  { rewrite <-positive_nat_Z, Nat2Pos.id by done. done. }
  unfold Qle. cbn [Qnum Qden]. rewrite Hpos. lia.
Qed.

(** An event that differs from every element of an explicit list. *)
Ltac not_in_list :=
  match goal with
  | H : _ ∈ _ |- _ =>
      revert H; repeat (apply not_elem_of_cons; split; [discriminate|]);
      apply not_elem_of_nil
  end.

Section GeoFacts.
Context {float : Type}.
Variable intersects : @Geometry float → @Geometry float → bool.
Variable simplify : Z → @Geometry float → @Geometry float.
Implicit Types (df : @GeoDataFrame float) (r : @Feature float).

Lemma check_calibration_names_result df names :
  result (check_calibration_names df names) = Ok tt.
Proof.
  unfold check_calibration_names. apply for_each_result.
  intros p. unfold when. by case_bool_decide.
Qed.

Lemma check_calibration_names_trace df names :
  trace (check_calibration_names df names)
  = p ← names;
    if bool_decide (Some p ∉ name <$> rows df)
    then [Log ERROR (CalibNameAbsent p); Log ERROR (CalibNamesPassed names);
          Log ERROR (CalibNamesFound
                       (name <$> filter (λ r, geom_type (geometry r) = "Point") (rows df)))]
    else [].
Proof.
  unfold check_calibration_names. rewrite for_each_trace.
  - apply list_bind_ext; [|done]. intros p. unfold when. by case_bool_decide.
  - intros p. unfold when. by case_bool_decide.
Qed.

Lemma load_and_QC_geojson_file_calib_raise df names e :
  has_name df = true →
  mapO (calib_xy df) (names_list names) = Raise e →
  load_and_QC_geojson_file intersects simplify df names
  = Run (calibration_prelude df (names_list names)) (Raise e).
Proof.
  intros Hname Hcalib. unfold load_and_QC_geojson_file, calibration_prelude.
  rewrite Hname, Hcalib. do 4 run_step.
  rewrite (run_bind_Ok _ _ tt (check_calibration_names_result df _)).
  run_step. by rewrite app_nil_r.
Qed.

Lemma load_and_QC_geojson_file_calib_ok df names calib_np_array :
  has_name df = true →
  mapO (calib_xy df) (names_list names) = Ok calib_np_array →
  ∃ rest,
    trace (load_and_QC_geojson_file intersects simplify df names)
    = calibration_prelude df (names_list names)
      ++ [Log INFO (IntersectPercent (intersect_fraction intersects df calib_np_array));
          Write (IntersectPercent (intersect_fraction intersects df calib_np_array))]
      ++ rest.
Proof.
  intros Hname Hcalib. unfold load_and_QC_geojson_file, calibration_prelude.
  rewrite Hname, Hcalib. do 4 run_step.
  rewrite (run_bind_Ok _ _ tt (check_calibration_names_result df _)).
  do 3 run_step. eexists. cbn [app]. do 3 f_equal.
Qed.

Lemma calib_xy_absent df p :
  Some p ∉ name <$> rows df → calib_xy df p = Raise IndexError.
Proof.
  intros Hp. unfold calib_xy.
  destruct (filter (λ r, name r = Some p) (rows df)) as [|r l] eqn:Hf; [done|].
  exfalso. apply Hp. assert (r ∈ filter (λ r, name r = Some p) (rows df)) as Hr.
  { rewrite Hf. by left. }
  apply list_elem_of_filter in Hr as [<- Hr]. by apply list_elem_of_fmap_2.
Qed.

Lemma calib_xy_raises df p e :
  calib_xy df p = Raise e → e = IndexError ∨ e = AttributeError.
Proof.
  unfold calib_xy. destruct (filter _ _) as [|r l]; [intros [= <-]; by left|].
  destruct (geometry r); intros [= <-]; by right.
Qed.

Lemma mapO_calib_xy_absent df (names : list string) p :
  p ∈ names → Some p ∉ name <$> rows df →
  ∃ e, mapO (calib_xy df) names = Raise e ∧ (e = IndexError ∨ e = AttributeError).
Proof.
  intros Hin Hp. induction names as [|q names IH]; [by inv Hin|].
  cbn [mapO]. destruct (calib_xy df q) as [xy|e|] eqn:Hq.
  - apply elem_of_cons in Hin as [->|Hin].
    { by rewrite calib_xy_absent in Hq. }
    destruct (IH Hin) as (e & -> & He). by exists e.
  - exists e. split; [done|]. by eapply calib_xy_raises.
  - unfold calib_xy in Hq. destruct (filter _ _) as [|r l]; [done|].
    by destruct (geometry r).
Qed.

(** C1, as the code has it.  When one of the calibration names is not a
    feature name, the check logs, for that name, that it is absent, the
    names that were passed and the names of the points found, and does not
    stop the run; the run then ends with an exception where the
    calibration array is built ([IndexError] at the absent name, or
    [AttributeError] at an earlier name that is not a point).  Nothing
    follows the check: no intersect fraction is reported, no point is
    removed, the QC is not completed. *)
Theorem load_and_QC_geojson_file_absent_calibration_name df names p :
  has_name df = true →
  p ∈ names_list names →
  Some p ∉ name <$> rows df →
  let r := load_and_QC_geojson_file intersects simplify df names in
  (∃ e, result r = Raise e ∧ (e = IndexError ∨ e = AttributeError))
  ∧ trace r = calibration_prelude df (names_list names)
  ∧ Log ERROR (CalibNameAbsent p) ∈ trace r
  ∧ Log ERROR (CalibNamesPassed (names_list names)) ∈ trace r
  ∧ Log ERROR (CalibNamesFound
                 (name <$> filter (λ r, geom_type (geometry r) = "Point") (rows df)))
      ∈ trace r
  ∧ (∀ fraction, Write (IntersectPercent fraction) ∉ trace r)
  ∧ (Log INFO PointsRemoved ∉ trace r)
  ∧ (Success FileQCComplete ∉ trace r).
Proof.
  intros Hname Hin Hp r.
  destruct (mapO_calib_xy_absent df _ p Hin Hp) as (e & Hcalib & He).
  subst r. rewrite (load_and_QC_geojson_file_calib_raise df names e Hname Hcalib).
  cbn [trace result]. split; [by exists e|]. split; [done|].
  unfold calibration_prelude. rewrite check_calibration_names_trace.
  assert (∀ ev,
            ev ∈ [Log ERROR (CalibNameAbsent p);
                  Log ERROR (CalibNamesPassed (names_list names));
                  Log ERROR (CalibNamesFound
                     (name <$> filter (λ r, geom_type (geometry r) = "Point") (rows df)))] →
            ev ∈ (q ← names_list names;
                  if bool_decide (Some q ∉ name <$> rows df)
                  then [Log ERROR (CalibNameAbsent q);
                        Log ERROR (CalibNamesPassed (names_list names));
                        Log ERROR (CalibNamesFound
                          (name <$> filter (λ r, geom_type (geometry r) = "Point") (rows df)))]
                  else [])) as Hlogged.
  { intros ev Hev. apply list_elem_of_bind. exists p. split; [|done].
    by rewrite bool_decide_eq_true_2. }
  assert (∀ ev,
            ev ∈ (q ← names_list names;
                  if bool_decide (Some q ∉ name <$> rows df)
                  then [Log ERROR (CalibNameAbsent q);
                        Log ERROR (CalibNamesPassed (names_list names));
                        Log ERROR (CalibNamesFound
                          (name <$> filter (λ r, geom_type (geometry r) = "Point") (rows df)))]
                  else []) →
            ∃ m, ev = Log ERROR m) as Herrors.
  { intros ev (q & Hev & _)%list_elem_of_bind. case_bool_decide; [|by inv Hev].
    apply elem_of_cons in Hev as [->|Hev]; [by eexists|].
    apply elem_of_cons in Hev as [->|Hev]; [by eexists|].
    apply list_elem_of_singleton in Hev as ->. by eexists. }
  repeat split.
  - apply elem_of_app. right. apply Hlogged. by left.
  - apply elem_of_app. right. apply Hlogged. right. by left.
  - apply elem_of_app. right. apply Hlogged. right. right. by left.
  - intros fraction [Hev|Hev]%elem_of_app; [by not_in_list|].
    by destruct (Herrors _ Hev).
  - intros [Hev|Hev]%elem_of_app; [by not_in_list|].
    by destruct (Herrors _ Hev).
  - intros [Hev|Hev]%elem_of_app; [by not_in_list|].
    by destruct (Herrors _ Hev).
Qed.

Lemma polygon_intersects_triangle_true (g t : @Geometry float) :
  polygon_intersects_triangle intersects g t = true
  ↔ geom_type g ∈ ["Polygon"; "LineString"] ∧ intersects g t = true.
Proof.
  assert (∀ s : string, s ∈ ["Polygon"; "LineString"] ↔ s = "Polygon" ∨ s = "LineString")
    as Hkinds.
  { intros s. rewrite !elem_of_cons, elem_of_nil. tauto. }
  rewrite Hkinds.
  destruct g; cbn [polygon_intersects_triangle geom_type];
    (split; [intros Hi; first [discriminate|split; [tauto|exact Hi]]
            |intros [[Hk|Hk] Hi]; first [discriminate|exact Hi]]).
Qed.

Lemma intersects_column_hits df calib_np_array :
  length (filter (λ b, b = true) (intersects_column intersects df calib_np_array))
  = length (filter (λ r, geom_type (geometry r) ∈ ["Polygon"; "LineString"]
                         ∧ intersects (geometry r) (Polygon calib_np_array []) = true)
                   (rows df)).
Proof.
  unfold intersects_column. induction (rows df) as [|r l IH]; [done|].
  rewrite fmap_cons, !filter_cons.
  pose proof (polygon_intersects_triangle_true (geometry r) (Polygon calib_np_array []))
    as Hiff.
  destruct (decide (polygon_intersects_triangle intersects (geometry r)
                      (Polygon calib_np_array []) = true)) as [Hyes|Hno].
  - rewrite decide_True by (by apply Hiff). cbn [length]. by rewrite IH.
  - rewrite decide_False by (by rewrite <-Hiff). exact IH.
Qed.

Lemma filter_and_length {A} (P Q : A → Prop)
    `{∀ x, Decision (P x)} `{∀ x, Decision (Q x)} (l : list A) :
  length (filter (λ x, P x ∧ Q x) l) ≤ length (filter P l).
Proof.
  induction l as [|x l IH]; [done|].
  rewrite !filter_cons.
  destruct (decide (P x)) as [HP|HP].
  - destruct (decide (P x ∧ Q x)); cbn [length]; lia.
  - rewrite decide_False by tauto. exact IH.
Qed.

(** C2, as the code has it.  The fraction that is reported is the number
    of Polygon or LineString features that intersect the calibration
    triangle divided by the number of Polygon or LineString features;
    features of other kinds count on neither side.  When there is at
    least one Polygon or LineString feature it is a number between 0 and
    1. *)
Theorem intersect_fraction_counts df names calib_np_array :
  has_name df = true →
  mapO (calib_xy df) (names_list names) = Ok calib_np_array →
  let hits :=
    length (filter (λ r, geom_type (geometry r) ∈ ["Polygon"; "LineString"]
                         ∧ intersects (geometry r) (Polygon calib_np_array []) = true)
                   (rows df)) in
  let total :=
    length (filter (λ r, geom_type (geometry r) ∈ ["Polygon"; "LineString"]) (rows df)) in
  Write (IntersectPercent (true_divide hits total))
    ∈ trace (load_and_QC_geojson_file intersects simplify df names)
  ∧ intersect_fraction intersects df calib_np_array = true_divide hits total
  ∧ hits ≤ total
  ∧ (0 < total →
     ∃ q, true_divide hits total = fin q
          ∧ (q == Z.of_nat hits # Pos.of_nat total)%Q
          ∧ in_unit_interval (fin q)).
Proof.
  intros Hname Hcalib hits total.
  assert (intersect_fraction intersects df calib_np_array = true_divide hits total)
    as Hfrac.
  { unfold intersect_fraction. by rewrite intersects_column_hits. }
  assert (hits ≤ total) as Hle by apply filter_and_length.
  split; [|split; [done|split; [done|]]].
  - destruct (load_and_QC_geojson_file_calib_ok df names _ Hname Hcalib) as [rest ->].
    rewrite Hfrac. apply elem_of_app. right. right. by left.
  - intros Hpos. destruct (true_divide_unit hits total Hle Hpos) as (q & Hq & Heq & Hb).
    exists q. done.
Qed.

End GeoFacts.

(** C1, counterexample.  The third calibration name is not in the file:
    the check logs its three error lines and the run ends with
    [IndexError] before any fraction is computed. *)
Lemma load_and_QC_geojson_file_aborts :
  load_and_QC_geojson_file (λ _ _, true) (λ _ g, g) with_square
    ("calib1", "calib2", "calibX")
  = Run [Log INFO (Loaded 4);
         Log INFO (Geometries [("Point", 3); ("Polygon", 1)]);
         Write (Geometries [("Point", 3); ("Polygon", 1)]);
         Log ERROR (CalibNameAbsent "calibX");
         Log ERROR (CalibNamesPassed ["calib1"; "calib2"; "calibX"]);
         Log ERROR (CalibNamesFound [Some "calib1"; Some "calib2"; Some "calib3"])]
        (Raise IndexError).
Proof. vm_compute. reflexivity. Qed.

(** The table with three calibration points and a square, asked for a
    calibration point it does not have. *)
Lemma load_and_QC_geojson_file_absent_calibration_name_witness :
  ∃ e, result (load_and_QC_geojson_file (λ _ _, true) (λ _ g, g) with_square
                 ("calib1", "calib2", "calibX")) = Raise e
       ∧ (e = IndexError ∨ e = AttributeError).
Proof.
  apply (load_and_QC_geojson_file_absent_calibration_name
           (λ _ _, true) (λ _ g, g) with_square ("calib1", "calib2", "calibX") "calibX").
  - reflexivity.
  - right. right. left.
  - cbn. intros Hin.
    repeat (apply elem_of_cons in Hin as [Hin|Hin]; [discriminate|]).
    by apply elem_of_nil in Hin.
Defined.

(** C2, counterexample.  A file that holds the three calibration points
    and nothing else: zero is divided by zero, and the fraction that is
    reported is not a number. *)
Lemma intersect_fraction_without_polygons :
  num_of_polygons_and_LineString only_points = 0
  ∧ load_and_QC_geojson_file (λ _ _, true) (λ _ g, g) only_points
      ("calib1", "calib2", "calib3")
    = Run [Log INFO (Loaded 3); Log INFO (Geometries [("Point", 3)]);
           Write (Geometries [("Point", 3)]);
           Log INFO (IntersectPercent nan); Write (IntersectPercent nan);
           Log INFO PointsRemoved; Success FileQCComplete]
          (Ok tt)
  ∧ ¬ in_unit_interval nan.
Proof. split; [reflexivity|]. split; [vm_compute; reflexivity|]. intros []. Qed.

(** The table with three calibration points and a square: the fraction is
    a number between 0 and 1. *)
Lemma intersect_fraction_counts_witness :
  in_unit_interval
    (intersect_fraction (λ _ _, true) with_square [(0, 0); (10, 0); (0, 10)]%Z).
Proof.
  destruct (intersect_fraction_counts (λ _ _, true) (λ _ g, g) with_square
              ("calib1", "calib2", "calib3") [(0, 0); (10, 0); (0, 10)]%Z
              eq_refl eq_refl) as (_ & -> & _ & Hunit).
  destruct Hunit as (q & -> & _ & Hq); [vm_compute; lia|]. exact Hq.
Defined.

(** ** [QC_geojson_file] *)

Lemma mapO_Ok_inv {A B} (f : A → outcome B) (l : list A) (l' : list B) :
  mapO f l = Ok l' → Forall2 (λ x y, f x = Ok y) l l'.
Proof.
  revert l'. induction l as [|x l IH]; intros l'; cbn [mapO].
  - intros [= <-]. constructor.
  - destruct (f x) as [y| |] eqn:Hx; [|done..]. cbn.
    destruct (mapO f l) as [ys| |]; [|done..]. cbn. intros [= <-].
    constructor; [done|]. by apply IH.
Qed.

Lemma filter_all {A} (P : A → Prop) `{∀ x, Decision (P x)} (l : list A) :
  Forall P l → filter P l = l.
Proof.
  induction 1 as [|x l Hx _ IH]; [done|].
  rewrite filter_cons, decide_True by done. by rewrite IH.
Qed.

Section Cleaning.
Context {float : Type}.
Implicit Types (df : @GeoDataFrame float) (r : @Feature float).

Lemma QC_geojson_file_result df :
  result (QC_geojson_file df)
  = (_ ← need_column (has_classification df);
     rows4 ← derive_classification_name
               (filter (λ r, geom_type (geometry r) ≠ "MultiPolygon")
                  (filter (λ r, notna r)
                     (filter (λ r, negb (is_Point (geometry r))) (rows df))));
     Ok (with_rows df rows4)).
Proof.
  unfold QC_geojson_file. do 2 run_step.
  destruct (need_column (has_classification df)) as [[]| |]; [|done..].
  run_step. cbn [mbind outcome_bind].
  destruct (derive_classification_name _) as [rows4| |]; [|done..].
  by run_step.
Qed.

Lemma derive_classification_name_again (l l' : list (@Feature float)) :
  derive_classification_name l = Ok l' →
  derive_classification_name l' = Ok l'
  ∧ Forall2 (λ r r', geometry r' = geometry r ∧ classification r' = classification r) l l'.
Proof.
  intros Hl%mapO_Ok_inv. split.
  - unfold derive_classification_name. rewrite (mapO_fmap _ id); [by rewrite list_fmap_id|].
    apply Forall_forall. intros r' Hr'.
    apply list_elem_of_lookup in Hr' as [i Hi].
    destruct (Forall2_lookup_r _ _ _ _ _ Hl Hi) as (r & _ & Hr).
    destruct (classification_name_of (default PNone (classification r))) as [v| |] eqn:Hv;
      [|cbn in Hr; discriminate Hr..].
    cbn in Hr. injection Hr as <-. cbn. rewrite Hv. reflexivity.
  - eapply Forall2_impl; [exact Hl|]. intros r r' Hr. cbn beta in Hr.
    destruct (classification_name_of (default PNone (classification r))) as [v| |];
      [|cbn in Hr; discriminate Hr..].
    cbn in Hr. by injection Hr as <-.
Qed.

(** C7. Cleaning is idempotent: when [QC_geojson_file] returns a table,
    running it on that table returns the same table, so no further
    feature is dropped and the class names are the same. *)
Theorem QC_geojson_file_idempotent df cleaned :
  result (QC_geojson_file df) = Ok cleaned →
  result (QC_geojson_file cleaned) = Ok cleaned
  ∧ Forall retained (rows cleaned)
  ∧ Forall (λ r, is_Some (classification_name r)) (rows cleaned).
Proof.
  rewrite !QC_geojson_file_result. intros Hclean.
  destruct (has_classification df) eqn:Hcol; [|done]. cbn in Hclean.
  destruct (derive_classification_name _) as [rows4| |] eqn:Hderive; [|done..].
  cbn in Hclean. injection Hclean as <-. cbn [with_rows has_classification rows].
  rewrite Hcol. cbn [need_column mbind outcome_bind].
  destruct (derive_classification_name_again _ _ Hderive) as [Hagain Hsame].
  assert (Forall retained rows4) as Hret.
  { apply Forall_forall. intros r' Hr'.
    apply list_elem_of_lookup in Hr' as [i Hi].
    destruct (Forall2_lookup_r _ _ _ _ _ Hsame Hi) as (r & Hr & Hg & Hc).
    apply list_elem_of_lookup_2 in Hr.
    apply list_elem_of_filter in Hr as [Hmulti Hr].
    apply list_elem_of_filter in Hr as [Hna Hr].
    apply list_elem_of_filter in Hr as [Hpoint _].
    unfold retained, notna in *. by rewrite Hg, Hc. }
  split; [|split; [done|]].
  - rewrite (filter_all (λ r, negb (is_Point (geometry r)))),
      (filter_all (λ r, notna r)),
      (filter_all (λ r, geom_type (geometry r) ≠ "MultiPolygon")).
    + by rewrite Hagain.
    + eapply Forall_impl; [exact Hret|]. by intros r (_ & _ & ?).
    + eapply Forall_impl; [exact Hret|]. by intros r (_ & ? & _).
    + eapply Forall_impl; [exact Hret|]. by intros r (? & _ & _).
  - apply mapO_Ok_inv in Hderive. apply Forall_forall. intros r' Hr'.
    apply list_elem_of_lookup in Hr' as [i Hi].
    destruct (Forall2_lookup_r _ _ _ _ _ Hderive Hi) as (r & _ & Hr). cbn beta in Hr.
    destruct (classification_name_of (default PNone (classification r))) as [v| |];
      [|cbn in Hr; discriminate Hr..].
    cbn in Hr. injection Hr as <-. by eexists.
Qed.

End Cleaning.

(** The table with three calibration points and a square: the cleaner
    keeps the square, and keeps it again. *)
Lemma QC_geojson_file_idempotent_witness :
  ∃ cleaned,
    result (QC_geojson_file with_square) = Ok cleaned
    ∧ result (QC_geojson_file cleaned) = Ok cleaned
    ∧ length (rows cleaned) = 1.
Proof.
  eexists. split; [vm_compute; reflexivity|]. split; [|reflexivity].
  apply (QC_geojson_file_idempotent with_square). vm_compute. reflexivity.
Defined.

(** ** [check_ids] and the metadata join *)

Lemma elem_of_unique {A} `{EqDecision A} (l : list A) (x : A) :
  x ∈ unique l ↔ x ∈ l.
Proof.
  unfold unique.
  assert (∀ seen, x ∈ foldl (λ seen y, if decide (y ∈ seen) then seen else seen ++ [y])
                             seen l ↔ x ∈ seen ∨ x ∈ l) as Hgen.
  { induction l as [|y l IH]; intros seen; cbn [foldl].
    - rewrite elem_of_nil. tauto.
    - rewrite IH, elem_of_cons. case_decide as Hy.
      + split; [intros [?|?]; auto|intros [?|[->|?]]; auto].
      + rewrite elem_of_app, list_elem_of_singleton. tauto. }
  rewrite Hgen, elem_of_nil. tauto.
Qed.

Lemma get_column_set (metadata : MetadataTable) key c key' :
  get_column (dict_set metadata key c) key'
  = if decide (key = key') then Ok c else get_column metadata key'.
Proof. unfold get_column. rewrite dict_get_set. by case_decide. Qed.

Section Join.
Context {float : Type}.
Implicit Types (shapes : @GeoDataFrame float).

Lemma check_ids_run shapes (metadata : MetadataTable) key col :
  get_column metadata key = Ok col →
  need_hashable (shape_names shapes) = Ok tt →
  let metadata' := dict_set metadata key (StrCol (Some <$> (strip <$> astype_str col))) in
  (shape_names shapes ⊆ metadata_names col →
   check_ids shapes metadata key
   = Run [Log INFO AllNamesFound; Write AllNamesFound] (Ok (true, metadata')))
  ∧ (¬ shape_names shapes ⊆ metadata_names col →
     check_ids shapes metadata key
     = Run [Log ERROR (NamesNotFound
              (filter (λ n, n ∉ PStr <$> unique (strip <$> astype_str col))
                      (unique (shape_names shapes))));
            Log ERROR (OverlappingNames
              (filter (λ n, n ∈ PStr <$> unique (strip <$> astype_str col))
                      (unique (shape_names shapes))))]
           (Ok (false, metadata'))).
Proof.
  intros Hcol Hhash metadata'. unfold check_ids. rewrite Hcol. run_step.
  fold (shape_names shapes). rewrite Hhash. run_step.
  assert (unique (shape_names shapes) ⊆ PStr <$> unique (strip <$> astype_str col)
          ↔ shape_names shapes ⊆ metadata_names col) as Hsub.
  { unfold metadata_names. split; intros Hs n Hn.
    - apply (proj2 (elem_of_unique _ _)), Hs in Hn.
      apply list_elem_of_fmap in Hn as (s & -> & Hn).
      apply list_elem_of_fmap_2. by apply elem_of_unique.
    - apply (proj1 (elem_of_unique _ _)), Hs in Hn.
      apply list_elem_of_fmap in Hn as (s & -> & Hn).
      apply list_elem_of_fmap_2. by apply elem_of_unique. }
  split; intros Hs.
  - rewrite bool_decide_eq_true_2 by (by apply Hsub). by do 2 run_step.
  - rewrite bool_decide_eq_false_2 by (by rewrite Hsub). by do 2 run_step.
Qed.

Lemma join_after_check_false shapes key varkey metadata :
  join_after_check shapes key varkey (false, metadata) = Run [] (Raise AssertionError).
Proof. done. Qed.

Lemma join_after_check_true shapes key varkey (metadata : dict string column) :
  trace (join_after_check shapes key varkey (true, metadata)) = []
  ∧ result (join_after_check shapes key varkey (true, metadata))
    = (names ← get_column metadata key;
       variable ← get_column metadata varkey;
       Ok ((λ r, (r, dict_get (dict_of_pairs (zip (column_cells names)
                                                  (column_cells variable)))
                              (default PNone (classification_name r))))
             <$> rows shapes)).
Proof.
  unfold join_after_check. cbn [fst snd py_assert]. run_step.
  destruct (get_column metadata key) as [names| |]; [|done..]. run_step.
  destruct (get_column metadata varkey) as [variable| |]; [|done..]. by run_step.
Qed.

Lemma process_geojson_with_metadata_steps
    (geojson : @GeoDataFrame float) (metadata : MetadataTable) key varkey shapes
    (tr : list event) (checked : bool * MetadataTable) :
  result (QC_geojson_file geojson) = Ok shapes →
  check_ids shapes metadata key = Run tr (Ok checked) →
  process_geojson_with_metadata geojson (Some metadata) key varkey
  = Run (trace (QC_geojson_file geojson) ++ tr
         ++ trace (join_after_check shapes key varkey checked))
        (result (join_after_check shapes key varkey checked)).
Proof.
  intros Hqc Hcheck. unfold process_geojson_with_metadata.
  rewrite (run_bind_Ok _ _ shapes Hqc). cbn [parse_metadata_csv].
  rewrite run_bind_ret, Hcheck. reflexivity.
Qed.

Lemma join_complete (names : list string) (values : list pyval) (n : pyval) :
  length values = length names → n ∈ PStr <$> names →
  is_Some (dict_get (dict_of_pairs (zip (PStr <$> names) values)) n).
Proof.
  intros Hlen Hn. apply dict_get_foldl_is_Some.
  rewrite fst_zip; [done|]. rewrite length_fmap. lia.
Qed.

(** C6. Once the shapes are cleaned and the table is read, the join fails
    with the assertion on unmatched names exactly when some class name of
    the shapes is not among the stripped names of the table's name column.
    In that case two error lines name the class names that are missing
    from the table and those that are in it.  When every class name is in
    the table, the join is made: every shape gets the value of a row of
    the table. *)
Theorem process_geojson_with_metadata_names
    (geojson : @GeoDataFrame float) (metadata : MetadataTable)
    (metadata_name_key metadata_variable_key : string) shapes col :
  result (QC_geojson_file geojson) = Ok shapes →
  get_column metadata metadata_name_key = Ok col →
  need_hashable (shape_names shapes) = Ok tt →
  let r := process_geojson_with_metadata geojson (Some metadata)
             metadata_name_key metadata_variable_key in
  (result r = Raise AssertionError ↔ ¬ shape_names shapes ⊆ metadata_names col)
  ∧ (¬ shape_names shapes ⊆ metadata_names col →
     ∃ unmatched overlapping,
       Log ERROR (NamesNotFound unmatched) ∈ trace r
       ∧ Log ERROR (OverlappingNames overlapping) ∈ trace r
       ∧ (∀ n, n ∈ unmatched ↔ n ∈ shape_names shapes ∧ n ∉ metadata_names col)
       ∧ (∀ n, n ∈ overlapping ↔ n ∈ shape_names shapes ∧ n ∈ metadata_names col))
  ∧ (shape_names shapes ⊆ metadata_names col →
     ∀ variable,
       get_column metadata metadata_variable_key = Ok variable →
       length (column_cells variable) = length (astype_str col) →
       ∃ joined,
         result r = Ok joined
         ∧ joined.*1 = rows shapes
         ∧ Forall (λ rv, is_Some rv.2) joined).
Proof.
  intros Hqc Hcol Hhash r.
  destruct (check_ids_run shapes metadata metadata_name_key col Hcol Hhash)
    as [Hyes Hno].
  assert (∀ n, n ∈ PStr <$> unique (strip <$> astype_str col) ↔ n ∈ metadata_names col)
    as Hmeta.
  { intros n. unfold metadata_names. rewrite !list_elem_of_fmap.
    split; intros (s & -> & Hs); exists s; split; try done; by apply elem_of_unique. }
  set (stripped := StrCol (Some <$> (strip <$> astype_str col))) in *.
  assert (column_cells stripped = PStr <$> (strip <$> astype_str col)) as Hcells.
  { subst stripped. cbn [column_cells]. by rewrite <-list_fmap_compose. }
  destruct (decide (shape_names shapes ⊆ metadata_names col)) as [Hsub|Hsub].
  - (* every class name is in the table *)
    pose proof (process_geojson_with_metadata_steps geojson metadata metadata_name_key
                  metadata_variable_key shapes _ _ Hqc (Hyes Hsub)) as Hr.
    fold r in Hr.
    match type of Hr with
    | context [join_after_check ?a ?b ?c (_, ?d)] =>
        destruct (join_after_check_true a b c d) as [Htr Hres]
    end.
    rewrite Htr, Hres, !get_column_set in Hr.
    destruct (decide (metadata_name_key = metadata_name_key)); [|done].
    cbn [mbind outcome_bind] in Hr.
    split; [|split; [done|]].
    + split; [|done]. rewrite Hr. cbn [result].
      case_decide; [by cbn|]. unfold get_column.
      destruct (dict_get metadata metadata_variable_key); by cbn.
    + intros _ variable Hvar Hlen. rewrite Hr. cbn [result]. clear Hr.
      assert (∀ values : list pyval,
                length values = length (strip <$> astype_str col) →
                Forall (λ rv : @Feature float * option pyval, is_Some rv.2)
                  ((λ r, (r, dict_get (dict_of_pairs (zip (column_cells stripped) values))
                                      (default PNone (classification_name r))))
                     <$> rows shapes)) as Hjoin.
      { intros values Hvalues. apply Forall_fmap, Forall_forall. intros f Hf. cbn [snd compose].
        rewrite Hcells. apply join_complete; [done|]. apply Hsub.
        by apply (list_elem_of_fmap_2 (λ r, default PNone (classification_name r))). }
      case_decide.
      * eexists. split; [reflexivity|]. split.
        { rewrite <-list_fmap_compose. apply list_fmap_id. }
        apply Hjoin. by rewrite Hcells, length_fmap.
      * rewrite Hvar. cbn [mbind outcome_bind]. eexists. split; [reflexivity|]. split.
        { rewrite <-list_fmap_compose. apply list_fmap_id. }
        apply Hjoin. by rewrite length_fmap.
  - (* some class name is not in the table *)
    pose proof (process_geojson_with_metadata_steps geojson metadata metadata_name_key
                  metadata_variable_key shapes _ _ Hqc (Hno Hsub)) as Hr.
    fold r in Hr. rewrite join_after_check_false in Hr. rewrite Hr. cbn [trace result].
    split; [done|]. split; [|done]. intros _.
    eexists _, _. split; [|split; [|split]].
    + apply elem_of_app. right. by left.
    + apply elem_of_app. right. right. by left.
    + intros n. rewrite list_elem_of_filter, elem_of_unique, Hmeta. tauto.
    + intros n. rewrite list_elem_of_filter, elem_of_unique, Hmeta. tauto.
Qed.

End Join.

(** The square of class [tumor] and a table that lists [ tumor ] and
    [stroma]: the names match once stripped and the shape gets its status. *)
Lemma process_geojson_with_metadata_names_witness :
  ∃ joined,
    result (process_geojson_with_metadata with_square (Some two_names)
              "Class name" "status") = Ok joined
    ∧ Forall (λ rv, is_Some rv.2) joined.
Proof.
  destruct (process_geojson_with_metadata_names with_square two_names
              "Class name" "status"
              (with_rows with_square
                 [set_classification_name
                    (square "{'name': 'tumor', 'color': [200, 0, 0]}") (PStr "tumor")])
              (StrCol [Some " tumor "; Some "stroma"]))
    as (_ & _ & Hjoin).
  - vm_compute. reflexivity.
  - reflexivity.
  - reflexivity.
  - destruct (Hjoin) with (variable := StrCol [Some "collected"; None])
      as (joined & Hres & _ & Hall).
    + vm_compute. intros n Hn. apply list_elem_of_singleton in Hn as ->. by left.
    + reflexivity.
    + reflexivity.
    + by exists joined.
Defined.

(** ** The mapping text *)

Lemma all_strings_list P l : all_strings P (PList l) ↔ Forall (all_strings P) l.
Proof.
  induction l as [|x l IH]; cbn.
  - split; [constructor|done].
  - rewrite Forall_cons. cbn in IH. by rewrite IH.
Qed.

Lemma all_strings_dict P d :
  all_strings P (PDict d) ↔ Forall (λ kv, all_strings P kv.1 ∧ all_strings P kv.2) d.
Proof.
  induction d as [|kv d IH]; cbn.
  - split; [constructor|done].
  - rewrite Forall_cons. cbn in IH. by rewrite IH.
Qed.

Lemma chars_all_append P s1 s2 :
  chars_all P s1 → chars_all P s2 → chars_all P (s1 +:+ s2).
Proof.
  unfold chars_all. intros H1 H2. induction s1 as [|c s1 IH]; [done|].
  cbn in *. apply Forall_cons in H1 as [Hc H1]. constructor; [done|]. by apply IH.
Qed.

Lemma chars_all_of_list P (l : list ascii) :
  Forall P l → chars_all P (string_of_list_ascii l).
Proof. unfold chars_all. by rewrite list_ascii_of_string_of_list_ascii. Qed.

Lemma dict_set_Forall {K V} `{EqDecision K} (Q : K → Prop) (R : V → Prop)
    (d : dict K V) k v :
  Forall (λ kv, Q kv.1 ∧ R kv.2) d → Q k → R v →
  Forall (λ kv, Q kv.1 ∧ R kv.2) (dict_set d k v).
Proof.
  intros Hd Hk Hv. induction Hd as [|[k0 v0] d [Hk0 Hv0] Hd IH]; cbn in *.
  - by repeat constructor.
  - case_decide; (constructor; [by split|]); [exact Hd|exact IH].
Qed.

Lemma dict_of_pairs_Forall {K V} `{EqDecision K} (Q : K → Prop) (R : V → Prop)
    (l : list (K * V)) :
  Forall (λ kv, Q kv.1 ∧ R kv.2) l → Forall (λ kv, Q kv.1 ∧ R kv.2) (dict_of_pairs l).
Proof.
  unfold dict_of_pairs. intros Hl.
  induction l as [|[k v] l IH] using rev_ind; [constructor|].
  apply Forall_app in Hl as [Hl [[Hk Hv] _]%Forall_cons].
  rewrite foldl_app. cbn. apply dict_set_Forall; auto.
Qed.

Section Parser.
(** A property of characters that the backslash does not have: in a
    text of such characters no escape sequence is read. *)
Variable P : ascii → Prop.
Hypothesis P_backslash : ¬ P backslash.

Lemma skip_blank_chars s : Forall P s → Forall P (skip_blank s).
Proof.
  induction 1 as [|c s Hc Hs IH]; cbn; [constructor|].
  destruct (is_blank c); [done|]. by constructor.
Qed.

Lemma skip_ws_chars s : Forall P s → Forall P (skip_ws s).
Proof.
  induction 1 as [|c s Hc Hs IH]; cbn; [constructor|].
  destruct (is_ws c); [done|]. by constructor.
Qed.

Lemma skip_chars level s : Forall P s → Forall P (skip level s).
Proof. destruct level; [apply skip_blank_chars|apply skip_ws_chars]. Qed.

Lemma lstrip_space_tab_chars s : Forall P s → Forall P (lstrip_space_tab s).
Proof.
  induction 1 as [|c s Hc Hs IH]; cbn; [constructor|].
  destruct (_ || _); [done|]. by constructor.
Qed.

Lemma first_token_chars indented s start :
  Forall P s → first_token indented s = Ok start → Forall P start.
Proof.
  intros Hs. revert indented. induction Hs as [|c s Hc Hs IH]; intros indented; [done|].
  cbn [first_token]. destruct (_ || _); [apply IH|].
  destruct (_ || _); [apply IH|]. destruct indented; [done|].
  intros [= <-]. by constructor.
Qed.

Lemma scan_string_chars triple q s body rest :
  Forall P s → scan_string triple q s = Ok (body, rest) → Forall P body ∧ Forall P rest.
Proof.
  intros Hs. revert body rest. induction Hs as [|c s Hc Hs IH]; intros body rest; [done|].
  assert (cons_char c (scan_string triple q s) = Ok (body, rest) →
          Forall P body ∧ Forall P rest) as Hcons.
  { unfold cons_char. destruct (scan_string triple q s) as [[b r]| |]; [|done..].
    cbn. intros [= <- <-]. destruct (IH b r eq_refl). split; [by constructor|done]. }
  cbn [scan_string]. destruct (Ascii.eqb c q).
  { destruct triple; [|by intros [= <- <-]].
    destruct Hs as [|c2 s' Hc2 Hs']; [done|]. destruct Hs' as [|c3 s'' Hc3 Hs'']; [done|].
    destruct (_ && _); [by intros [= <- <-]|]. exact Hcons. }
  destruct (Ascii.eqb c newline); [by destruct triple|].
  destruct (Ascii.eqb_spec c backslash) as [->|_]; [done|]. exact Hcons.
Qed.

Lemma string_literal_chars q s body rest :
  Forall P s → string_literal q s = Ok (body, rest) → Forall P body ∧ Forall P rest.
Proof.
  intros Hs. unfold string_literal.
  destruct s as [|c2 [|c3 s']]; try by apply scan_string_chars.
  destruct (_ && _); [|by apply scan_string_chars].
  apply scan_string_chars. apply Forall_cons in Hs as [_ Hs]. by apply Forall_cons in Hs as [_ Hs].
Qed.

Lemma scan_digits_rest s : Forall P s → Forall P (scan_digits s).2.
Proof.
  induction 1 as [|c s Hc Hs IH]; cbn; [constructor|].
  destruct (is_digit c); cbn; [done|by constructor].
Qed.

Lemma scan_ident_rest s : Forall P s → Forall P (scan_ident s).2.
Proof.
  induction 1 as [|c s Hc Hs IH]; cbn; [constructor|].
  destruct (is_ident c); cbn; [done|by constructor].
Qed.

Lemma scan_int_rest s z rest : Forall P s → scan_int s = Ok (z, rest) → Forall P rest.
Proof.
  intros Hs. unfold scan_int. pose proof (scan_digits_rest s Hs) as Hrest.
  destruct (scan_digits s) as [ds r]. cbn in Hrest.
  destruct (_ && _); [|done]. by intros [= _ <-].
Qed.

Lemma parse_chars fuel :
  (∀ level s v rest, Forall P s → parse_value level fuel s = Ok (v, rest) →
                     all_strings (chars_all P) v ∧ Forall P rest)
  ∧ (∀ level s vs rest, Forall P s → parse_items level fuel s = Ok (vs, rest) →
                        Forall (all_strings (chars_all P)) vs ∧ Forall P rest)
  ∧ (∀ level s es rest, Forall P s → parse_entries level fuel s = Ok (es, rest) →
                        Forall (λ kv, all_strings (chars_all P) kv.1
                                      ∧ all_strings (chars_all P) kv.2) es
                        ∧ Forall P rest).
Proof.
  induction fuel as [|n (IHv & IHi & IHe)]; [by repeat split|].
  split; [|split].
  - intros level s v rest Hs. cbn [parse_value].
    pose proof (skip_chars level s Hs) as Hws.
    destruct (skip level s) as [|c r]; [done|].
    apply Forall_cons in Hws as [Hc Hr].
    destruct (Ascii.eqb c dquote || Ascii.eqb c squote).
    { destruct (string_literal c r) as [[body r1]| |] eqn:Hscan; [|done..].
      destruct (string_literal_chars _ _ _ _ Hr Hscan) as [Hbody Hr1].
      cbn [mbind outcome_bind fst snd].
      assert (all_strings (chars_all P) (PStr (string_of_list_ascii body))) as Hone
        by (by apply chars_all_of_list).
      destruct (skip level r1) as [|c' r2]; [by intros [= <- <-]|].
      destruct (Ascii.eqb c' dquote || Ascii.eqb c' squote); [|by intros [= <- <-]].
      destruct (parse_value level n r1) as [[v2 r3]| |] eqn:Hnext; [|done..].
      destruct (IHv _ _ _ _ Hr1 Hnext) as [Hv2 Hr3]. cbn [mbind outcome_bind fst snd].
      destruct v2; try done. intros [= <- <-]. split; [|done].
      by apply chars_all_append. }
    destruct (Ascii.eqb c "[").
    { destruct (200 <=? level); [done|].
      destruct (parse_items (S level) n r) as [[vs r1]| |] eqn:Hitems; [|done..].
      destruct (IHi _ _ _ _ Hr Hitems) as [Hvs Hr1]. cbn. intros [= <- <-].
      split; [by apply all_strings_list|done]. }
    destruct (Ascii.eqb c "{").
    { destruct (200 <=? level); [done|].
      destruct (parse_entries (S level) n r) as [[es r1]| |] eqn:Hentries; [|done..].
      destruct (IHe _ _ _ _ Hr Hentries) as [Hes Hr1]. cbn [mbind outcome_bind fst snd].
      unfold build_dict. destruct (forallb _ es); [|done]. cbn. intros [= <- <-].
      split; [|done]. apply all_strings_dict. by apply dict_of_pairs_Forall. }
    destruct (Ascii.eqb c "-").
    { destruct (scan_int (skip level r)) as [[z r1]| |] eqn:Hint; [|done..].
      cbn. intros [= <- <-]. split; [done|].
      eapply scan_int_rest; [|exact Hint]. by apply skip_chars. }
    destruct (Ascii.eqb c "+").
    { destruct (scan_int (skip level r)) as [[z r1]| |] eqn:Hint; [|done..].
      cbn. intros [= <- <-]. split; [done|].
      eapply scan_int_rest; [|exact Hint]. by apply skip_chars. }
    destruct (is_digit c).
    { destruct (scan_int (c :: r)) as [[z r1]| |] eqn:Hint; [|done..].
      cbn. intros [= <- <-]. split; [done|].
      eapply scan_int_rest; [|exact Hint]. by constructor. }
    destruct (is_ident c); [|done].
    pose proof (scan_ident_rest (c :: r) (Forall_cons_2 _ _ _ Hc Hr)) as Hrest.
    cbn zeta. destruct (decide _); [|done]. by intros [= <- <-].
  - intros level s vs rest Hs. cbn [parse_items].
    assert (∀ o : outcome (list pyval * list ascii),
              (p ← parse_value level n s;
               match skip_ws p.2 with
               | ","%char :: rest => q ← parse_items level n rest; Ok (p.1 :: q.1, q.2)
               | "]"%char :: rest => Ok ([p.1], rest)
               | _ => Raise SyntaxError
               end) = o →
              o = Ok (vs, rest) →
              Forall (all_strings (chars_all P)) vs ∧ Forall P rest) as Hmore.
    { intros o <-. destruct (parse_value level n s) as [[v r1]| |] eqn:Hv; [|done..].
      destruct (IHv _ _ _ _ Hs Hv) as [Hval Hr1]. cbn [mbind outcome_bind fst snd].
      pose proof (skip_ws_chars r1 Hr1) as Hws.
      destruct (skip_ws r1) as [|c r2]; [done|].
      apply Forall_cons in Hws as [_ Hr2].
      destruct (Ascii.eqb_spec c ",") as [->|Hcomma].
      { destruct (parse_items level n r2) as [[vs' r3]| |] eqn:Hrec; [|done..].
        destruct (IHi _ _ _ _ Hr2 Hrec). cbn. intros [= <- <-]. split; [by constructor|done]. }
      destruct (Ascii.eqb_spec c "]") as [->|Hclose].
      { intros [= <- <-]. split; [by repeat constructor|done]. }
      destruct c as [[] [] [] [] [] [] [] []]; done. }
    pose proof (skip_ws_chars s Hs) as Hws.
    destruct (skip_ws s) as [|c r] eqn:Hskip; [by eapply Hmore|].
    apply Forall_cons in Hws as [_ Hr].
    destruct (Ascii.eqb_spec c "]") as [->|Hclose].
    { intros [= <- <-]. split; [constructor|done]. }
    destruct c as [[] [] [] [] [] [] [] []]; try done; by eapply Hmore.
  - intros level s es rest Hs. cbn [parse_entries].
    assert (∀ o : outcome (list (pyval * pyval) * list ascii),
              (k ← parse_value level n s;
               match skip_ws k.2 with
               | ":"%char :: rest =>
                   v ← parse_value level n rest;
                   match skip_ws v.2 with
                   | ","%char :: rest' =>
                       q ← parse_entries level n rest'; Ok ((k.1, v.1) :: q.1, q.2)
                   | "}"%char :: rest' => Ok ([(k.1, v.1)], rest')
                   | _ => Raise SyntaxError
                   end
               | _ => Raise SyntaxError
               end) = o →
              o = Ok (es, rest) →
              Forall (λ kv, all_strings (chars_all P) kv.1
                            ∧ all_strings (chars_all P) kv.2) es
              ∧ Forall P rest) as Hmore.
    { intros o <-. destruct (parse_value level n s) as [[k r1]| |] eqn:Hk; [|done..].
      destruct (IHv _ _ _ _ Hs Hk) as [Hkey Hr1]. cbn [mbind outcome_bind fst snd].
      pose proof (skip_ws_chars r1 Hr1) as Hws.
      destruct (skip_ws r1) as [|c r2]; [done|].
      apply Forall_cons in Hws as [_ Hr2].
      destruct (Ascii.eqb_spec c ":") as [->|Hcolon];
        [|destruct c as [[] [] [] [] [] [] [] []]; done].
      destruct (parse_value level n r2) as [[v r3]| |] eqn:Hv; [|done..].
      destruct (IHv _ _ _ _ Hr2 Hv) as [Hval Hr3]. cbn [mbind outcome_bind fst snd].
      pose proof (skip_ws_chars r3 Hr3) as Hws.
      destruct (skip_ws r3) as [|c r4]; [done|].
      apply Forall_cons in Hws as [_ Hr4].
      destruct (Ascii.eqb_spec c ",") as [->|Hcomma].
      { destruct (parse_entries level n r4) as [[es' r5]| |] eqn:Hrec; [|done..].
        destruct (IHe _ _ _ _ Hr4 Hrec). cbn. intros [= <- <-]. split; [by constructor|done]. }
      destruct (Ascii.eqb_spec c "}") as [->|Hclose].
      { intros [= <- <-]. split; [by repeat constructor|done]. }
      destruct c as [[] [] [] [] [] [] [] []]; done. }
    pose proof (skip_ws_chars s Hs) as Hws.
    destruct (skip_ws s) as [|c r] eqn:Hskip; [by eapply Hmore|].
    apply Forall_cons in Hws as [_ Hr].
    destruct (Ascii.eqb_spec c "}") as [->|Hclose].
    { intros [= <- <-]. split; [constructor|done]. }
    destruct c as [[] [] [] [] [] [] [] []]; try done; by eapply Hmore.
Qed.

(** The characters of the strings of a parsed text are characters of
    the text, as it is read with its line ends made uniform. *)
Lemma literal_eval_chars text v :
  Forall P (universal_newlines (list_ascii_of_string text)) →
  literal_eval text = Ok v → all_strings (chars_all P) v.
Proof.
  intros Htext. unfold literal_eval. cbn zeta.
  destruct (bool_decide _); [done|].
  assert (Forall P (universal_newlines (lstrip_space_tab (list_ascii_of_string text))))
    as Hs.
  { revert Htext. generalize (list_ascii_of_string text). intros l.
    induction l as [|c l IH]; [done|]. cbn [lstrip_space_tab].
    destruct (Ascii.eqb_spec c space) as [->|Hsp]; cbn [orb].
    - cbn [universal_newlines Ascii.eqb]. cbn. intros [_ Hl]%Forall_cons. by apply IH.
    - destruct (Ascii.eqb_spec c tab) as [->|Htab]; [|done].
      cbn. intros [_ Hl]%Forall_cons. by apply IH. }
  destruct (first_token false _) as [start| |] eqn:Hstart; [|done..].
  pose proof (first_token_chars _ _ _ Hs Hstart) as Hst.
  cbn [mbind outcome_bind].
  destruct (parse_value _ _ _) as [[v' rest]| |] eqn:Hparse; [|done..].
  destruct (proj1 (parse_chars _) _ _ _ _ Hst Hparse) as [Hv _].
  cbn [mbind outcome_bind fst snd]. destruct (skip_blank rest); [by intros [= <-]|].
  destruct (_ && _); [|done]. by intros [= <-].
Qed.

End Parser.

Lemma universal_newlines_chars (P : ascii → Prop) (s : list ascii) :
  P newline → Forall P s → Forall P (universal_newlines s).
Proof.
  intros Hnl. remember (length s) as n eqn:Hn. revert s Hn.
  induction n as [n IH] using lt_wf_ind. intros s Hn.
  destruct s as [|c s]; [done|]. intros [Hc Hs]%Forall_cons.
  cbn [universal_newlines]. cbn [length] in Hn. destruct (Ascii.eqb c carriage_return).
  - constructor; [done|]. destruct Hs as [|c' s' Hc' Hs']; [done|].
    cbn [length] in Hn.
    destruct (Ascii.eqb c' newline).
    + apply (IH (length s')); [lia|done|done].
    + apply (IH (length (c' :: s'))); [cbn; lia|done|by constructor].
  - constructor; [done|]. apply (IH (length s)); [lia|done|done].
Qed.

Lemma universal_newlines_fixed (s : list ascii) :
  carriage_return ∉ s → universal_newlines s = s.
Proof.
  induction s as [|c s IH]; [done|]. intros [Hc Hs]%not_elem_of_cons.
  cbn [universal_newlines]. destruct (Ascii.eqb_spec c carriage_return) as [->|_]; [done|].
  by rewrite IH.
Qed.

Lemma replace_empty_chars (old : ascii) (s : string) :
  list_ascii_of_string (replace old EmptyString s)
  = filter (λ c, c ≠ old) (list_ascii_of_string s).
Proof.
  induction s as [|c s IH]; [done|]. cbn [replace list_ascii_of_string].
  rewrite filter_cons. destruct (Ascii.eqb_spec c old) as [->|Hne].
  - rewrite decide_False by (by intros []). exact IH.
  - rewrite decide_True by done. cbn. by rewrite IH.
Qed.

Lemma replace_empty_absent (old : ascii) (s : string) :
  old ∉ list_ascii_of_string s → replace old EmptyString s = s.
Proof.
  induction s as [|c s IH]; [done|]. cbn [replace list_ascii_of_string].
  intros [Hc Hs]%not_elem_of_cons.
  destruct (Ascii.eqb_spec c old) as [->|_]; [done|]. cbn. by rewrite IH.
Qed.

Lemma samples_and_wells_processed_chars (text : string) (c : ascii) :
  c ∈ list_ascii_of_string (samples_and_wells_processed text)
  ↔ c ∈ list_ascii_of_string text ∧ c ≠ space ∧ c ≠ newline.
Proof.
  unfold samples_and_wells_processed.
  rewrite !replace_empty_chars, !list_elem_of_filter. tauto.
Qed.

Lemma samples_and_wells_processed_idemp (text : string) :
  samples_and_wells_processed (samples_and_wells_processed text)
  = samples_and_wells_processed text.
Proof.
  unfold samples_and_wells_processed at 1.
  rewrite (replace_empty_absent newline).
  - apply replace_empty_absent. intros Hin%samples_and_wells_processed_chars. tauto.
  - intros Hin%samples_and_wells_processed_chars. tauto.
Qed.

Section MappingText.
Context {float : Type}.
Variable simplify : Z → @Geometry float → @Geometry float.


End MappingText.



(* ================================================================== *)
(** * Further properties *)
(* ================================================================== *)

(** ** Text inputs *)

Lemma split_nonempty (sep : ascii) (s : string) : split sep s ≠ [].
Proof.
  destruct s as [|c s]; cbn; [done|].
  destruct (Ascii.eqb c sep); [done|]. by destruct (split sep s).
Qed.

Lemma characters_characters_ok (s : list ascii) : characters_ok (characters s).
Proof.
  induction s as [|b s [IHc IHo]]; [by split; constructor|].
  cbn [characters]. destruct (characters s) as [|[|b' w] l].
  - split; [|by constructor]. constructor; [by constructor|done].
  - by apply Forall_cons in IHc as [[] _].
  - apply Forall_cons in IHc as [Hw Hl]. cbn in Hw, IHo.
    destruct (is_cont b') eqn:Hb'.
    + split; [|done]. constructor; [|done]. cbn. by constructor.
    + split.
      * constructor; [by constructor|]. by constructor.
      * cbn. by constructor.
Qed.

Lemma characters_app (b : ascii) (t s : list ascii) (l : list (list ascii)) :
  Forall (λ b, is_cont b = true) t → characters s = l → Forall opens l →
  characters (b :: t ++ s) = (b :: t) :: l.
Proof.
  intros Ht Hs Hl. revert b. induction Ht as [|c t Hc _ IH]; intros b.
  - cbn [app characters]. rewrite Hs. destruct Hl as [|[|b' w] l Hb' _]; [done|done|].
    cbn in Hb'. by rewrite Hb'.
  - cbn [app]. change (characters (b :: ?r)) with
      (match characters r with
       | (b' :: w) :: l => if is_cont b' then (b :: b' :: w) :: l else [b] :: (b' :: w) :: l
       | l => [b] :: l
       end).
    by rewrite (IH c), Hc.
Qed.

Lemma characters_concat (l : list (list ascii)) :
  Forall character l → Forall opens l → characters (concat l) = l.
Proof.
  induction 1 as [|c l Hc _ IH]; [done|]. intros [_ Hl]%Forall_cons.
  destruct c as [|b t]; [done|]. cbn [concat app].
  apply characters_app; [done|by apply IH|done].
Qed.

Lemma concat_characters (s : list ascii) : concat (characters s) = s.
Proof.
  induction s as [|b s IH]; [done|]. cbn [characters].
  destruct (characters s) as [|[|b' w] l]; cbn in *; [by rewrite <-IH|by rewrite <-IH|].
  destruct (is_cont b'); cbn; by rewrite <-IH.
Qed.

Lemma lstrip_suffix (l : list (list ascii)) : lstrip l `suffix_of` l.
Proof.
  induction l as [|c l IH]; [done|]. cbn. destruct (isspace c); [|done].
  by apply suffix_cons_r.
Qed.

Lemma rstrip_prefix (l : list (list ascii)) : rstrip l `prefix_of` l.
Proof.
  induction l as [|c l IH]; [done|]. cbn. destruct (rstrip l) as [|d r].
  - destruct (isspace c); [apply prefix_nil|]. apply prefix_cons, prefix_nil.
  - by apply prefix_cons.
Qed.

Lemma lstrip_head (l : list (list ascii)) (c : list ascii) :
  head (lstrip l) = Some c → isspace c = false.
Proof.
  induction l as [|d l IH]; cbn; [done|].
  destruct (isspace d) eqn:Hd; [done|]. cbn. by intros [= <-].
Qed.

Lemma rstrip_last (l : list (list ascii)) (c : list ascii) :
  last (rstrip l) = Some c → isspace c = false.
Proof.
  induction l as [|d l IH]; cbn; [done|].
  destruct (rstrip l) as [|e r] eqn:Hr.
  - destruct (isspace d) eqn:Hd; cbn; [done|]. by intros [= <-].
  - rewrite last_cons. destruct (last (e :: r)) as [x|] eqn:Hlast.
    + intros [= <-]. by apply IH.
    + rewrite last_cons in Hlast. by destruct (last r).
Qed.

Lemma rstrip_head (l : list (list ascii)) (c : list ascii) :
  head l = Some c → isspace c = false → head (rstrip l) = Some c.
Proof.
  destruct l as [|d l]; cbn; [done|]. intros [= ->] Hc.
  destruct (rstrip l); [by rewrite Hc|done].
Qed.

Lemma lstrip_fixed (l : list (list ascii)) :
  (∀ c, head l = Some c → isspace c = false) → lstrip l = l.
Proof.
  destruct l as [|d l]; cbn; [done|]. intros Hd. by rewrite (Hd d eq_refl).
Qed.

Lemma rstrip_fixed (l : list (list ascii)) :
  (∀ c, last l = Some c → isspace c = false) → rstrip l = l.
Proof.
  induction l as [|d l IH]; cbn; [done|]. intros Hlast.
  destruct l as [|e l].
  - cbn. by rewrite (Hlast d eq_refl).
  - rewrite IH; [done|]. intros c Hc. apply Hlast. by rewrite last_cons, Hc.
Qed.

Lemma strip_chars_head (l : list (list ascii)) (c : list ascii) :
  head (rstrip (lstrip l)) = Some c → isspace c = false.
Proof.
  intros Hc. destruct (head (lstrip l)) as [d|] eqn:Hd.
  - pose proof (lstrip_head _ _ Hd) as Hsp.
    rewrite (rstrip_head _ _ Hd Hsp) in Hc. by injection Hc as <-.
  - destruct (lstrip l); [done|discriminate].
Qed.

(** The characters of a stripped text are the characters of the text
    without the white space at its ends. *)
Lemma characters_strip (s : string) :
  characters (list_ascii_of_string (strip s))
  = rstrip (lstrip (characters (list_ascii_of_string s))).
Proof.
  unfold strip. rewrite list_ascii_of_string_of_list_ascii.
  destruct (characters_characters_ok (list_ascii_of_string s)) as [Hc Ho].
  set (l := characters (list_ascii_of_string s)) in *.
  destruct (rstrip_prefix (lstrip l)) as [k2 H2].
  destruct (lstrip_suffix l) as [k1 H1].
  assert (Forall character (rstrip (lstrip l))) as Hc'.
  { rewrite H1, H2 in Hc. apply Forall_app in Hc as [_ Hc]. by apply Forall_app in Hc as [Hc _]. }
  destruct (rstrip (lstrip l)) as [|c m] eqn:Hm; [done|].
  apply Forall_cons in Hc' as [Hc0 Hcm].
  destruct c as [|b t]; [done|]. cbn [concat app].
  assert (Forall opens m) as Hom.
  { rewrite H1, H2 in Ho. destruct k1 as [|c1 k1]; cbn in Ho.
    - by apply Forall_app in Ho as [Ho _].
    - apply Forall_app in Ho as [_ Ho]. apply Forall_cons in Ho as [_ Ho].
      by apply Forall_app in Ho as [Ho _]. }
  apply characters_app; [done| |done]. by apply characters_concat.
Qed.

Lemma strip_idemp (s : string) : strip (strip s) = strip s.
Proof.
  unfold strip at 1. rewrite characters_strip.
  rewrite (lstrip_fixed (rstrip _)) by apply strip_chars_head.
  rewrite rstrip_fixed by apply rstrip_last. done.
Qed.

(** A stripped text has no white space at either end: neither its first
    nor its last character is white space. *)
Lemma strip_ends (s : string) :
  (∀ c, head (characters (list_ascii_of_string (strip s))) = Some c → isspace c = false)
  ∧ (∀ c, last (characters (list_ascii_of_string (strip s))) = Some c → isspace c = false).
Proof.
  rewrite characters_strip. split; [apply strip_chars_head|apply rstrip_last].
Qed.

Lemma strip_bytes (s : string) (b : ascii) :
  b ∈ list_ascii_of_string (strip s) → b ∈ list_ascii_of_string s.
Proof.
  unfold strip. rewrite list_ascii_of_string_of_list_ascii.
  rewrite <-(concat_characters (list_ascii_of_string s)) at 2.
  set (l := characters (list_ascii_of_string s)).
  destruct (rstrip_prefix (lstrip l)) as [k2 H2].
  destruct (lstrip_suffix l) as [k1 H1].
  intros Hb. rewrite H1, H2, !concat_app, !elem_of_app. auto.
Qed.

Lemma split_chars (sep : ascii) (s piece : string) (c : ascii) :
  piece ∈ split sep s → c ∈ list_ascii_of_string piece →
  c ∈ list_ascii_of_string s ∧ c ≠ sep.
Proof.
  revert piece. induction s as [|d s IH]; intros piece; cbn.
  - intros ->%list_elem_of_singleton. by inv 1.
  - destruct (Ascii.eqb_spec d sep) as [->|Hd].
    + intros [->|Hin]%elem_of_cons; [by inv 1|].
      intros Hc. destruct (IH _ Hin Hc). split; [by right|done].
    + destruct (split sep s) as [|p ps] eqn:Hs.
      * intros ->%list_elem_of_singleton ->%list_elem_of_singleton. split; [by left|done].
      * intros [->|Hin]%elem_of_cons.
        -- cbn. intros [->|Hc]%elem_of_cons; [split; [by left|done]|].
           destruct (IH p) as [? ?]; [by left|done|]. split; [by right|done].
        -- intros Hc. destruct (IH piece) as [? ?]; [by right|done|].
           split; [by right|done].
Qed.

(** Splitting a text at a separator loses nothing: the pieces joined
    with the separator give the text back, and no piece contains the
    separator. *)
Lemma split_join (sep : ascii) (s : string) :
  join (String sep EmptyString) (split sep s) = s
  ∧ Forall (λ piece, sep ∉ list_ascii_of_string piece) (split sep s).
Proof.
  split.
  - induction s as [|c s IH]; [done|]. cbn [split].
    pose proof (split_nonempty sep s) as Hne.
    destruct (Ascii.eqb_spec c sep) as [->|Hc].
    + cbn [join]. destruct (split sep s) as [|p ps]; [done|]. cbn in *. by rewrite IH.
    + destruct (split sep s) as [|p ps]; [done|].
      destruct ps as [|q ps]; cbn in *; by rewrite <-IH.
  - apply Forall_forall. intros piece Hin Hsep.
    by destruct (split_chars sep s piece sep Hin Hsep).
Qed.

(** X1. The categories read from a text input are never empty, contain
    no comma, and neither start nor end with white space, in the sense
    of [str.isspace()]: the first and the last character of a category
    are no white space, be it ASCII or not (a no-break space, an
    ideographic space).  Stripping a category again changes nothing. *)
Theorem categoricals_clean (input : string) :
  Forall (λ i, i ≠ EmptyString
               ∧ (","%char ∉ list_ascii_of_string i)
               ∧ (∀ c, head (characters (list_ascii_of_string i)) = Some c →
                       isspace c = false)
               ∧ (∀ c, last (characters (list_ascii_of_string i)) = Some c →
                       isspace c = false)
               ∧ strip i = i)
         (categoricals input).
Proof.
  apply Forall_forall. intros i [Hne Hin]%list_elem_of_filter.
  apply list_elem_of_fmap in Hin as (piece & -> & Hpiece).
  destruct (strip_ends piece) as [Hhead Hlast].
  split; [done|]. split; [|split; [|split]].
  - intros Hc. apply strip_bytes in Hc.
    by destruct (split_chars _ _ _ _ Hpiece Hc).
  - exact Hhead.
  - exact Hlast.
  - apply strip_idemp.
Qed.

(** ** Output file names *)

Lemma append_nil (s : string) : EmptyString +:+ s = s.
Proof. reflexivity. Qed.

Lemma append_cons (c : ascii) (a s : string) : String c a +:+ s = String c (a +:+ s).
Proof. reflexivity. Qed.

Lemma prefix_app (old b : string) : String.prefix old (old +:+ b) = true.
Proof.
  induction old as [|c old IH]; [by destruct b|].
  rewrite append_cons. simpl. destruct (ascii_dec c c); [exact IH|done].
Qed.

Lemma prefix_split (old s : string) :
  String.prefix old s = true → ∃ b, s = old +:+ b.
Proof.
  revert s. induction old as [|c old IH]; intros s; simpl.
  - intros _. by exists s.
  - destruct s as [|d s]; [done|]. simpl.
    destruct (ascii_dec c d) as [->|]; [|done].
    intros (b & ->)%IH. by exists b.
Qed.

Lemma occurs_from_0 (old s : string) : occurs old s ↔ occurs_from old 0 s.
Proof.
  split.
  - intros (a & b & ->). exists a, b. split; [done|lia].
  - intros (a & b & -> & _). by exists a, b.
Qed.

Lemma occurs_from_cons (old : string) (skip : nat) (c : ascii) (s : string) :
  occurs_from old skip (String c s) →
  (skip = 0 ∧ String.prefix old (String c s) = true)
  ∨ occurs_from old (pred skip) s.
Proof.
  intros (a & b & Hs & Hskip). destruct a as [|d a].
  - left. rewrite append_nil in Hs. simpl in Hskip. split; [lia|].
    rewrite Hs. apply prefix_app.
  - right. rewrite append_cons in Hs. simpl in Hskip. injection Hs as -> ->. exists a, b. split; [done|lia].
Qed.

Lemma str_replace_from_absent (old new s : string) :
  ¬ occurs old s → str_replace_from old new 0 s = s.
Proof.
  induction s as [|c s IH]; [done|]. intros Hno. cbn [str_replace_from].
  destruct (String.prefix old (String c s)) eqn:Hp.
  - exfalso. apply Hno. apply prefix_split in Hp as (b & ->). by exists EmptyString, b.
  - rewrite IH; [done|]. intros (a & b & ->). apply Hno. by exists (String c a), b.
Qed.

Lemma length_append (s1 s2 : string) :
  String.length (s1 +:+ s2) = String.length s1 + String.length s2.
Proof.
  induction s1 as [|c s1 IH]; [done|]. rewrite append_cons. simpl. by rewrite IH.
Qed.

(** A longer replacement gives a longer text, strictly so when something
    is replaced. *)
Lemma str_replace_from_length (old new1 new2 : string) (skip : nat) (s : string) :
  old ≠ EmptyString →
  String.length new1 < String.length new2 →
  String.length (str_replace_from old new1 skip s)
  ≤ String.length (str_replace_from old new2 skip s)
  ∧ (occurs_from old skip s →
     String.length (str_replace_from old new1 skip s)
     < String.length (str_replace_from old new2 skip s)).
Proof.
  intros Hold Hnew. revert skip. induction s as [|c s IH]; intros skip.
  - split; [done|]. intros (a & b & Hs & _).
    destruct a; [|done]. by destruct old.
  - cbn [str_replace_from]. destruct skip as [|k].
    + destruct (String.prefix old (String c s)) eqn:Hp.
      * destruct (IH (String.length old - 1)) as [Hle _].
        rewrite !length_append. split; [lia|intros _; lia].
      * destruct (IH 0) as [Hle Hlt]. cbn. split; [lia|].
        intros [[_ Hp']|Hocc]%occurs_from_cons; [congruence|].
        specialize (Hlt Hocc). lia.
    + destruct (IH k) as [Hle Hlt]. split; [done|].
      intros [[? _]|Hocc]%occurs_from_cons; [done|]. by apply Hlt.
Qed.

(** On a one-character pattern the general replacement is the one the
    mapping text is cleaned with. *)
Lemma str_replace_one_char (old : ascii) (new s : string) :
  str_replace (String old EmptyString) new s = replace old new s.
Proof.
  unfold str_replace. induction s as [|c s IH]; [done|].
  cbn [str_replace_from replace String.prefix String.length Nat.sub].
  destruct (ascii_dec old c) as [->|Hne].
  - rewrite Ascii.eqb_refl. destruct s; cbn [String.prefix]; by rewrite IH.
  - destruct (Ascii.eqb_spec c old) as [->|_]; [done|]. by rewrite IH.
Qed.

(** X2. The XML file and the plate CSV get the same file name exactly when
    the name of the uploaded file does not contain [geojson]: both names
    are then the uploaded name itself, and the plate CSV, written last,
    replaces the XML file. *)
Theorem output_names_collide (name : string) :
  (xml_name name = wellplate_name name ↔ ¬ occurs "geojson" name)
  ∧ (¬ occurs "geojson" name →
     xml_name name = "./" +:+ name ∧ wellplate_name name = "./" +:+ name).
Proof.
  assert (¬ occurs "geojson" name →
          xml_name name = "./" +:+ name ∧ wellplate_name name = "./" +:+ name) as Hsame.
  { intros Hno. unfold xml_name, wellplate_name, str_replace.
    by rewrite !str_replace_from_absent. }
  split; [|exact Hsame]. split.
  - intros Heq Hocc. apply occurs_from_0 in Hocc.
    destruct (str_replace_from_length "geojson" "xml" "_384_wellplate.csv" 0 name)
      as [_ Hlt]; [done|cbn; lia|].
    specialize (Hlt Hocc). unfold xml_name, wellplate_name, str_replace in Heq.
    apply (f_equal String.length) in Heq. rewrite !length_append in Heq. lia.
  - intros Hno. destruct (Hsame Hno) as [-> ->]. done.
Qed.

Lemma output_names_collide_witness :
  xml_name "shapes.json" = "./shapes.json"
  ∧ wellplate_name "shapes.json" = "./shapes.json".
Proof.
  apply (output_names_collide "shapes.json").
  intros (a & b & Hab).
  repeat (destruct a as [|? a];
          [rewrite append_nil in Hab; discriminate Hab
          |rewrite append_cons in Hab; injection Hab as _ Hab]).
  destruct a; discriminate Hab.
Defined.

Lemma append_empty_r (s : string) : s +:+ EmptyString = s.
Proof. induction s as [|c s IH]; [done|]. rewrite append_cons. by rewrite IH. Qed.

Lemma str_replace_from_skipped (old new : string) (skip : nat) (s : string) :
  String.length s ≤ skip → str_replace_from old new skip s = EmptyString.
Proof.
  revert skip. induction s as [|c s IH]; intros skip Hlen; [done|].
  destruct skip as [|skip]; [simpl in Hlen; lia|].
  cbn [str_replace_from]. apply IH. simpl in Hlen. lia.
Qed.

Lemma str_replace_from_suffix (old new stem : string) :
  old ≠ EmptyString →
  (∀ a b, stem +:+ old = a +:+ old +:+ b → String.length a = String.length stem) →
  str_replace_from old new 0 (stem +:+ old) = stem +:+ new.
Proof.
  intros Hold. induction stem as [|c stem IH]; intros Honly.
  - rewrite !append_nil. destruct old as [|c old]; [done|].
    cbn [str_replace_from]. rewrite <-(append_empty_r (String c old)) at 2.
    rewrite prefix_app. rewrite str_replace_from_skipped; [by rewrite append_empty_r|].
    simpl. lia.
  - rewrite !append_cons. cbn [str_replace_from].
    destruct (String.prefix old (String c (stem +:+ old))) eqn:Hp.
    + apply prefix_split in Hp as (b & Hb).
      specialize (Honly EmptyString b). rewrite append_cons, append_nil in Honly.
      specialize (Honly Hb). done.
    + f_equal. apply IH. intros a b Hab.
      specialize (Honly (String c a) b). rewrite !append_cons in Honly.
      rewrite Hab in Honly. specialize (Honly eq_refl). simpl in Honly. lia.
Qed.

(** X3. A file name that ends in [geojson], with no other occurrence of
    that text: the XML file is called after it with [xml] in the place of
    [geojson], the plate CSV with [_384_wellplate.csv] (what precedes
    [geojson], a dot included, is kept), and the labelled shapes with the
    name of the colouring column and [_labelled_shapes.geojson]. *)
Theorem output_names_extension (stem metadata_variable_key : string) :
  (∀ a b, stem +:+ "geojson" = a +:+ "geojson" +:+ b →
          String.length a = String.length stem) →
  xml_name (stem +:+ "geojson") = "./" +:+ stem +:+ "xml"
  ∧ wellplate_name (stem +:+ "geojson") = "./" +:+ stem +:+ "_384_wellplate.csv"
  ∧ labelled_name (stem +:+ "geojson") metadata_variable_key
    = "./" +:+ stem +:+ metadata_variable_key +:+ "_labelled_shapes.geojson".
Proof.
  intros Honly. unfold xml_name, wellplate_name, labelled_name, str_replace.
  by rewrite !str_replace_from_suffix.
Qed.

Lemma output_names_extension_witness :
  xml_name "shapes.geojson" = "./shapes.xml"
  ∧ wellplate_name "shapes.geojson" = "./shapes._384_wellplate.csv"
  ∧ labelled_name "shapes.geojson" "status" = "./shapes.status_labelled_shapes.geojson".
Proof.
  apply (output_names_extension "shapes." "status").
  intros a b Hab.
  repeat (destruct a as [|? a];
          [rewrite append_nil in Hab; first [discriminate Hab | reflexivity]
          |rewrite append_cons in Hab; injection Hab as _ Hab]).
  destruct a; discriminate Hab.
Defined.

(** ** Class colours *)

Lemma java_color_bounds (rgb : Z) :
  (0 <= rgb < 2 ^ 24)%Z →
  (java_color rgb = rgb - 2 ^ 24
   ∧ - 2 ^ 31 <= java_color rgb < 0
   ∧ java_color rgb mod 2 ^ 32 = 255 * 2 ^ 24 + rgb)%Z.
Proof.
  intros Hrgb. unfold java_color. change 0x1000000%Z with (2 ^ 24)%Z.
  split; [lia|]. split; [lia|].
  symmetry. apply (Z.mod_unique_pos _ _ (-1)); lia.
Qed.

(** X4. For every 24-bit colour [rgb], [-(0x1000000 - rgb)] is the signed
    32-bit reading of the ARGB word with alpha [0xFF] over [rgb]: it is
    negative, fits 32 bits, its top byte is [0xFF] and its low 24 bits are
    [rgb].  This holds for each of the six class colours. *)
Theorem java_color_argb (rgb : Z) :
  (0 <= rgb < 2 ^ 24)%Z →
  (- 2 ^ 31 <= java_color rgb < 0)%Z
  ∧ (java_color rgb mod 2 ^ 32 = Z.lor (Z.shiftl 0xFF 24) rgb)%Z
  ∧ Z.shiftr (java_color rgb mod 2 ^ 32) 24 = 0xFF%Z
  ∧ Z.land (java_color rgb) 0xFFFFFF = rgb
  ∧ Forall (λ c, 0 <= c < 2 ^ 24)%Z (dict_values color_map).
Proof.
  intros Hrgb. destruct (java_color_bounds rgb Hrgb) as (Heq & Hb & Hmod).
  split; [done|]. split; [|split; [|split]].
  - rewrite Hmod, Z.shiftl_mul_pow2 by lia.
    assert (Z.land (255 * 2 ^ 24) rgb = 0%Z) as Hland.
    { apply Z.bits_inj'. intros n Hn. rewrite Z.land_spec, Z.bits_0.
      destruct (Z.lt_ge_cases n 24).
      - by rewrite Z.mul_pow2_bits_low by lia.
      - rewrite (Z.bits_above_log2 rgb n); [by rewrite andb_false_r|lia|].
        destruct (Z.eq_dec rgb 0%Z) as [->|]; [simpl; lia|].
        apply Z.log2_lt_pow2; [lia|].
        pose proof (Z.pow_le_mono_r 2 24 n); lia. }
    by rewrite <-(Z.lxor_lor _ _ Hland), <-(Z.add_nocarry_lxor _ _ Hland).
  - rewrite Hmod, Z.shiftr_div_pow2 by lia.
    symmetry. apply (Z.div_unique_pos _ _ _ rgb); lia.
  - change 0xFFFFFF%Z with (Z.ones 24). rewrite Z.land_ones by lia.
    rewrite Heq. symmetry. apply (Z.mod_unique_pos _ _ (-1)); lia.
  - unfold dict_values, color_map. cbn [fmap list_fmap snd].
    repeat (apply Forall_cons; split; [lia|]). apply Forall_nil_2.
Qed.

Lemma java_color_argb_witness :
  Z.land (java_color 0xFF00FF) 0xFFFFFF = 0xFF00FF%Z.
Proof.
  destruct (java_color_argb 0xFF00FF) as (_ & _ & _ & Hlow & _); [lia|exact Hlow].
Defined.

Lemma imap_pair_lookup {A} (l : list A) (i : nat) :
  imap pair l !! i = pair i <$> l !! i.
Proof. by rewrite list_lookup_imap. Qed.

Lemma pathClasses_entries (list_of_samples : list string) :
  ∃ entries,
    pathClasses list_of_samples = Ok entries
    ∧ entries.*1 = list_of_samples
    ∧ (∀ i, i < length list_of_samples →
            entries.*2 !! i = java_colors !! (i mod 6))
    ∧ (∀ i, i + 6 < length list_of_samples →
            entries.*2 !! (i + 6) = entries.*2 !! i).
Proof.
  assert (length java_colors = 6) as Hsix by reflexivity.
  assert (∀ i, ∃ color, java_colors !! (i mod 6) = Some color) as Hcol.
  { intros i. apply lookup_lt_is_Some_2. rewrite Hsix. by apply Nat.mod_upper_bound. }
  set (colour := λ ix : nat * string,
         (ix.2, default 0%Z (java_colors !! (ix.1 mod 6)))).
  exists (colour <$> imap pair list_of_samples).
  assert (∀ i, i < length list_of_samples →
               (colour <$> imap pair list_of_samples).*2 !! i = java_colors !! (i mod 6))
    as Hith.
  { intros i Hi. rewrite !list_lookup_fmap, list_lookup_imap.
    destruct (lookup_lt_is_Some_2 list_of_samples i Hi) as [name ->].
    unfold colour. cbn [fmap option_fmap option_map fst snd].
    by destruct (Hcol i) as [c ->]. }
  split; [|split; [|split]].
  - unfold pathClasses. rewrite Hsix. apply mapO_fmap, Forall_forall. intros [i name] _.
    unfold colour. cbn [fst snd]. by destruct (Hcol i) as [c ->].
  - rewrite <-list_fmap_compose. apply list_eq. intros i.
    rewrite list_lookup_fmap, list_lookup_imap. by destruct (list_of_samples !! i).
  - exact Hith.
  - intros i Hi. rewrite !Hith by lia. f_equal.
    replace (i + 6) with (i + 1 * 6) by lia. apply Nat.Div0.mod_add.
Qed.

(** X5. The classes made for QuPath, for a positive number of replicates:
    one class per combination of the two lists and a replicate number, in
    the order of the combinations, so as many as the product of the three
    sizes.  The colour of the [i]-th class is the class colour number
    [i mod 6]: the colours repeat every six classes. *)
Theorem class_names_colours (list1 list2 : list string) (input3 : Z) :
  (0 < input3)%Z →
  ∃ entries,
    class_names list1 list2 input3 = Ok entries
    ∧ entries.*1 = combinations list1 list2 input3
    ∧ length entries = length list1 * length list2 * Z.to_nat input3
    ∧ (∀ i, i < length entries → entries.*2 !! i = java_colors !! (i mod 6))
    ∧ (∀ i, i + 6 < length entries → entries.*2 !! (i + 6) = entries.*2 !! i).
Proof.
  intros Hnum. unfold class_names.
  rewrite (generate_combinations_loops _ _ _ Hnum). cbn [mbind outcome_bind].
  destruct (pathClasses_entries (combinations list1 list2 input3))
    as (entries & Hentries & Hnames & Hcolour & Hrepeat).
  assert (length entries = length (combinations list1 list2 input3)) as Hlen.
  { by rewrite <-Hnames, length_fmap. }
  exists entries. split; [done|]. split; [done|].
  split; [by rewrite Hlen, combinations_length|].
  rewrite Hlen. by split.
Qed.

Lemma class_names_colours_witness :
  ∃ entries,
    class_names ["tumor"; "stroma"] ["control"] 4 = Ok entries
    ∧ length entries = 8.
Proof.
  destruct (class_names_colours ["tumor"; "stroma"] ["control"] 4)
    as (entries & Hentries & _ & Hlen & _); [lia|].
  exists entries. by split.
Defined.

(** ** Dictionaries with distinct keys *)

Lemma dict_set_absent {K V} `{EqDecision K} (d : dict K V) (k : K) (v : V) :
  k ∉ dict_keys d → dict_set d k v = d ++ [(k, v)].
Proof.
  unfold dict_keys. induction d as [|[k0 v0] d IH]; [done|].
  cbn [fmap list_fmap fst]. intros [Hne Hk]%not_elem_of_cons.
  cbn [dict_set]. rewrite decide_False by done. by rewrite IH.
Qed.

Lemma dict_of_pairs_NoDup {K V} `{EqDecision K} (l : list (K * V)) :
  NoDup l.*1 → dict_of_pairs l = l.
Proof.
  unfold dict_of_pairs. induction l as [|[k v] l IH] using rev_ind; [done|].
  rewrite fmap_app. intros [Hl [Hk _]]%NoDup_app.
  rewrite foldl_dict_set_snoc, IH by done. apply dict_set_absent.
  intros Hin. apply (Hk k Hin). cbn. apply elem_of_cons. by left.
Qed.

(** ** Acceptable wells on the plate *)

Lemma acceptable_wells_loops :
  create_list_of_acceptable_wells
  = n ← seq 67 12; column ← seq 3 19; [String (ascii_of_nat n) (str_nat column)].
Proof. vm_compute. reflexivity. Qed.

Lemma acceptable_well_label (well : string) :
  well ∈ create_list_of_acceptable_wells
  ↔ ∃ (row : ascii) (column : nat),
      67 ≤ nat_of_ascii row ≤ 78 ∧ 3 ≤ column ≤ 21
      ∧ well = String row (str_nat column).
Proof.
  rewrite acceptable_wells_loops. split.
  - intros (n & Hwell & Hn)%list_elem_of_bind.
    apply list_elem_of_bind in Hwell as (column & Hwell & Hcolumn).
    apply list_elem_of_singleton in Hwell as ->.
    apply elem_of_seq in Hn, Hcolumn.
    exists (ascii_of_nat n), column. rewrite nat_ascii_embedding by lia.
    split; [lia|]. split; [lia|done].
  - intros (row & column & Hrow & Hcolumn & ->).
    apply list_elem_of_bind. exists (nat_of_ascii row). split; [|apply elem_of_seq; lia].
    apply list_elem_of_bind. exists column. split; [|apply elem_of_seq; lia].
    rewrite ascii_nat_embedding. apply list_elem_of_singleton. done.
Qed.

Lemma acceptable_well_on_plate (row : ascii) (column : nat) :
  67 ≤ nat_of_ascii row ≤ 78 → 3 ≤ column ≤ 21 →
  String row EmptyString ∈ rows_A_P ∧ str_nat column ∈ columns_1_24.
Proof.
  intros Hrow Hcolumn. split.
  - rewrite <-(ascii_nat_embedding row).
    assert (nat_of_ascii row ∈ seq 67 12) as Hin by (apply elem_of_seq; lia).
    revert Hin. generalize (nat_of_ascii row). intros n Hn.
    assert (Forall (λ n, String (ascii_of_nat n) EmptyString ∈ rows_A_P) (seq 67 12)) as Hall.
    { compute_done. }
    by apply (proj1 (Forall_forall _ _) Hall).
  - unfold columns_1_24, range. apply list_elem_of_fmap. exists column.
    split; [done|]. apply elem_of_seq. lia.
Qed.

(** X6. The acceptable wells are the labels made of a row letter from C to
    N followed by a column number from 3 to 21 in decimal: 228 labels, all
    different, each a position of the 16 by 24 plate. *)
Theorem create_list_of_acceptable_wells_labels :
  (∀ well, well ∈ create_list_of_acceptable_wells
           ↔ ∃ (row : ascii) (column : nat),
               67 ≤ nat_of_ascii row ≤ 78 ∧ 3 ≤ column ≤ 21
               ∧ well = String row (str_nat column))
  ∧ length create_list_of_acceptable_wells = 228
  ∧ NoDup create_list_of_acceptable_wells
  ∧ Forall (λ well, spec_well_label_ok well = true) create_list_of_acceptable_wells.
Proof.
  split; [exact acceptable_well_label|]. split; [by vm_compute|]. split.
  - compute_done.
  - compute_done.
Qed.

Lemma blank_plate_cells :
  Forall (λ r, Forall (λ c, at_get (DataFrame_filled (CellStr EmptyString) columns_1_24 rows_A_P)
                                   r c = Some (CellStr EmptyString)) columns_1_24)
         rows_A_P.
Proof. compute_done. Qed.

Lemma sample_placement_384wp_axes (samples_and_wells : dict string string) :
  NoDup (dict_keys samples_and_wells) →
  Forall (λ well, well ∈ create_list_of_acceptable_wells) (dict_values samples_and_wells) →
  ∃ df_wp384,
    sample_placement_384wp samples_and_wells = Ok df_wp384
    ∧ index df_wp384 = rows_A_P
    ∧ columns df_wp384 = columns_1_24
    ∧ (∀ r c x,
         at_get (DataFrame_filled (CellStr EmptyString) columns_1_24 rows_A_P) r c = Some x →
         (∀ s a rest, (s, String a rest) ∈ samples_and_wells →
                      (String a EmptyString, rest) ≠ (r, c)) →
         at_get df_wp384 r c = Some x).
Proof.
  intros Hkeys Hwells.
  assert (Forall (λ sw : string * string,
                    ∃ row column, 67 ≤ nat_of_ascii row ≤ 78 ∧ 3 ≤ column ≤ 21
                                  ∧ sw.2 = String row (str_nat column))
                 samples_and_wells) as Hlabels.
  { unfold dict_values in Hwells. apply Forall_fmap in Hwells.
    eapply Forall_impl; [exact Hwells|]. intros sw Hsw. by apply acceptable_well_label. }
  rewrite (sample_placement_entries _ Hkeys).
  destruct (foldO_place_sample samples_and_wells
              (DataFrame_filled (CellStr EmptyString) columns_1_24 rows_A_P))
    as (df & Hdf & _ & _ & Hkeep & Haxes).
  { apply DataFrame_filled_ok. }
  { eapply Forall_impl; [exact Hlabels|]. intros sw (row & column & _ & _ & ->). done. }
  destruct Haxes as [Hindex Hcolumns].
  { eapply Forall_impl; [exact Hlabels|].
    intros sw (row & column & Hrow & Hcolumn & Hsw) a rest Heq.
    rewrite Hsw in Heq. injection Heq as <- <-.
    by apply acceptable_well_on_plate. }
  exists df. by repeat split.
Qed.

(** X7. The plate layout of a mapping whose wells are all acceptable: the
    layout is made, it keeps the 16 rows A-P and the 24 columns 1-24, and
    every cell whose label is not a well of the mapping is the empty
    text; so are the cells outside rows C-N and columns 3-21. *)
Theorem sample_placement_384wp_acceptable (samples_and_wells : dict string string) :
  NoDup (dict_keys samples_and_wells) →
  Forall (λ well, well ∈ create_list_of_acceptable_wells) (dict_values samples_and_wells) →
  ∃ df_wp384,
    sample_placement_384wp samples_and_wells = Ok df_wp384
    ∧ index df_wp384 = rows_A_P
    ∧ columns df_wp384 = columns_1_24
    ∧ (∀ r c, r ∈ rows_A_P → c ∈ columns_1_24 →
              r +:+ c ∉ dict_values samples_and_wells →
              at_get df_wp384 r c = Some (CellStr EmptyString))
    ∧ (∀ r c, r ∈ rows_A_P → c ∈ columns_1_24 →
              r +:+ c ∉ create_list_of_acceptable_wells →
              at_get df_wp384 r c = Some (CellStr EmptyString)).
Proof.
  intros Hkeys Hwells.
  destruct (sample_placement_384wp_axes _ Hkeys Hwells)
    as (df & Hdf & Hindex & Hcolumns & Hkeep).
  assert (∀ r c, r ∈ rows_A_P → c ∈ columns_1_24 →
                 r +:+ c ∉ dict_values samples_and_wells →
                 at_get df r c = Some (CellStr EmptyString)) as Hblank.
  { intros r c Hr Hc Hfree. apply Hkeep.
    - pose proof blank_plate_cells as Hb.
      pose proof (proj1 (Forall_forall _ _) Hb r Hr) as Hrow. cbn beta in Hrow.
      exact (proj1 (Forall_forall _ _) Hrow c Hc).
    - intros s a rest Hin Heq. injection Heq as <- <-. apply Hfree.
      apply list_elem_of_fmap. by exists (s, String a rest). }
  exists df. split; [done|]. split; [exact Hindex|]. split; [exact Hcolumns|].
  split; [exact Hblank|].
  intros r c Hr Hc Hout. apply Hblank; [done..|].
  intros Hin. apply Hout. by apply (proj1 (Forall_forall _ _) Hwells).
Qed.

Lemma sample_placement_384wp_acceptable_witness :
  ∃ df_wp384,
    sample_placement_384wp [("tumor_1", "C3"); ("tumor_2", "C5")] = Ok df_wp384
    ∧ index df_wp384 = rows_A_P
    ∧ columns df_wp384 = columns_1_24.
Proof.
  destruct (sample_placement_384wp_acceptable [("tumor_1", "C3"); ("tumor_2", "C5")])
    as (df & Hdf & Hindex & Hcolumns & _).
  - compute_done.
  - compute_done.
  - exists df. by repeat split.
Defined.

(** ** The default scheme *)

Lemma every_other_lookup {A} (l : list A) (i : nat) :
  every_other l !! i = l !! (2 * i).
Proof.
  remember (length l) as n eqn:Hn.
  revert l i Hn. induction (lt_wf n) as [n _ IH]. intros l i ->.
  destruct l as [|x [|y l]]; [done| |].
  - destruct i; [done|]. simpl. by replace (i + S (i + 0)) with (S (2 * i)) by lia.
  - destruct i; [done|]. cbn [every_other].
    replace (2 * S i) with (S (S (2 * i))) by lia. cbn [lookup list_lookup].
    apply (IH (length l)); [simpl; lia|done].
Qed.

Lemma every_other_elem_of {A} (l : list A) (x : A) :
  x ∈ every_other l → x ∈ l.
Proof.
  intros [i Hi]%list_elem_of_lookup. rewrite every_other_lookup in Hi.
  by eapply list_elem_of_lookup_2.
Qed.

Lemma dict_values_foldl {K V} `{EqDecision K} (P : V → Prop) (l : list (K * V)) :
  Forall P l.*2 →
  Forall P (dict_values (foldl (λ d kv, dict_set d kv.1 kv.2) [] l)).
Proof.
  intros Hl. unfold dict_values.
  assert (Forall (λ kv, True ∧ P kv.2)
            (foldl (λ (d : dict K V) kv, dict_set d kv.1 kv.2) [] l)) as Hd.
  { induction l as [|[k v] l IH] using rev_ind; [constructor|].
    rewrite foldl_dict_set_snoc. rewrite fmap_app in Hl.
    apply Forall_app in Hl as [Hl Hv]. apply (dict_set_Forall (λ _, True) P); [by apply IH|done|].
    cbn in Hv. by inv Hv. }
  apply Forall_fmap. eapply Forall_impl; [exact Hd|]. by intros kv [_ ?].
Qed.

Lemma dict_keys_set_NoDup {K V} `{EqDecision K} (d : dict K V) (k : K) (v : V) :
  NoDup (dict_keys d) → NoDup (dict_keys (dict_set d k v)).
Proof.
  intros Hd. destruct (decide (k ∈ dict_keys d)) as [Hin|Hout].
  - by rewrite dict_keys_set.
  - rewrite dict_set_absent by done. unfold dict_keys in *. rewrite fmap_app.
    apply NoDup_app. split; [done|]. split; [|apply NoDup_singleton].
    intros k' Hk' ->%list_elem_of_singleton. done.
Qed.

Lemma dict_keys_foldl_NoDup {K V} `{EqDecision K} (l : list (K * V)) :
  NoDup (dict_keys (foldl (λ (d : dict K V) kv, dict_set d kv.1 kv.2) [] l)).
Proof.
  induction l as [|[k v] l IH] using rev_ind; [constructor|].
  rewrite foldl_dict_set_snoc. by apply dict_keys_set_NoDup.
Qed.

Lemma check_wells_acceptable (wells : list string) :
  Forall (λ well, well ∈ create_list_of_acceptable_wells) wells →
  check_wells (PStr <$> wells) 0 = Run [] (Ok 0).
Proof.
  intros Hw.
  assert (unacceptable (PStr <$> wells) = []) as Hun.
  { unfold unacceptable. induction Hw as [|well wells Hwell _ IH]; [done|].
    rewrite fmap_cons, filter_cons, decide_False; [exact IH|].
    intros Hn. apply Hn, list_elem_of_fmap. by exists well. }
  destruct (check_wells_counts (PStr <$> wells) 0) as [Hres Htr].
  rewrite Hun in Hres, Htr. cbn in Hres, Htr.
  destruct (check_wells (PStr <$> wells) 0) as [t r]. cbn in Hres, Htr. by subst.
Qed.

(** X8. The default scheme, for a positive number of replicates: it is
    made exactly when there are at most 114 sample names (the number of
    categories of the first input times that of the second times the
    replicates), and the assertion fails otherwise.  When it is made,
    every sample name has a well, the name at position [i] (when it is not
    listed again later) has the acceptable well number [2 i], and every
    well of the scheme is an acceptable well: the check of the wells
    writes no warning about it, and its plate layout keeps the 16 rows
    and the 24 columns of the plate. *)
Theorem default_scheme_wells (list3 list4 : list string) (input6 : Z) :
  (0 < input6)%Z →
  let n := length list3 * length list4 * Z.to_nat input6 in
  (114 < n → default_scheme list3 list4 input6 = Raise AssertionError)
  ∧ (n ≤ 114 →
     ∃ samples_and_wells,
       default_scheme list3 list4 input6 = Ok samples_and_wells
       ∧ (∀ sample, sample ∈ combinations list3 list4 input6 →
                    is_Some (dict_get samples_and_wells sample))
       ∧ (∀ i sample,
            combinations list3 list4 input6 !! i = Some sample →
            (∀ j, i < j → combinations list3 list4 input6 !! j ≠ Some sample) →
            dict_get samples_and_wells sample
            = create_list_of_acceptable_wells !! (2 * i))
       ∧ Forall (λ well, well ∈ create_list_of_acceptable_wells)
                (dict_values samples_and_wells)
       ∧ check_wells (PStr <$> dict_values samples_and_wells) 0 = Run [] (Ok 0)
       ∧ NoDup (dict_keys samples_and_wells)
       ∧ ∃ df_wp384,
           sample_placement_384wp samples_and_wells = Ok df_wp384
           ∧ index df_wp384 = rows_A_P ∧ columns df_wp384 = columns_1_24).
Proof.
  intros Hnum n. unfold default_scheme.
  rewrite (generate_combinations_loops _ _ _ Hnum). cbn [mbind outcome_bind].
  unfold create_default_samples_and_wells.
  pose proof (combinations_length list3 list4 input6) as Hlen. fold n in Hlen.
  assert (length (every_other create_list_of_acceptable_wells) = 114) as H114
    by (vm_compute; reflexivity).
  rewrite H114, Hlen. clearbody n.
  split.
  - intros Hn. by rewrite (proj2 (Nat.leb_gt n 114)) by lia.
  - intros Hn. rewrite (proj2 (Nat.leb_le n 114)) by lia. cbn [py_assert mbind outcome_bind].
    eexists. split; [reflexivity|].
    set (wells := every_other create_list_of_acceptable_wells) in *.
    set (samples := combinations list3 list4 input6) in *.
    assert (Forall (λ well, well ∈ create_list_of_acceptable_wells)
              (dict_values (foldl (λ (d : dict string string) sw, dict_set d sw.1 sw.2)
                                  [] (zip samples wells)))) as Hvalues.
    { apply dict_values_foldl, Forall_forall. intros well Hin.
      apply list_elem_of_fmap in Hin as ([sample w] & -> & Hin).
      apply elem_of_zip_r in Hin. by apply every_other_elem_of. }
    split; [|split; [|split; [|split; [|split]]]].
    + intros sample Hin. apply dict_get_foldl_is_Some. rewrite fst_zip by lia. done.
    + intros i sample Hi Hlast.
      destruct (lookup_lt_is_Some_2 wells i) as [well Hwell].
      { apply lookup_lt_Some in Hi. lia. }
      rewrite <-every_other_lookup. fold wells. rewrite Hwell.
      apply (dict_get_foldl_last _ _ i).
      * apply lookup_zip_with_Some. by exists sample, well.
      * intros j well' Hj Hzip.
        apply lookup_zip_with_Some in Hzip as (sample' & w & Heq & Hs & _).
        injection Heq as <- <-. by apply (Hlast j).
    + exact Hvalues.
    + by apply check_wells_acceptable.
    + apply dict_keys_foldl_NoDup.
    + destruct (sample_placement_384wp_axes _ (dict_keys_foldl_NoDup (zip samples wells))
                  Hvalues) as (df & Hdf & Hindex & Hcolumns & _).
      by exists df.
Qed.

Lemma default_scheme_wells_witness :
  ∃ samples_and_wells,
    default_scheme ["tumor"; "stroma"] ["control"; "drug"] 2 = Ok samples_and_wells
    ∧ check_wells (PStr <$> dict_values samples_and_wells) 0 = Run [] (Ok 0).
Proof.
  destruct (default_scheme_wells ["tumor"; "stroma"] ["control"; "drug"] 2) as [_ H];
    [lia|].
  destruct H as (d & Hd & _ & _ & _ & Hcheck & _); [simpl; lia|].
  exists d. by split.
Defined.

(** ** Coordinates of the shapes *)

Lemma run_bind_result {A B} (m : run A) (f : A → run B) :
  result (m ≫= f) = result m ≫= (λ a, result (f a)).
Proof. unfold mbind at 1, run_bind. by destruct (result m). Qed.

Lemma run_bind_Ok_inv {A B} (m : run A) (f : A → run B) (b : B) :
  result (m ≫= f) = Ok b → ∃ a, result m = Ok a ∧ result (f a) = Ok b.
Proof.
  rewrite run_bind_result. destruct (result m) as [a| |]; [|done..].
  intros Hb. by exists a.
Qed.

Section Coordinates.
Context {float : Type}.
Implicit Types (g : @Geometry float) (gs : list (@Geometry float)).

Lemma extract_coordinates_supported g :
  geom_type g ∈ ["Polygon"; "LineString"] →
  extract_coordinates g = Run [] (Ok (exterior_or_line g)).
Proof.
  intros Hg. destruct g; try reflexivity; exfalso; simpl in Hg; not_in_list.
Qed.

Lemma extract_coordinates_unsupported g :
  geom_type g ∉ ["Polygon"; "LineString"] →
  extract_coordinates g = Run [Write (GeometryNotSupported (geom_type g))] Stop.
Proof.
  intros Hg. destruct g; try reflexivity; exfalso; apply Hg; simpl.
  - apply elem_of_cons. right. apply elem_of_cons. by left.
  - apply elem_of_cons. by left.
Qed.

Lemma map_run_extract_coordinates_supported gs :
  Forall (λ g, geom_type g ∈ ["Polygon"; "LineString"]) gs →
  map_run extract_coordinates gs = Run [] (Ok (exterior_or_line <$> gs)).
Proof.
  induction 1 as [|g gs Hg _ IH]; [done|].
  cbn [map_run]. rewrite (extract_coordinates_supported g Hg), IH. reflexivity.
Qed.

(** X9. The coordinates of a column of geometries.  When every geometry is
    a Polygon or a LineString, each gives its exterior ring or its line,
    in order, and nothing is written.  Otherwise the run stops at the
    first geometry of another kind, with one message that names its kind:
    no coordinates are returned for the geometries before it. *)
Theorem map_run_extract_coordinates gs :
  (Forall (λ g, geom_type g ∈ ["Polygon"; "LineString"]) gs →
   map_run extract_coordinates gs = Run [] (Ok (exterior_or_line <$> gs)))
  ∧ (∀ i g,
       gs !! i = Some g →
       geom_type g ∉ ["Polygon"; "LineString"] →
       Forall (λ g, geom_type g ∈ ["Polygon"; "LineString"]) (take i gs) →
       map_run extract_coordinates gs
       = Run [Write (GeometryNotSupported (geom_type g))] Stop).
Proof.
  split; [apply map_run_extract_coordinates_supported|].
  induction gs as [|g0 gs IH]; intros i g Hi Hg Hbefore; [done|].
  destruct i as [|i].
  - injection Hi as ->. cbn [map_run]. by rewrite (extract_coordinates_unsupported g Hg).
  - cbn [take] in Hbefore. apply Forall_cons in Hbefore as [Hg0 Hbefore].
    cbn [map_run]. rewrite (extract_coordinates_supported g0 Hg0).
    rewrite (IH i g Hi Hg Hbefore). reflexivity.
Qed.

End Coordinates.

(** ** The check of the samples and wells *)

Lemma bind_if_singleton {A B} (p : A → bool) (f : A → B) (l : list A) :
  l ≫= (λ x, if p x then [f x] else []) = f <$> filter (λ x, p x = true) l.
Proof.
  induction l as [|x l IH]; [done|].
  rewrite bind_cons, filter_cons, IH.
  destruct (p x); [by rewrite decide_True|by rewrite decide_False].
Qed.

Lemma run_eta {A} (r : run A) : r = Run (trace r) (result r).
Proof. by destruct r. Qed.

Section SamplesAndWells.
Context {float : Type}.
Implicit Types (df : @GeoDataFrame float).

(** X10. The check of the samples and wells on a table that has its two
    columns, with class names that can be read and a mapping text that is
    a dict: it always runs to its end.  It writes a warning for each of
    the first nine wells that are not acceptable, one summary line when
    there are ten or more of them, then one warning for each class name of
    the shapes that is not a key of the mapping (each name once, in order
    of first appearance), and it ends with the success message. *)
Theorem load_and_QC_SamplesandWells_warnings
    df (list_of_calibpoint_names : calibpoint_names)
    (samples_and_wells_input : string) (Name : list pyval)
    (samples_and_wells : dict pyval pyval) :
  has_name df = true →
  has_classification df = true →
  mapO (λ r, classification_name_of (default PNone (classification r)))
       (filter (λ r, geom_type (geometry r) ≠ "MultiPolygon")
          (filter (λ r, notna r)
             (filter (λ r, name r ∉ Some <$> names_list list_of_calibpoint_names)
                     (rows df))))
  = Ok Name →
  literal_eval (samples_and_wells_processed samples_and_wells_input)
  = Ok (PDict samples_and_wells) →
  need_hashable Name = Ok tt →
  load_and_QC_SamplesandWells df list_of_calibpoint_names samples_and_wells_input
  = Run (((λ well, Write (WellNotAcceptable well))
            <$> take 9 (unacceptable (dict_values samples_and_wells)))
         ++ (if 10 <=? length (unacceptable (dict_values samples_and_wells))
             then [Write TooManyWellWarnings] else [])
         ++ ((λ name, Write (NameNotInSamples name))
               <$> filter (λ name, negb (dict_mem samples_and_wells name) = true)
                          (unique Name))
         ++ [Success SamplesWellsQCDone])
        (Ok tt).
Proof.
  intros Hname Hclass HName Hparsed Hhash. unfold load_and_QC_SamplesandWells.
  rewrite Hname, Hclass. cbn [need_column]. do 2 run_step.
  rewrite HName. run_step. rewrite Hparsed. run_step. cbn [as_dict]. run_step.
  destruct (check_wells_counts (dict_values samples_and_wells) 0) as [Hres Htr].
  rewrite (run_bind_Ok _ _ _ Hres), Htr. cbn [Nat.add Nat.sub].
  rewrite Hhash.
  set (body := λ name : pyval,
         when (negb (dict_mem samples_and_wells name))
              (emit (Write (NameNotInSamples name)))).
  assert (∀ x, result (body x) = Ok tt) as Hbody.
  { intros x. unfold body. by destruct (negb _). }
  pose proof (for_each_result (unique Name) body Hbody) as Hfr.
  pose proof (for_each_trace (unique Name) body Hbody) as Hft.
  assert (unique Name ≫= (λ x, trace (body x))
          = (λ name, Write (NameNotInSamples name))
              <$> filter (λ name, negb (dict_mem samples_and_wells name) = true)
                         (unique Name)) as Hnames.
  { rewrite <-bind_if_singleton. apply list_bind_ext; [|done].
    intros x. unfold body. by destruct (negb _). }
  rewrite Hnames in Hft.
  destruct (10 <=? length (unacceptable (dict_values samples_and_wells))).
  - cbn [when]. run_step. run_step.
    rewrite (run_bind_Ok _ _ _ Hfr), Hft. cbn [trace result emit].
    reflexivity.
  - cbn [when]. run_step. run_step.
    rewrite (run_bind_Ok _ _ _ Hfr), Hft. cbn [trace result emit].
    reflexivity.
Qed.

End SamplesAndWells.

Lemma load_and_QC_SamplesandWells_warnings_witness :
  load_and_QC_SamplesandWells with_square ("calib1", "calib2", "calib3")
    (quoted "{`stroma`:`C3`}")
  = Run [Write (NameNotInSamples (PStr "tumor")); Success SamplesWellsQCDone] (Ok tt).
Proof.
  apply (load_and_QC_SamplesandWells_warnings with_square ("calib1", "calib2", "calib3")
           (quoted "{`stroma`:`C3`}") [PStr "tumor"] [(PStr "stroma", PStr "C3")]);
    vm_compute; reflexivity.
Defined.

(** ** The export of the shapes *)

Lemma dict_get_mem {K V} `{EqDecision K} (d : dict K V) (k : K) :
  dict_mem d k = true → ∃ v, dict_get d k = Some v ∧ v ∈ dict_values d.
Proof.
  unfold dict_mem, dict_keys, dict_values. intros Hk%bool_decide_eq_true.
  induction d as [|[k0 v0] d IH]; [by apply elem_of_nil in Hk|].
  cbn [dict_get]. destruct (decide (k0 = k)) as [->|Hne].
  - exists v0. split; [done|]. cbn. apply elem_of_cons. by left.
  - cbn in Hk. apply elem_of_cons in Hk as [->|Hk]; [done|].
    destruct (IH Hk) as (v & Hv & Hin). exists v. split; [done|].
    cbn. apply elem_of_cons. by right.
Qed.

Lemma mapped_wells {A K V} `{EqDecision K} (d : dict K V) (v0 : V) (l : list (A * K)) :
  Forall (λ shape, shape.2 ∈ dict_values d)
         ((λ cn, (cn.1, default v0 (dict_get d cn.2)))
            <$> filter (λ cn, dict_mem d cn.2 = true) l).
Proof.
  apply Forall_fmap, Forall_forall. intros cn Hcn.
  apply list_elem_of_filter in Hcn as [Hmem _].
  destruct (dict_get_mem _ _ Hmem) as (well & Hwell & Hin). cbn. by rewrite Hwell.
Qed.

Lemma mapO_Forall_Ok {A B} (f : A → outcome B) (l : list A) :
  Forall (λ x, ∃ y, f x = Ok y) l → ∃ l', mapO f l = Ok l'.
Proof.
  induction 1 as [|x l [y Hy] _ [l' IH]]; [by exists []|].
  exists (y :: l'). cbn [mapO]. by rewrite Hy, IH.
Qed.

Lemma mapO_Ok_elem_of {A B} (f : A → outcome B) (l : list A) (l' : list B) (y : B) :
  mapO f l = Ok l' → y ∈ l' ↔ ∃ x, x ∈ l ∧ f x = Ok y.
Proof.
  intros Hl%mapO_Ok_inv. induction Hl as [|x y' l l' Hxy _ IH].
  - split; [by intros ?%elem_of_nil|]. by intros (x & ?%elem_of_nil & _).
  - rewrite elem_of_cons, IH. split.
    + intros [->|(x' & Hin & Hx')].
      * exists x. split; [apply elem_of_cons; by left|done].
      * exists x'. split; [apply elem_of_cons; by right|done].
    + intros (x' & [->|Hin]%elem_of_cons & Hx').
      * left. congruence.
      * right. by exists x'.
Qed.

Lemma need_hashable_Ok (l : list pyval) :
  need_hashable l = Ok tt ↔ Forall (λ v, hashable v = true) l.
Proof.
  unfold need_hashable. destruct (forallb hashable l) eqn:Hall.
  - split; [|done]. intros _. apply Forall_forall. intros v Hv.
    rewrite forallb_forall in Hall. apply Hall. by apply list_elem_of_In.
  - split; [done|]. intros HF. exfalso.
    assert (forallb hashable l = true) as Htrue; [|congruence].
    apply forallb_forall. intros v Hv%list_elem_of_In.
    by apply (proj1 (Forall_forall _ _) HF).
Qed.

Section Collections.
Context {float : Type}.
Variable intersects : @Geometry float → @Geometry float → bool.
Variable simplify : Z → @Geometry float → @Geometry float.
Implicit Types (df : @GeoDataFrame float) (r : @Feature float).

Lemma map_run_extract_coordinates_Ok_inv (gs : list (@Geometry float)) cs :
  result (map_run extract_coordinates gs) = Ok cs →
  Forall (λ g, geom_type g ∈ ["Polygon"; "LineString"]) gs.
Proof.
  revert cs. induction gs as [|g gs IH]; intros cs Hcs; [constructor|].
  destruct (decide (geom_type g ∈ ["Polygon"; "LineString"])) as [Hg|Hg].
  - constructor; [done|]. cbn [map_run] in Hcs.
    rewrite (extract_coordinates_supported g Hg) in Hcs. rewrite run_bind_result in Hcs.
    cbn [result mbind outcome_bind] in Hcs. rewrite run_bind_result in Hcs.
    destruct (result (map_run extract_coordinates gs)) as [cs'| |] eqn:Hgs;
      [|discriminate Hcs..].
    by apply (IH cs').
  - cbn [map_run] in Hcs. rewrite (extract_coordinates_unsupported g Hg) in Hcs.
    discriminate Hcs.
Qed.

Lemma calib_xy_length df (names : calibpoint_names) calib_np_array :
  mapO (calib_xy df) (names_list names) = Ok calib_np_array → length calib_np_array = 3.
Proof. intros H%mapO_Ok_inv. by apply Forall2_length in H as <-. Qed.

Lemma derive_classification_name_Ok_inv (l l' : list (@Feature float)) :
  derive_classification_name l = Ok l' →
  Forall (λ r, ∃ v, classification_name_of (default PNone (classification r)) = Ok v) l
  ∧ Forall2 (λ r r', geometry r' = geometry r) l l'.
Proof.
  intros Hl%mapO_Ok_inv. split.
  - induction Hl as [|r r' l l' Hr _ IH]; constructor; [|exact IH].
    cbn beta in Hr.
    destruct (classification_name_of (default PNone (classification r))) as [v| |];
      [by exists v|cbn in Hr; discriminate Hr..].
  - eapply Forall2_impl; [exact Hl|]. intros r r' Hr. cbn beta in Hr.
    destruct (classification_name_of (default PNone (classification r))) as [v| |];
      [|cbn in Hr; discriminate Hr..].
    cbn in Hr. by injection Hr as <-.
Qed.

Lemma filter_geometry_Forall2 (P Q : @Geometry float → Prop) `{∀ g, Decision (P g)}
    (l l' : list (@Feature float)) :
  Forall2 (λ r r', geometry r' = geometry r) l l' →
  Forall (λ r, Q (geometry r)) (filter (λ r, P (geometry r)) l') →
  Forall (λ r, Q (geometry r)) (filter (λ r, P (geometry r)) l).
Proof.
  induction 1 as [|r r' l l' Hr _ IH]; [done|].
  rewrite !filter_cons, Hr. destruct (decide (P (geometry r))); [|exact IH].
  intros [Hq Hall]%Forall_cons. constructor; [by rewrite <-Hr|by apply IH].
Qed.

(** What [create_collection] hands over when every step goes through. *)
Lemma create_collection_steps df (names : calibpoint_names) (input : string)
    calib_np_array (Name : list pyval) (samples_and_wells : dict pyval pyval) :
  has_name df = true →
  mapO (calib_xy df) (names_list names) = Ok calib_np_array →
  has_classification df = true →
  let rows3 := filter (λ r, geom_type (geometry r) ≠ "MultiPolygon")
                 (filter (λ r, notna r)
                    (filter (λ r, negb (is_Point (geometry r))) (rows df))) in
  Forall (λ r, geom_type (simplify 1 (geometry r)) ∈ ["Polygon"; "LineString"]) rows3 →
  mapO (λ r, classification_name_of (default PNone (classification r))) rows3 = Ok Name →
  literal_eval (samples_and_wells_processed input) = Ok (PDict samples_and_wells) →
  need_hashable Name = Ok tt →
  create_collection simplify df names input
  = Run [] (Ok ({| calibration_points := calib_np_array;
                   orientation_transform := ((1, 0), (0, -1))%Z;
                   shapes := (λ cn, (cn.1, default PNone (dict_get samples_and_wells cn.2)))
                               <$> filter (λ cn, dict_mem samples_and_wells cn.2 = true)
                                     (zip ((λ r, exterior_or_line (simplify 1 (geometry r)))
                                             <$> rows3) Name) |},
                samples_and_wells)).
Proof.
  intros Hname Hcalib Hclass rows3 Hgeom HName Hparsed Hhash.
  unfold create_collection. rewrite Hname, Hcalib, Hclass. cbn [need_column].
  do 3 run_step. fold rows3.
  rewrite (proj1 (map_run_extract_coordinates _)).
  2:{ apply Forall_fmap. exact Hgeom. }
  rewrite <-list_fmap_compose.
  change (Run [] (Ok ?x)) with (mret (M := run) x). run_step.
  rewrite HName. run_step. rewrite Hparsed. run_step. cbn [as_dict]. run_step.
  rewrite Hhash. run_step.
  erewrite mapO_fmap; [run_step; reflexivity|].
  apply Forall_forall. intros cn Hcn. apply list_elem_of_filter in Hcn as [Hmem _].
  destruct (dict_get_mem _ _ Hmem) as (well & -> & _). done.
Qed.


Lemma result_bind_Ok_tt {B} (m : run unit) (f : unit → run B) :
  result m = Ok tt → result (m ≫= f) = result (f tt).
Proof. intros Hm. by rewrite run_bind_result, Hm. Qed.

Lemma result_when (b : bool) (m : run unit) :
  result m = Ok tt → result (when b m) = Ok tt.
Proof. by destruct b. Qed.

Lemma load_and_QC_geojson_file_Ok_inv df (names : calibpoint_names) :
  result (load_and_QC_geojson_file intersects simplify df names) = Ok tt →
  has_name df = true
  ∧ has_classification df = true
  ∧ (∃ calib_np_array, mapO (calib_xy df) (names_list names) = Ok calib_np_array)
  ∧ ∃ rows3,
      derive_classification_name
        (filter (λ r, notna r) (filter (λ r, negb (is_Point (geometry r))) (rows df)))
      = Ok rows3
      ∧ Forall (λ g, geom_type g ∈ ["Polygon"; "LineString"])
               ((λ r, simplify 1 (geometry r))
                  <$> filter (λ r, geom_type (geometry r) ≠ "MultiPolygon") rows3).
Proof.
  unfold load_and_QC_geojson_file. intros H.
  rewrite result_bind_Ok_tt in H by done.
  destruct (has_name df); [|discriminate H].
  rewrite result_bind_Ok_tt in H by done.
  rewrite result_bind_Ok_tt in H by done.
  rewrite result_bind_Ok_tt in H by done.
  rewrite result_bind_Ok_tt in H by apply check_calibration_names_result.
  rewrite run_bind_result in H.
  destruct (mapO (calib_xy df) (names_list names)) as [calib_np_array| |];
    [|discriminate H..].
  cbn [lift result mbind outcome_bind] in H.
  rewrite result_bind_Ok_tt in H by done.
  rewrite result_bind_Ok_tt in H by done.
  rewrite result_bind_Ok_tt in H by (by apply result_when).
  rewrite result_bind_Ok_tt in H by done.
  destruct (has_classification df); [|discriminate H].
  rewrite result_bind_Ok_tt in H by done.
  rewrite result_bind_Ok_tt in H by (by apply result_when).
  rewrite run_bind_result in H.
  destruct (derive_classification_name _) as [rows3| |]; [|discriminate H..].
  cbn [lift result mbind outcome_bind] in H.
  rewrite result_bind_Ok_tt in H by (by apply result_when).
  rewrite run_bind_result in H.
  destruct (result (map_run extract_coordinates _)) as [cs| |] eqn:Hcs; [|discriminate H..].
  apply map_run_extract_coordinates_Ok_inv in Hcs.
  split; [done|]. split; [done|]. split; [by exists calib_np_array|].
  exists rows3. by split.
Qed.

Lemma load_and_QC_SamplesandWells_Ok_inv df (names : calibpoint_names) (input : string) :
  result (load_and_QC_SamplesandWells df names input) = Ok tt →
  ∃ Name samples_and_wells,
    mapO (λ r, classification_name_of (default PNone (classification r)))
         (filter (λ r, geom_type (geometry r) ≠ "MultiPolygon")
            (filter (λ r, notna r)
               (filter (λ r, name r ∉ Some <$> names_list names) (rows df))))
    = Ok Name
    ∧ literal_eval (samples_and_wells_processed input) = Ok (PDict samples_and_wells)
    ∧ need_hashable Name = Ok tt.
Proof.
  unfold load_and_QC_SamplesandWells. intros H.
  destruct (has_name df); [|discriminate H].
  rewrite result_bind_Ok_tt in H by done.
  destruct (has_classification df); [|discriminate H].
  rewrite result_bind_Ok_tt in H by done.
  rewrite run_bind_result in H.
  destruct (mapO _ _) as [Name| |]; [|discriminate H..].
  cbn [lift result mbind outcome_bind] in H.
  rewrite run_bind_result in H.
  destruct (literal_eval _) as [parsed| |]; [|discriminate H..].
  cbn [lift result mbind outcome_bind] in H.
  rewrite run_bind_result in H.
  destruct parsed as [| | | |samples_and_wells]; try discriminate H.
  cbn [as_dict lift result mbind outcome_bind] in H.
  rewrite run_bind_result in H.
  rewrite (proj1 (check_wells_counts _ _)) in H. cbn [mbind outcome_bind] in H.
  rewrite result_bind_Ok_tt in H by (by apply result_when).
  rewrite run_bind_result in H.
  destruct (need_hashable Name) as [[]| |] eqn:Hhash; [|discriminate H..].
  by exists Name, samples_and_wells.
Qed.


End Collections.



(** ** The warning on the calibration triangle *)

Lemma trace_bind_Forall {A B} (P : event → Prop) (m : run A) (f : A → run B) :
  Forall P (trace m) → (∀ a, Forall P (trace (f a))) → Forall P (trace (m ≫= f)).
Proof.
  intros Hm Hf. unfold mbind, run_bind. destruct (result m) as [a| |]; cbn; [|done..].
  apply Forall_app. split; [done|apply Hf].
Qed.

Lemma trace_bind_l {A B} (m : run A) (f : A → run B) (e : event) :
  e ∈ trace m → e ∈ trace (m ≫= f).
Proof.
  intros He. unfold mbind, run_bind. destruct (result m); cbn; [|done..].
  apply elem_of_app. by left.
Qed.

Lemma trace_bind_r {A B} (m : run A) (f : A → run B) (a : A) (e : event) :
  result m = Ok a → e ∈ trace (f a) → e ∈ trace (m ≫= f).
Proof.
  intros Hm He. rewrite (run_bind_Ok _ _ _ Hm). cbn. apply elem_of_app. by right.
Qed.

Lemma np_lt_quarter (n d : nat) :
  np_lt (true_divide n d) (1 # 4) = true ↔ 0 < d ∧ 4 * n < d.
Proof.
  destruct d as [|d].
  - destruct n; cbn; split; first [discriminate | lia].
  - cbn [true_divide np_lt]. unfold Qle_bool. cbn [Qnum Qden].
    rewrite negb_true_iff, Z.leb_gt.
    assert (Z.pos (Pos.of_nat (S d)) = Z.of_nat (S d)) as ->.
    { rewrite <-positive_nat_Z, Nat2Pos.id by done. done. }
    lia.
Qed.

Section Triangle.
Context {float : Type}.
Variable intersects : @Geometry float → @Geometry float → bool.
Variable simplify : Z → @Geometry float → @Geometry float.
Implicit Types (df : @GeoDataFrame float) (r : @Feature float).

Lemma map_run_extract_coordinates_trace (P : event → Prop) (gs : list (@Geometry float)) :
  (∀ t, P (Write (GeometryNotSupported t))) →
  Forall P (trace (map_run extract_coordinates gs)).
Proof.
  intros HP. induction gs as [|g gs IH]; [constructor|].
  cbn [map_run]. apply trace_bind_Forall.
  - destruct g; cbn; repeat constructor; apply HP.
  - intros cs. apply trace_bind_Forall; [exact IH|]. intros css. constructor.
Qed.

Lemma check_calibration_names_Forall (P : event → Prop) df (names : list string) :
  (∀ m, P (Log ERROR m)) → Forall P (trace (check_calibration_names df names)).
Proof.
  intros HP. rewrite check_calibration_names_trace.
  generalize (CalibNamesPassed names). intros passed.
  induction names as [|p names' IH]; [constructor|].
  rewrite bind_cons. apply Forall_app. split; [|exact IH].
  destruct (bool_decide (Some p ∉ name <$> rows df)); repeat constructor; apply HP.
Qed.

(** X13. The warning that less than a quarter of the objects intersect the
    calibration triangle is written exactly when there is at least one
    Polygon or LineString and four times the number of those that
    intersect the triangle is less than their number.  In a file without
    any Polygon or LineString the warning is not written. *)
Theorem load_and_QC_geojson_file_low_intersect df (names : calibpoint_names) calib_np_array :
  has_name df = true →
  mapO (calib_xy df) (names_list names) = Ok calib_np_array →
  let hits :=
    length (filter (λ r, geom_type (geometry r) ∈ ["Polygon"; "LineString"]
                         ∧ intersects (geometry r) (Polygon calib_np_array []) = true)
                   (rows df)) in
  let total :=
    length (filter (λ r, geom_type (geometry r) ∈ ["Polygon"; "LineString"]) (rows df)) in
  Write LowIntersect ∈ trace (load_and_QC_geojson_file intersects simplify df names)
  ↔ 0 < total ∧ 4 * hits < total.
Proof.
  intros Hname Hcalib hits total.
  assert (intersect_fraction intersects df calib_np_array = true_divide hits total) as Hfr.
  { unfold intersect_fraction. by rewrite intersects_column_hits. }
  rewrite <-np_lt_quarter, <-Hfr. clear Hfr. clearbody hits total.
  unfold load_and_QC_geojson_file. rewrite Hname, Hcalib. cbn zeta.
  assert (∀ (A : Type) (o : outcome A), Forall (λ e, e ≠ Write LowIntersect) (trace (lift o)))
    as Hlift by (intros; constructor).
  assert (∀ e, e ≠ Write LowIntersect →
               Forall (λ e, e ≠ Write LowIntersect) (trace (emit e))) as Hemit.
  { intros e He. by constructor. }
  destruct (np_lt (intersect_fraction intersects df calib_np_array) (1 # 4)) eqn:Hlt.
  - split; [done|]. intros _.
    do 4 (apply trace_bind_r with tt; [done|]).
    apply trace_bind_r with tt; [apply check_calibration_names_result|].
    apply trace_bind_r with calib_np_array; [done|].
    do 2 (apply trace_bind_r with tt; [done|]).
    apply trace_bind_l. rewrite Hlt. cbn. apply elem_of_cons. by left.
  - split; [|done]. intros Hin. exfalso.
    refine (proj1 (Forall_forall (λ e, e ≠ Write LowIntersect) _) _ _ Hin eq_refl).
    clear Hin.
    do 4 (apply trace_bind_Forall; [first [apply Hemit; discriminate | by constructor]|intros ?]).
    apply trace_bind_Forall; [apply check_calibration_names_Forall; discriminate|intros ?].
    rewrite run_bind_lift_Ok, Hlt.
    repeat first
      [ apply trace_bind_Forall; [|intros ?]
      | apply Hemit; discriminate
      | apply Hlift
      | apply check_calibration_names_Forall; discriminate
      | apply map_run_extract_coordinates_trace; discriminate
      | by constructor
      | match goal with |- context [when ?b _] => destruct b; cbn [when] end ].
Qed.

End Triangle.

Lemma load_and_QC_geojson_file_low_intersect_witness :
  Write LowIntersect
    ∈ trace (load_and_QC_geojson_file (λ _ _, false) (λ _ g, g) with_square
               ("calib1", "calib2", "calib3")).
Proof.
  destruct (load_and_QC_geojson_file_low_intersect (λ _ _, false) (λ _ g, g) with_square
              ("calib1", "calib2", "calib3") [(0, 0); (10, 0); (0, 10)]%Z) as [_ Hwarn];
    [vm_compute; reflexivity..|].
  apply Hwarn. vm_compute. lia.
Defined.

(** ** The success messages *)

Lemma shown_iff_bind {A} (e : event) (m : run A) (f : A → run unit) :
  Forall (λ e', e' ≠ e) (trace m) →
  (∀ a, e ∈ trace (f a) ↔ result (f a) = Ok tt) →
  e ∈ trace (m ≫= f) ↔ result (m ≫= f) = Ok tt.
Proof.
  intros Hm Hf. unfold mbind, run_bind.
  assert (e ∉ trace m) as Hnot.
  { intros Hin. by apply (proj1 (Forall_forall _ _) Hm e Hin). }
  destruct (result m) as [a| |]; cbn [trace result].
  - rewrite elem_of_app, <-Hf. tauto.
  - split; [done|discriminate].
  - split; [done|discriminate].
Qed.

Lemma for_each_Forall {A} (P : event → Prop) (l : list A) (body : A → run unit) :
  (∀ x, Forall P (trace (body x))) → Forall P (trace (for_each l body)).
Proof.
  intros Hbody. induction l as [|x l IH]; [constructor|].
  cbn [for_each]. apply trace_bind_Forall; [apply Hbody|]. intros _. exact IH.
Qed.

Lemma check_wells_Forall (P : event → Prop) (wells : list pyval) (warning_limit : nat) :
  (∀ well, P (Write (WellNotAcceptable well))) →
  Forall P (trace (check_wells wells warning_limit)).
Proof.
  intros HP. rewrite (proj2 (check_wells_counts wells warning_limit)).
  apply Forall_fmap, Forall_forall. intros well _. apply HP.
Qed.

Section Success.
Context {float : Type}.
Variable intersects : @Geometry float → @Geometry float → bool.
Variable simplify : Z → @Geometry float → @Geometry float.
Implicit Types (df : @GeoDataFrame float) (r : @Feature float).

(** X14. Each of the two checks shows its success message exactly when it
    has run to its end: the message is in what the check shows if and only
    if the check neither raised an exception nor stopped the run. *)
Theorem success_message_iff_completed df (names : calibpoint_names) (input : string) :
  (Success FileQCComplete ∈ trace (load_and_QC_geojson_file intersects simplify df names)
   ↔ result (load_and_QC_geojson_file intersects simplify df names) = Ok tt)
  ∧ (Success SamplesWellsQCDone ∈ trace (load_and_QC_SamplesandWells df names input)
     ↔ result (load_and_QC_SamplesandWells df names input) = Ok tt).
Proof.
  split.
  - unfold load_and_QC_geojson_file. cbn zeta.
    repeat first
      [ apply shown_iff_bind; [|intros ?]
      | apply check_calibration_names_Forall; discriminate
      | apply map_run_extract_coordinates_trace; discriminate
      | by repeat constructor
      | match goal with
        | |- context [when ?b _] => destruct b; cbn [when]
        | |- context [if has_name ?d then _ else _] => destruct (has_name d)
        end ].
  - unfold load_and_QC_SamplesandWells. cbn zeta.
    repeat first
      [ apply shown_iff_bind; [|intros ?]
      | apply check_wells_Forall; discriminate
      | apply for_each_Forall; intros ?
      | by repeat constructor
      | match goal with
        | |- context [when ?b _] => destruct b; cbn [when]
        end ].
Qed.

End Success.

(** ** Cleaning and matching, once more *)

Lemma dict_set_set {K V} `{EqDecision K} (d : dict K V) (k : K) (v : V) :
  dict_set (dict_set d k v) k v = dict_set d k v.
Proof.
  induction d as [|[k0 v0] d IH]; cbn [dict_set].
  - by rewrite decide_True.
  - destruct (decide (k0 = k)) as [->|Hne]; cbn [dict_set].
    + by rewrite decide_True.
    + by rewrite decide_False, IH.
Qed.

Section Again.
Context {float : Type}.
Implicit Types (df : @GeoDataFrame float) (r : @Feature float).

(** X15. [check_ids] changes the table it is given: the name column
    becomes text without white space at either end, in the sense of
    [str.isspace()]: the first and the last character of a name are no
    white space, be it ASCII or not, and stripping a name again changes
    nothing.  Checking the same shapes against the table it leaves gives
    the same verdict and the same messages, and leaves that table as it
    is. *)
Theorem check_ids_again (shapes : @GeoDataFrame float) (metadata : MetadataTable)
    (metadata_name_key : string) (verdict : bool) (stripped_table : MetadataTable) :
  result (check_ids shapes metadata metadata_name_key) = Ok (verdict, stripped_table) →
  check_ids shapes stripped_table metadata_name_key
  = Run (trace (check_ids shapes metadata metadata_name_key)) (Ok (verdict, stripped_table))
  ∧ ∃ names,
      get_column stripped_table metadata_name_key = Ok (StrCol (Some <$> names))
      ∧ Forall (λ n, (∀ c, head (characters (list_ascii_of_string n)) = Some c →
                           isspace c = false)
                     ∧ (∀ c, last (characters (list_ascii_of_string n)) = Some c →
                             isspace c = false)
                     ∧ strip n = n) names.
Proof.
  unfold check_ids. intros Hres.
  destruct (get_column metadata metadata_name_key) as [col| |] eqn:Hcol;
    [|discriminate Hres..].
  rewrite run_bind_lift_Ok in Hres |- *. cbn zeta in Hres |- *.
  destruct (need_hashable _) as [[]| |] eqn:Hhash; [|discriminate Hres..].
  rewrite run_bind_lift_Ok in Hres |- *.
  set (stripped := strip <$> astype_str col) in *.
  set (table := dict_set metadata metadata_name_key (StrCol (Some <$> stripped))) in *.
  assert (stripped_table = table) as ->.
  { destruct (bool_decide _) in Hres; cbn in Hres; by injection Hres as _ <-. }
  assert (get_column table metadata_name_key = Ok (StrCol (Some <$> stripped))) as Hcol'.
  { unfold table. rewrite get_column_set. by rewrite decide_True. }
  assert (strip <$> astype_str (StrCol (Some <$> stripped)) = stripped) as Hsame.
  { cbn [astype_str]. rewrite <-!list_fmap_compose. unfold stripped.
    rewrite <-list_fmap_compose. apply list_fmap_ext. intros _ s _. cbn. apply strip_idemp. }
  split.
  - rewrite Hcol'. rewrite run_bind_lift_Ok. cbn zeta. rewrite Hsame.
    rewrite run_bind_lift_Ok.
    assert (dict_set table metadata_name_key (StrCol (Some <$> stripped)) = table) as ->.
    { unfold table. apply dict_set_set. }
    destruct (bool_decide _) eqn:Hsub.
    + cbn in Hres |- *. by injection Hres as <-.
    + cbn in Hres |- *. by injection Hres as <-.
  - exists stripped. split; [done|].
    apply Forall_fmap, Forall_forall. intros s _. cbn.
    destruct (strip_ends s) as [Hhead Hlast].
    split; [exact Hhead|]. split; [exact Hlast|apply strip_idemp].
Qed.

(** X16. What [QC_geojson_file] keeps.  On a table with a classification
    column whose class names can be read, the cleaned table has, in the
    order of the file, exactly the features that are not points, have a
    classification and are not MultiPolygons; the geometry, the name and
    the classification of each are as in the file, its class name is the
    one read from its classification, and two lines are logged.  Without
    a classification column the function raises [KeyError] after these two
    lines. *)
Theorem QC_geojson_file_rows df :
  (has_classification df = false →
   QC_geojson_file df
   = Run [Log INFO (LoadedForColoring (length (rows df))); Log INFO PointsRemoved]
         (Raise KeyError))
  ∧ (∀ cleaned,
       result (QC_geojson_file df) = Ok cleaned →
       trace (QC_geojson_file df)
       = [Log INFO (LoadedForColoring (length (rows df))); Log INFO PointsRemoved]
       ∧ has_name cleaned = has_name df
       ∧ has_classification cleaned = true
       ∧ Forall2 (λ r r',
                    geometry r' = geometry r ∧ name r' = name r
                    ∧ classification r' = classification r
                    ∧ ∃ v, classification_name_of (default PNone (classification r)) = Ok v
                           ∧ classification_name r' = Some v)
                 (filter (λ r, geom_type (geometry r) ≠ "MultiPolygon")
                    (filter (λ r, notna r)
                       (filter (λ r, negb (is_Point (geometry r))) (rows df))))
                 (rows cleaned)).
Proof.
  split.
  - intros Hclass. unfold QC_geojson_file. rewrite Hclass. reflexivity.
  - intros cleaned Hres. unfold QC_geojson_file in *.
    destruct (has_classification df) eqn:Hclass; [|discriminate Hres].
    cbn [need_column] in *. do 2 run_step. rewrite run_bind_lift_Ok.
    do 2 rewrite run_bind_emit in Hres. cbn [result] in Hres.
    rewrite run_bind_lift_Ok in Hres.
    destruct (derive_classification_name _) as [rows4| |] eqn:Hderive;
      [|discriminate Hres..].
    rewrite run_bind_lift_Ok in Hres |- *. cbn in Hres. injection Hres as <-.
    cbn [with_rows has_name has_classification rows trace]. 
    split; [done|]. split; [done|]. split; [done|].
    apply mapO_Ok_inv in Hderive.
    eapply Forall2_impl; [exact Hderive|]. intros r r' Hr. cbn beta in Hr.
    destruct (classification_name_of (default PNone (classification r))) as [v| |];
      [|cbn in Hr; discriminate Hr..].
    cbn in Hr. injection Hr as <-. cbn. repeat split. by exists v.
Qed.

End Again.

Lemma QC_geojson_file_rows_witness :
  trace (QC_geojson_file with_square)
  = [Log INFO (LoadedForColoring 4); Log INFO PointsRemoved].
Proof.
  destruct (QC_geojson_file_rows with_square) as [_ Hrows].
  destruct (Hrows (with_rows with_square
                     [set_classification_name
                        (square "{'name': 'tumor', 'color': [200, 0, 0]}") (PStr "tumor")]))
    as [Htrace _]; [vm_compute; reflexivity|].
  exact Htrace.
Defined.

Lemma check_ids_again_witness :
  check_ids with_square (dict_set two_names "Class name" (StrCol [Some "tumor"; Some "stroma"]))
    "Class name"
  = Run (trace (check_ids with_square two_names "Class name"))
        (Ok (false, dict_set two_names "Class name" (StrCol [Some "tumor"; Some "stroma"]))).
Proof.
  apply (check_ids_again with_square two_names "Class name" false).
  vm_compute. reflexivity.
Defined.

(** ** Colours by category *)

Lemma lookup_mjoin_replicate {A} (n : nat) (l : list A) (i : nat) :
  i < n * length l → mjoin (replicate n l) !! i = l !! (i mod length l).
Proof.
  revert i. induction n as [|n IH]; intros i Hi; [lia|].
  change (mjoin (replicate (S n) l)) with (l ++ mjoin (replicate n l)).
  destruct (decide (i < length l)) as [Hlt|Hge].
  - rewrite lookup_app_l by done. by rewrite Nat.mod_small.
  - rewrite lookup_app_r by lia. rewrite IH by lia. f_equal.
    assert (length l ≠ 0) by lia.
    replace i with ((i - length l) + 1 * length l) at 2 by lia.
    by rewrite Nat.Div0.mod_add.
Qed.

Lemma lookup_cycle {A} (n : nat) (l : list A) (i : nat) :
  i < n → l ≠ [] → cycle n l !! i = l !! (i mod length l).
Proof.
  intros Hi Hl. unfold cycle. rewrite lookup_take_lt by done.
  apply lookup_mjoin_replicate. destruct l; [done|]. simpl. nia.
Qed.

Lemma length_cycle {A} (n : nat) (l : list A) : l ≠ [] → length (cycle n l) = n.
Proof.
  intros Hl. unfold cycle. rewrite length_take.
  assert (n ≤ length (mjoin (replicate n l))); [|lia].
  induction n as [|n IH]; [simpl; lia|].
  change (mjoin (replicate (S n) l)) with (l ++ mjoin (replicate n l)). rewrite length_app.
  assert (0 < length l) by (destruct l; [done|simpl; lia]). lia.
Qed.

Lemma NoDup_unique {A} `{EqDecision A} (l : list A) : NoDup (unique l).
Proof.
  unfold unique. induction l as [|x l IH] using rev_ind; [constructor|].
  rewrite foldl_app. cbn [foldl]. case_decide; [done|].
  apply NoDup_app. split; [done|]. split; [|apply NoDup_singleton].
  intros y Hy ->%list_elem_of_singleton. done.
Qed.

Lemma categories_text (l : list (option string)) :
  NoDup (categories (StrCol l)) ∧ ∀ s, s ∈ categories (StrCol l) ↔ Some s ∈ l.
Proof.
  cbn [categories]. split.
  - rewrite merge_sort_Permutation. apply NoDup_unique.
  - intros s. rewrite merge_sort_Permutation, elem_of_unique, list_elem_of_omap.
    split.
    + intros (o & Ho & Hs). cbn in Hs. by subst.
    + intros Hs. by exists (Some s).
Qed.

Lemma color_dict_lookup (variable : column) (i : nat) (s : string) :
  NoDup (categories variable) →
  categories variable !! i = Some s →
  ∃ rgb, default_colors !! (i mod 5) = Some rgb
         ∧ dict_get (color_dict variable) s = Some rgb.
Proof.
  intros Hnodup Hi. unfold color_dict, dict_of_pairs.
  destruct (lookup_lt_is_Some_2 default_colors (i mod 5)) as [rgb Hrgb].
  { apply Nat.mod_upper_bound. done. }
  exists rgb. split; [done|].
  pose proof (lookup_lt_Some _ _ _ Hi) as Hlt.
  assert (cycle (length (categories variable)) default_colors !! i = Some rgb) as Hc.
  { by rewrite lookup_cycle. }
  apply (dict_get_foldl_last _ _ i).
  - apply lookup_zip_with_Some. by exists s, rgb.
  - intros j v' Hj Hzip.
    apply lookup_zip_with_Some in Hzip as (s' & w & Heq & Hs' & _).
    injection Heq as <- <-.
    pose proof (NoDup_lookup _ _ _ _ Hnodup Hi Hs'). lia.
Qed.

Lemma colour_not_text (color_dict : dict string (list Z)) (x : option pyval) :
  (x = None ∨ x = Some PNone ∨ ∃ z, x = Some (PInt z)) →
  colour color_dict x = Raise KeyError.
Proof. intros [->|[->|[z ->]]]; reflexivity. Qed.

Lemma colour_cell (color_dict : dict string (list Z)) (variable : column)
    (x : option pyval) :
  (x = None ∨ ∃ v, x = Some v ∧ v ∈ column_cells variable) →
  colour color_dict x = Raise KeyError ∨ ∃ c, colour color_dict x = Ok c.
Proof.
  intros [->|(v & -> & Hv)]; [by left|].
  destruct variable as [l|l]; cbn [column_cells] in Hv;
    apply list_elem_of_fmap in Hv as (y & -> & _).
  - by left.
  - destruct y as [s|]; [|by left]. cbn [colour].
    destruct (dict_get color_dict s); [right; by eexists|by left].
Qed.

Lemma mapO_Raise {A B} (f : A → outcome B) (e : exn) (l : list A) :
  Forall (λ x, f x = Raise e ∨ ∃ y, f x = Ok y) l →
  Exists (λ x, f x = Raise e) l →
  mapO f l = Raise e.
Proof.
  induction 1 as [|x l Hx _ IH]; intros Hex; [by apply Exists_nil in Hex|].
  cbn [mapO]. destruct Hx as [->|[y Hy]]; [done|].
  rewrite Hy. cbn [mbind outcome_bind].
  apply Exists_cons in Hex as [Hex|Hex]; [congruence|].
  by rewrite (IH Hex).
Qed.

Section Colouring.
Context {float : Type}.
Implicit Types (geojson shapes : @GeoDataFrame float).

Lemma process_geojson_with_metadata_Ok_inv geojson (metadata : MetadataTable)
    (key varkey : string) (joined : list (@Feature float * option pyval)) :
  result (process_geojson_with_metadata geojson (Some metadata) key varkey) = Ok joined →
  ∃ shapes col names variable,
    result (QC_geojson_file geojson) = Ok shapes
    ∧ get_column metadata key = Ok col
    ∧ get_column (dict_set metadata key (StrCol (Some <$> (strip <$> astype_str col)))) varkey
      = Ok variable
    ∧ joined = (λ r, (r, dict_get (dict_of_pairs (zip names (column_cells variable)))
                                  (default PNone (classification_name r))))
                 <$> rows shapes.
Proof.
  unfold process_geojson_with_metadata. intros H.
  apply run_bind_Ok_inv in H as (shapes & Hshapes & H).
  cbn [parse_metadata_csv] in H. rewrite run_bind_ret in H.
  apply run_bind_Ok_inv in H as ([verdict table] & Hcheck & H).
  cbn [fst snd] in H.
  destruct verdict; [|discriminate H]. cbn [py_assert] in H. rewrite run_bind_lift_Ok in H.
  unfold check_ids in Hcheck.
  destruct (get_column metadata key) as [col| |] eqn:Hcol; [|discriminate Hcheck..].
  rewrite run_bind_lift_Ok in Hcheck. cbn zeta in Hcheck.
  destruct (need_hashable _) as [[]| |]; [|discriminate Hcheck..].
  rewrite run_bind_lift_Ok in Hcheck.
  assert (table = dict_set metadata key (StrCol (Some <$> (strip <$> astype_str col)))) as ->.
  { destruct (bool_decide _) in Hcheck; cbn in Hcheck;
      [by injection Hcheck as <-|discriminate Hcheck]. }
  rewrite run_bind_result in H. cbn [lift result] in H.
  destruct (get_column (dict_set _ _ _) key) as [names| |];
    cbn [mbind outcome_bind] in H; [|discriminate H..].
  rewrite run_bind_result in H. cbn [lift result] in H.
  destruct (get_column (dict_set _ _ _) varkey) as [variable| |] eqn:Hvar;
    cbn [mbind outcome_bind] in H; [|discriminate H..].
  cbn in H. injection H as <-.
  exists shapes, col, (column_cells names), variable. repeat split; reflexivity || assumption.
Qed.


End Colouring.


(** ** The scheme as a file, read back *)

Lemma list_ascii_of_string_app (a b : string) :
  list_ascii_of_string (a +:+ b) = list_ascii_of_string a ++ list_ascii_of_string b.
Proof. induction a as [|c a IH]; [done|]. rewrite append_cons. cbn. by rewrite IH. Qed.

Lemma word_char_code (c : ascii) (n : N) :
  word_char c → (n < 33 ∨ 126 < n ∨ ascii_of_N n = dquote ∨ ascii_of_N n = backslash)%N →
  (N_of_ascii c =? n)%N = false.
Proof.
  intros [[Hlo Hhi] [Hq Hb]] Hn. apply N.eqb_neq. intros Heq.
  destruct Hn as [Hn|[Hn|[Hn|Hn]]]; [lia|lia|..];
    rewrite <-Heq, ascii_N_embedding in Hn; done.
Qed.

Lemma word_char_not (c : ascii) :
  word_char c →
  Ascii.eqb c dquote = false ∧ Ascii.eqb c backslash = false
  ∧ Ascii.eqb c newline = false ∧ Ascii.eqb c space = false.
Proof.
  intros Hc. pose proof Hc as [[Hlo Hhi] [Hq Hb]].
  repeat split; apply Ascii.eqb_neq; try done.
  - intros ->. unfold newline in Hlo. simpl in Hlo. lia.
  - intros ->. unfold space in Hlo. simpl in Hlo. lia.
Qed.

Lemma json_escape_word (c : ascii) : word_char c → json_escape (N_of_ascii c) = [c].
Proof.
  intros Hc. unfold json_escape.
  rewrite !(word_char_code c) by (done || (left; lia) || (right; right; by (left + right))).
  destruct Hc as [[Hlo Hhi] _].
  rewrite (proj2 (N.leb_le 32 _)), (proj2 (N.leb_le _ 126)) by lia.
  cbn [andb]. by rewrite ascii_N_embedding.
Qed.

Lemma code_points_ascii (l : list ascii) :
  Forall (λ c, (N_of_ascii c < 128)%N) l → code_points l = Some (N_of_ascii <$> l).
Proof.
  induction 1 as [|c l Hc _ IH]; [done|]. cbn [code_points]. cbn zeta.
  rewrite (proj2 (N.ltb_lt _ _) Hc), IH. done.
Qed.

Lemma json_string_word (s : string) :
  chars_all word_char s →
  json_string s
  = Some (string_of_list_ascii (dquote :: list_ascii_of_string s ++ [dquote])).
Proof.
  unfold chars_all, json_string. intros Hs.
  rewrite code_points_ascii.
  2:{ eapply Forall_impl; [exact Hs|]. intros c [[_ Hhi] _]. lia. }
  assert ((N_of_ascii <$> list_ascii_of_string s) ≫= json_escape
          = list_ascii_of_string s) as Hescape.
  { induction Hs as [|c l Hc _ IH]; [done|].
    by rewrite fmap_cons, bind_cons, IH, (json_escape_word c Hc). }
  cbn [mbind option_bind]. by rewrite Hescape.
Qed.

Lemma squeeze_processed (text : string) :
  list_ascii_of_string (samples_and_wells_processed text)
  = squeeze (list_ascii_of_string text).
Proof. unfold samples_and_wells_processed, squeeze. by rewrite !replace_empty_chars. Qed.

Lemma squeeze_keep (c : ascii) (l : list ascii) :
  Ascii.eqb c space = false → Ascii.eqb c newline = false →
  squeeze (c :: l) = c :: squeeze l.
Proof.
  intros Hsp%Ascii.eqb_neq Hnl%Ascii.eqb_neq. unfold squeeze.
  rewrite (filter_cons (λ c, c ≠ newline)), decide_True by done.
  by rewrite (filter_cons (λ c, c ≠ space)), decide_True by done.
Qed.

Lemma squeeze_space (l : list ascii) : squeeze (" "%char :: l) = squeeze l.
Proof.
  unfold squeeze. rewrite (filter_cons (λ c, c ≠ newline)), decide_True by done.
  rewrite (filter_cons (λ c, c ≠ space)), decide_False; [done|].
  intros Hne. by apply Hne.
Qed.

Lemma squeeze_newline (l : list ascii) : squeeze (newline :: l) = squeeze l.
Proof.
  unfold squeeze. rewrite (filter_cons (λ c, c ≠ newline)), decide_False; [done|].
  intros Hne. by apply Hne.
Qed.

Lemma squeeze_word (l rest : list ascii) :
  Forall word_char l → squeeze (l ++ rest) = l ++ squeeze rest.
Proof.
  induction 1 as [|c l Hc _ IH]; [done|].
  destruct (word_char_not c Hc) as (_ & _ & Hnl & Hsp).
  cbn [app]. by rewrite squeeze_keep, IH.
Qed.

Lemma squeeze_entry (kv : string * string) (rest : list ascii) :
  chars_all word_char kv.1 → chars_all word_char kv.2 →
  squeeze
    (list_ascii_of_string
       (string_of_list_ascii (dquote :: list_ascii_of_string kv.1 ++ [dquote])
        +:+ ": "
        +:+ string_of_list_ascii (dquote :: list_ascii_of_string kv.2 ++ [dquote]))
     ++ rest)
  = compact_entry kv (squeeze rest).
Proof.
  intros Hk Hv. unfold compact_entry.
  rewrite !list_ascii_of_string_app, !list_ascii_of_string_of_list_ascii.
  change (list_ascii_of_string ": ") with [":"%char; " "%char].
  cbn [app]. rewrite <-!app_assoc. cbn [app].
  rewrite (squeeze_keep dquote) by done. rewrite (squeeze_word _ _ Hk).
  rewrite (squeeze_keep dquote) by done. rewrite (squeeze_keep ":") by done.
  rewrite squeeze_space. rewrite (squeeze_keep dquote) by done.
  rewrite <-?app_assoc. cbn [app].
  rewrite (squeeze_word _ _ Hv). by rewrite (squeeze_keep dquote) by done.
Qed.

Lemma json_dump_word (d : dict string string) :
  Forall (λ kv, chars_all word_char kv.1 ∧ chars_all word_char kv.2) d →
  ∃ text,
    json_dump d = Some text
    ∧ list_ascii_of_string (samples_and_wells_processed text)
      = "{"%char :: compact_entries d [].
Proof.
  intros Hd. unfold json_dump.
  set (entry := λ kv : string * string,
         string_of_list_ascii (dquote :: list_ascii_of_string kv.1 ++ [dquote])
         +:+ ": "
         +:+ string_of_list_ascii (dquote :: list_ascii_of_string kv.2 ++ [dquote])).
  assert (mapM (λ kv : string * string,
                  k ← json_string kv.1; v ← json_string kv.2; Some (k +:+ ": " +:+ v)) d
          = Some (entry <$> d)) as ->.
  { apply mapM_Some_2, Forall2_fmap_r, Forall_Forall2_diag.
    eapply Forall_impl; [exact Hd|]. intros kv [Hk Hv].
    by rewrite (json_string_word _ Hk), (json_string_word _ Hv). }
  cbn [mbind option_bind]. eexists. split; [reflexivity|].
  rewrite squeeze_processed.
  destruct d as [|kv d]; [by vm_compute|].
  rewrite fmap_cons.
  change (match entry kv :: (entry <$> d) with [] => "{}" | _ => ?t end) with t.
  rewrite !list_ascii_of_string_app.
  change (list_ascii_of_string "{" ++ list_ascii_of_string newline_indent ++ ?l)
    with ("{"%char :: newline :: " "%char :: " "%char :: " "%char :: " "%char :: l).
  rewrite (squeeze_keep "{") by done. rewrite squeeze_newline, !squeeze_space.
  f_equal.
  revert kv Hd. induction d as [|kv' d IH]; intros kv Hd.
  - apply Forall_cons in Hd as [[Hk Hv] _]. cbn [fmap list_fmap join compact_entries].
    rewrite (squeeze_entry kv _ Hk Hv). by vm_compute.
  - apply Forall_cons in Hd as [[Hk Hv] Hd].
    rewrite fmap_cons.
    change (join ?sep (entry kv :: entry kv' :: ?es))
      with (entry kv +:+ sep +:+ join sep (entry kv' :: es)).
    cbn [compact_entries]. rewrite !list_ascii_of_string_app, <-!app_assoc.
    rewrite (squeeze_entry kv _ Hk Hv). f_equal.
    change (list_ascii_of_string "," ++ list_ascii_of_string newline_indent ++ ?l)
      with (","%char :: newline :: " "%char :: " "%char :: " "%char :: " "%char :: l).
    rewrite (squeeze_keep ",") by done. rewrite squeeze_newline, !squeeze_space.
    f_equal. rewrite <-fmap_cons. by apply IH.
Qed.

Lemma scan_string_word (l r : list ascii) :
  Forall word_char l → scan_string false dquote (l ++ dquote :: r) = Ok (l, r).
Proof.
  induction 1 as [|c l Hc _ IH]; [done|].
  destruct (word_char_not c Hc) as (Hq & Hb & Hnl & _).
  cbn [app scan_string]. by rewrite Hq, Hnl, Hb, IH.
Qed.

Lemma string_literal_word (l : list ascii) (c : ascii) (r : list ascii) :
  Forall word_char l → Ascii.eqb c dquote = false →
  string_literal dquote (l ++ dquote :: c :: r) = Ok (l, c :: r).
Proof.
  intros Hl Hc. rewrite <-(scan_string_word l (c :: r) Hl). unfold string_literal.
  destruct Hl as [|a l Ha Hl].
  - cbn [app]. by rewrite Hc, andb_false_r.
  - destruct (word_char_not a Ha) as (Hq & _). cbn [app].
    destruct l as [|b l]; cbn [app]; by rewrite Hq.
Qed.

Lemma parse_value_word (level n : nat) (s : string) (c : ascii) (r : list ascii) :
  chars_all word_char s →
  is_ws c = false → Ascii.eqb c dquote || Ascii.eqb c squote = false →
  parse_value (S level) (S n) (dquote :: list_ascii_of_string s ++ dquote :: c :: r)
  = Ok (PStr s, c :: r).
Proof.
  intros Hs Hws Hquote.
  change (parse_value (S level) (S n) (dquote :: ?l))
    with (p ← string_literal dquote l;
          match skip_ws p.2 with
          | c' :: _ =>
              if Ascii.eqb c' dquote || Ascii.eqb c' squote then
                q ← parse_value (S level) n p.2;
                match q.1 with
                | PStr s2 => Ok (PStr (string_of_list_ascii p.1 +:+ s2), q.2)
                | _ => Raise SyntaxError
                end
              else Ok (PStr (string_of_list_ascii p.1), p.2)
          | [] => Ok (PStr (string_of_list_ascii p.1), p.2)
          end).
  rewrite (string_literal_word _ _ _ Hs) by (by apply orb_false_elim in Hquote as [? _]).
  cbn [mbind outcome_bind fst snd skip_ws].
  rewrite Hws, Hquote. by rewrite string_of_list_ascii_of_string.
Qed.

Lemma parse_entries_compact (level fuel : nat) (d : dict string string)
    (rest : list ascii) :
  length d < fuel →
  Forall (λ kv, chars_all word_char kv.1 ∧ chars_all word_char kv.2) d →
  parse_entries (S level) fuel (compact_entries d rest)
  = Ok ((λ kv, (PStr kv.1, PStr kv.2)) <$> d, rest).
Proof.
  revert fuel. induction d as [|kv d IH]; intros fuel Hfuel Hd.
  - destruct fuel as [|m]; [simpl in Hfuel; lia|]. reflexivity.
  - destruct fuel as [|m]; [simpl in Hfuel; lia|].
    apply Forall_cons in Hd as [[Hk Hv] Hd].
    assert (∃ m', m = S m') as [m' ->].
    { destruct m; [simpl in Hfuel; lia|by eexists]. }
    assert (∀ tail,
              parse_entries (S level) (S (S m')) (compact_entry kv tail)
              = (v ← parse_value (S level) (S m')
                       (dquote :: list_ascii_of_string kv.2 ++ dquote :: tail);
                 match skip_ws v.2 with
                 | ","%char :: rest' =>
                     q ← parse_entries (S level) (S m') rest';
                     Ok ((PStr kv.1, v.1) :: q.1, q.2)
                 | "}"%char :: rest' => Ok ([(PStr kv.1, v.1)], rest')
                 | _ => Raise SyntaxError
                 end)) as Hstep.
    { intros tail. unfold compact_entry.
      change (parse_entries (S level) (S (S m')) (dquote :: ?l))
        with (k ← parse_value (S level) (S m') (dquote :: l);
              match skip_ws k.2 with
              | ":"%char :: rest =>
                  v ← parse_value (S level) (S m') rest;
                  match skip_ws v.2 with
                  | ","%char :: rest' =>
                      q ← parse_entries (S level) (S m') rest';
                      Ok ((k.1, v.1) :: q.1, q.2)
                  | "}"%char :: rest' => Ok ([(k.1, v.1)], rest')
                  | _ => Raise SyntaxError
                  end
              | _ => Raise SyntaxError
              end).
      rewrite (parse_value_word level m' kv.1 ":" _ Hk) by done. reflexivity. }
    destruct d as [|kv' d].
    + cbn [compact_entries]. rewrite Hstep.
      rewrite (parse_value_word level m' kv.2 "}" _ Hv) by done. reflexivity.
    + change (compact_entries (kv :: kv' :: d) rest)
        with (compact_entry kv (","%char :: compact_entries (kv' :: d) rest)).
      rewrite Hstep. rewrite (parse_value_word level m' kv.2 "," _ Hv) by done.
      cbn [mbind outcome_bind fst snd].
      change (skip_ws (","%char :: ?l)) with (","%char :: l). cbn iota.
      rewrite (IH (S m')); [reflexivity| |done].
      simpl in Hfuel |- *. lia.
Qed.

(** The compact text is made of visible characters: it holds no
    carriage return and no NUL. *)
Lemma compact_entries_visible (d : dict string string) (rest : list ascii) :
  Forall (λ kv, chars_all word_char kv.1 ∧ chars_all word_char kv.2) d →
  Forall (λ c, (33 <= N_of_ascii c)%N) rest →
  Forall (λ c, (33 <= N_of_ascii c)%N) (compact_entries d rest).
Proof.
  intros Hd Hrest.
  assert (∀ s, chars_all word_char s →
               Forall (λ c, (33 <= N_of_ascii c)%N) (list_ascii_of_string s)) as Hword.
  { intros s Hs. eapply Forall_impl; [exact Hs|]. intros c [[Hlo _] _]. exact Hlo. }
  assert (∀ kv tail, chars_all word_char kv.1 → chars_all word_char kv.2 →
                     Forall (λ c, (33 <= N_of_ascii c)%N) tail →
                     Forall (λ c, (33 <= N_of_ascii c)%N) (compact_entry kv tail))
    as Hentry.
  { intros kv tail Hk Hv Htail. unfold compact_entry.
    constructor; [by vm_compute|]. apply Forall_app. split; [by apply Hword|].
    do 3 (constructor; [by vm_compute|]). apply Forall_app. split; [by apply Hword|].
    constructor; [by vm_compute|done]. }
  induction Hd as [|kv d [Hk Hv] Hd IH]; [constructor; [by vm_compute|done]|].
  destruct d as [|kv' d].
  - cbn [compact_entries]. apply Hentry; [done..|]. constructor; [by vm_compute|done].
  - change (compact_entries (kv :: kv' :: d) rest)
      with (compact_entry kv (","%char :: compact_entries (kv' :: d) rest)).
    apply Hentry; [done..|]. constructor; [by vm_compute|exact IH].
Qed.

Lemma length_compact_entries (d : dict string string) (rest : list ascii) :
  length d < length (compact_entries d rest).
Proof.
  induction d as [|kv d IH]; [simpl; lia|].
  assert (∀ tail, length tail < length (compact_entry kv tail)) as Hentry.
  { intros tail. unfold compact_entry. cbn [length]. rewrite length_app. cbn [length].
    rewrite length_app. cbn [length]. lia. }
  destruct d as [|kv' d].
  - cbn [compact_entries]. specialize (Hentry ("}"%char :: rest)). simpl in *. lia.
  - change (compact_entries (kv :: kv' :: d) rest)
      with (compact_entry kv (","%char :: compact_entries (kv' :: d) rest)).
    specialize (Hentry (","%char :: compact_entries (kv' :: d) rest)).
    cbn [length] in *. lia.
Qed.

(** X18. A scheme written to a file by [json.dump] and pasted into the
    text area of step 2 is read back as the same mapping, when its keys
    are the keys of a dict and every key and every well is made of visible
    ASCII characters other than the double quote and the backslash: the
    cleaning deletes the newlines and the spaces of the layout only, and
    the parser returns the entries with their keys and wells, in order. *)
Theorem samples_and_wells_round_trip (samples_and_wells : dict string string) :
  NoDup (dict_keys samples_and_wells) →
  Forall (λ kv, chars_all word_char kv.1 ∧ chars_all word_char kv.2) samples_and_wells →
  ∃ text,
    json_dump samples_and_wells = Some text
    ∧ literal_eval (samples_and_wells_processed text)
      = Ok (PDict ((λ kv, (PStr kv.1, PStr kv.2)) <$> samples_and_wells)).
Proof.
  intros Hkeys Hd. destruct (json_dump_word _ Hd) as (text & Htext & Hchars).
  exists text. split; [done|]. unfold literal_eval. rewrite Hchars. cbn zeta.
  set (d := samples_and_wells) in *.
  pose proof (compact_entries_visible d [] Hd (Forall_nil_2 _)) as Hvisible.
  change (lstrip_space_tab ("{"%char :: ?l)) with ("{"%char :: l).
  rewrite universal_newlines_fixed.
  2:{ intros [Hin|Hin]%elem_of_cons; [discriminate Hin|].
      apply (proj1 (Forall_forall _ _) Hvisible) in Hin. vm_compute in Hin. by apply Hin. }
  rewrite bool_decide_false.
  2:{ intros [Hin|Hin]%elem_of_cons; [discriminate Hin|].
      apply (proj1 (Forall_forall _ _) Hvisible) in Hin. vm_compute in Hin. by apply Hin. }
  change (first_token false ("{"%char :: ?l)) with (Ok ("{"%char :: l)).
  cbn [mbind outcome_bind].
  replace (2 * length ("{"%char :: compact_entries d []) + 2)
    with (S (S (S (S (2 * length (compact_entries d [])))))) by (cbn [length]; lia).
  change (parse_value 0 (S ?n) ("{"%char :: ?l))
    with (p ← parse_entries 1 n l; d ← build_dict p.1; Ok (d, p.2)).
  rewrite parse_entries_compact; [|pose proof (length_compact_entries d []); lia|done].
  cbn [mbind outcome_bind fst snd]. unfold build_dict.
  assert (forallb (λ kv : pyval * pyval, hashable kv.1)
                  ((λ kv : string * string, (PStr kv.1, PStr kv.2)) <$> d) = true) as ->.
  { apply forallb_forall. intros kv Hin%list_elem_of_In.
    apply list_elem_of_fmap in Hin as (kv' & -> & _). done. }
  rewrite dict_of_pairs_NoDup; [done|].
  rewrite <-list_fmap_compose.
  change (fst ∘ (λ kv : string * string, (PStr kv.1, PStr kv.2)))
    with (PStr ∘ (fst : string * string → string)).
  rewrite list_fmap_compose. apply NoDup_fmap_2; [|exact Hkeys].
  intros x y Hxy. by injection Hxy.
Qed.

Lemma samples_and_wells_round_trip_witness :
  ∃ text,
    json_dump [("tumor_ctl_1", "C3"); ("tumor_ctl_2", "C5")] = Some text
    ∧ literal_eval (samples_and_wells_processed text)
      = Ok (PDict [(PStr "tumor_ctl_1", PStr "C3"); (PStr "tumor_ctl_2", PStr "C5")]).
Proof.
  apply (samples_and_wells_round_trip [("tumor_ctl_1", "C3"); ("tumor_ctl_2", "C5")]).
  - compute_done.
  - repeat constructor; compute_done.
Defined.

(** ** What the checks promise to the later steps *)

Lemma for_each_shows {A} (l : list A) (body : A → run unit) (x : A) (e : event) :
  (∀ y, result (body y) = Ok tt) → x ∈ l → e ∈ trace (body x) →
  e ∈ trace (for_each l body).
Proof.
  intros Hbody Hx He. rewrite (for_each_trace _ _ Hbody).
  apply list_elem_of_bind. by exists x.
Qed.

Section Promises.
Context {float : Type}.
Variable intersects : @Geometry float → @Geometry float → bool.
Variable simplify : Z → @Geometry float → @Geometry float.
Implicit Types (df : @GeoDataFrame float) (r : @Feature float).

(** X19. Every feature that the export leaves out for its class name was
    announced by the check of the samples and wells.  When that check
    runs to its end and no feature other than a point bears a calibration
    name, a feature that is not a point, has a classification and is not a
    MultiPolygon, and whose class name is not a key of the mapping, has a
    warning about its class name among what the check writes. *)
Theorem left_out_shapes_are_announced df (names : calibpoint_names) (input : string)
    (samples_and_wells : dict pyval pyval) r (class_name : pyval) :
  result (load_and_QC_SamplesandWells df names input) = Ok tt →
  literal_eval (samples_and_wells_processed input) = Ok (PDict samples_and_wells) →
  Forall (λ r, name r ∈ Some <$> names_list names → is_Point (geometry r) = true)
         (rows df) →
  r ∈ rows df →
  is_Point (geometry r) = false → notna r → geom_type (geometry r) ≠ "MultiPolygon" →
  classification_name_of (default PNone (classification r)) = Ok class_name →
  dict_mem samples_and_wells class_name = false →
  Write (NameNotInSamples class_name)
    ∈ trace (load_and_QC_SamplesandWells df names input).
Proof.
  intros Hrun Hparsed Hcalib Hr Hpoint Hna Hmulti Hclass Hkey.
  pose proof (load_and_QC_SamplesandWells_Ok_inv df names input Hrun)
    as (Name & d & HName & Hparsed' & Hhash).
  rewrite Hparsed in Hparsed'. injection Hparsed' as <-.
  assert (class_name ∈ Name) as Hin.
  { apply (mapO_Ok_elem_of _ _ _ class_name HName). exists r. split; [|done].
    apply list_elem_of_filter. split; [done|].
    apply list_elem_of_filter. split; [done|].
    apply list_elem_of_filter. split; [|done].
    intros Hcal. pose proof (proj1 (Forall_forall _ _) Hcalib r Hr Hcal) as Hp.
    congruence. }
  unfold load_and_QC_SamplesandWells in Hrun |- *.
  destruct (has_name df); [|discriminate Hrun].
  destruct (has_classification df); [|discriminate Hrun].
  cbn [need_column]. do 2 run_step. rewrite HName. run_step.
  rewrite Hparsed. run_step. cbn [as_dict]. run_step.
  apply trace_bind_r with (0 + length (unacceptable (dict_values samples_and_wells)));
    [apply check_wells_counts|].
  apply trace_bind_r with tt; [by apply result_when|].
  rewrite Hhash. run_step.
  apply trace_bind_l. apply (for_each_shows _ _ class_name).
  - intros y. by destruct (negb _).
  - by apply elem_of_unique.
  - rewrite Hkey. cbn. apply elem_of_cons. by left.
Qed.

(** X20. A file that passes the file check can be cleaned for colouring:
    when [load_and_QC_geojson_file] runs to its end, [QC_geojson_file]
    returns a table, and every shape of that table has, once simplified,
    a geometry whose coordinates can be extracted. *)
Theorem QC_geojson_file_after_file_check df (names : calibpoint_names) :
  result (load_and_QC_geojson_file intersects simplify df names) = Ok tt →
  ∃ cleaned,
    result (QC_geojson_file df) = Ok cleaned
    ∧ Forall (λ r, geom_type (simplify 1 (geometry r)) ∈ ["Polygon"; "LineString"])
             (rows cleaned).
Proof.
  intros Hfile.
  apply (load_and_QC_geojson_file_Ok_inv intersects simplify)
    in Hfile as (Hname & Hclass & _ & rows3' & Hderive & Hgeom).
  pose proof Hderive as [Hnames Hsame]%derive_classification_name_Ok_inv.
  rewrite QC_geojson_file_result, Hclass. cbn [need_column mbind outcome_bind].
  set (rows2 := filter (λ r, notna r)
                  (filter (λ r, negb (is_Point (geometry r))) (rows df))) in *.
  assert (Forall (λ r, ∃ v, classification_name_of (default PNone (classification r)) = Ok v)
                 (filter (λ r, geom_type (geometry r) ≠ "MultiPolygon") rows2)) as Hnames3.
  { apply Forall_forall. intros r [_ Hr]%list_elem_of_filter.
    by apply (proj1 (Forall_forall _ _) Hnames). }
  assert (∃ rows4, derive_classification_name
                     (filter (λ r, geom_type (geometry r) ≠ "MultiPolygon") rows2)
                   = Ok rows4) as [rows4 Hrows4].
  { unfold derive_classification_name. apply mapO_Forall_Ok.
    eapply Forall_impl; [exact Hnames3|]. intros r [v Hv]. rewrite Hv. by eexists. }
  rewrite Hrows4. cbn [mbind outcome_bind]. eexists. split; [reflexivity|].
  cbn [with_rows rows].
  apply derive_classification_name_Ok_inv in Hrows4 as [_ Hsame4].
  apply Forall_fmap in Hgeom.
  pose proof (filter_geometry_Forall2 (λ g, geom_type g ≠ "MultiPolygon")
                (λ g, geom_type (simplify 1 g) ∈ ["Polygon"; "LineString"]) _ _ Hsame Hgeom)
    as Hgeom2.
  cbn beta in Hgeom2.
  set (l := filter (λ r, geom_type (geometry r) ≠ "MultiPolygon") rows2) in *.
  clearbody l. clear -Hgeom2 Hsame4.
  induction Hsame4 as [|r r' l l' Hr _ IH]; [constructor|].
  apply Forall_cons in Hgeom2 as [Hg Hgeom2].
  constructor; [by rewrite Hr|by apply IH].
Qed.

End Promises.

Lemma left_out_shapes_are_announced_witness :
  Write (NameNotInSamples (PStr "tumor"))
    ∈ trace (load_and_QC_SamplesandWells with_square ("calib1", "calib2", "calib3")
               (quoted "{`stroma`:`C3`}")).
Proof.
  apply (left_out_shapes_are_announced with_square ("calib1", "calib2", "calib3")
           (quoted "{`stroma`:`C3`}") [(PStr "stroma", PStr "C3")]
           (square "{'name': 'tumor', 'color': [200, 0, 0]}") (PStr "tumor")).
  - vm_compute. reflexivity.
  - vm_compute. reflexivity.
  - repeat constructor; first [reflexivity | intros Hin; exfalso; not_in_list].
  - unfold with_square. apply elem_of_app. right. apply elem_of_cons. by left.
  - reflexivity.
  - vm_compute. exact I.
  - discriminate.
  - vm_compute. reflexivity.
  - vm_compute. reflexivity.
Defined.

Lemma QC_geojson_file_after_file_check_witness :
  ∃ cleaned, result (QC_geojson_file with_square) = Ok cleaned.
Proof.
  destruct (QC_geojson_file_after_file_check (λ _ _, true) (λ _ g, g) with_square
              ("calib1", "calib2", "calib3")) as (cleaned & Hcleaned & _).
  - vm_compute. reflexivity.
  - by exists cleaned.
Defined.

(** ** Names that do not collide *)

Lemma left_split {A} (u : A) (l l' r r' : list A) :
  u ∉ l → u ∉ l' → l ++ u :: r = l' ++ u :: r' → l = l' ∧ r = r'.
Proof.
  revert l'. induction l as [|x l IH]; intros [|x' l'] Hl Hl' Heq; cbn [app] in Heq.
  - by injection Heq as <-.
  - injection Heq as <- _. exfalso. apply Hl'. by left.
  - injection Heq as -> _. exfalso. apply Hl. by left.
  - injection Heq as <- Heq.
    apply not_elem_of_cons in Hl as [_ Hl]. apply not_elem_of_cons in Hl' as [_ Hl'].
    destruct (IH l' Hl Hl' Heq) as [-> ->]. done.
Qed.

Lemma right_split {A} (u : A) (l l' r r' : list A) :
  u ∉ r → u ∉ r' → l ++ u :: r = l' ++ u :: r' → l = l' ∧ r = r'.
Proof.
  intros Hr Hr' Heq. apply (f_equal reverse) in Heq.
  rewrite !reverse_app, !reverse_cons, <-!app_assoc in Heq. cbn [app] in Heq.
  apply left_split in Heq as [Hrr Hll]; [|by rewrite elem_of_reverse..].
  split; [by apply (inj reverse)|by apply (inj reverse)].
Qed.

Lemma str_Z_digits (z : Z) : (0 < z)%Z → "_"%char ∉ list_ascii_of_string (str_Z z).
Proof.
  destruct z as [|p|p]; [lia| |lia]. intros _. unfold str_Z. cbn [Z.to_int].
  generalize (Pos.to_uint p). intros d. cbn [NilZero.string_of_int].
  assert ("_"%char ∉ list_ascii_of_string (NilEmpty.string_of_uint d)) as Hd.
  { induction d; cbn [NilEmpty.string_of_uint list_ascii_of_string];
      [apply not_elem_of_nil|apply not_elem_of_cons; split; [discriminate|exact IHd]..]. }
  unfold NilZero.string_of_uint. destruct d; try exact Hd.
  cbn. apply not_elem_of_cons. split; [discriminate|apply not_elem_of_nil].
Qed.

Lemma str_Z_inj (z z' : Z) : str_Z z = str_Z z' → z = z'.
Proof.
  unfold str_Z. intros Heq. apply (f_equal NilZero.int_of_string) in Heq.
  assert (∀ n, Z.to_int n ≠ Decimal.Pos Decimal.Nil ∧ Z.to_int n ≠ Decimal.Neg Decimal.Nil)
    as Hnonnil.
  { intros [|p|p]; cbn [Z.to_int]; split; try discriminate;
      intros [= Hp]; by apply (DecimalPos.Unsigned.to_uint_nonnil p). }
  rewrite !NilZero.isi in Heq by apply Hnonnil.
  injection Heq as Heq. by apply DecimalZ.to_int_inj.
Qed.

Lemma combination_name_inj (a b a' b' : string) (i i' : Z) :
  (0 < i)%Z → (0 < i')%Z →
  (("_"%char ∉ list_ascii_of_string a) ∧ ("_"%char ∉ list_ascii_of_string a'))
  ∨ (("_"%char ∉ list_ascii_of_string b) ∧ ("_"%char ∉ list_ascii_of_string b')) →
  a +:+ "_" +:+ b +:+ "_" +:+ str_Z i = a' +:+ "_" +:+ b' +:+ "_" +:+ str_Z i' →
  a = a' ∧ b = b' ∧ i = i'.
Proof.
  intros Hi Hi' Hfree Heq. apply (f_equal list_ascii_of_string) in Heq.
  rewrite !list_ascii_of_string_app in Heq.
  change (list_ascii_of_string "_") with ["_"%char] in Heq.
  rewrite !(app_assoc (list_ascii_of_string _) ["_"%char] (_ ++ _)) in Heq.
  rewrite !(app_assoc _ (list_ascii_of_string _) (_ ++ _)) in Heq.
  cbn [app] in Heq.
  apply right_split in Heq as [Hab Hnum]; [|by apply str_Z_digits..].
  apply (f_equal string_of_list_ascii) in Hnum.
  rewrite !string_of_list_ascii_of_string in Hnum. apply str_Z_inj in Hnum.
  rewrite <-!app_assoc in Hab. cbn [app] in Hab.
  assert (list_ascii_of_string a = list_ascii_of_string a'
          ∧ list_ascii_of_string b = list_ascii_of_string b') as [Ha Hb].
  { destruct Hfree as [[Ha Ha']|[Hb Hb']]; [by apply left_split in Hab|by apply right_split in Hab]. }
  apply (f_equal string_of_list_ascii) in Ha, Hb.
  rewrite !string_of_list_ascii_of_string in Ha, Hb. done.
Qed.

(** X21. The sample names do not collide when the categories of one of the
    two inputs contain no underscore: for a positive number of replicates
    and two lists without repetition, the names that
    [generate_combinations] returns are pairwise different.  (With an
    underscore on both sides two combinations can give one name: [a_b]
    with [c], and [a] with [b_c].) *)
Theorem generate_combinations_distinct (list1 list2 : list string) (num : Z) :
  (0 < num)%Z →
  NoDup list1 → NoDup list2 →
  Forall (λ a, "_"%char ∉ list_ascii_of_string a) list1
  ∨ Forall (λ b, "_"%char ∉ list_ascii_of_string b) list2 →
  (∃ keys, generate_combinations list1 list2 num = Ok keys ∧ NoDup keys)
  ∧ generate_combinations ["a_b"; "a"] ["c"; "b_c"] 1
    = Ok ["a_b_c_1"; "a_b_b_c_1"; "a_c_1"; "a_b_c_1"].
Proof.
  intros Hnum Hl1 Hl2 Hfree. split; [|reflexivity].
  exists (combinations list1 list2 num).
  split; [by apply generate_combinations_loops|].
  assert (∀ a b i a' b' i',
            a ∈ list1 → a' ∈ list1 → b ∈ list2 → b' ∈ list2 →
            i ∈ seqZ 1 num → i' ∈ seqZ 1 num →
            a +:+ "_" +:+ b +:+ "_" +:+ str_Z i = a' +:+ "_" +:+ b' +:+ "_" +:+ str_Z i' →
            a = a' ∧ b = b' ∧ i = i') as Hinj.
  { intros a b i a' b' i' Ha Ha' Hb Hb' Hi%elem_of_seqZ Hi'%elem_of_seqZ.
    apply combination_name_inj; [lia|lia|].
    destruct Hfree as [Hfree|Hfree]; [left|right];
      split; by apply (proj1 (Forall_forall _ _) Hfree). }
  unfold combinations. apply NoDup_bind; [| |exact Hl1].
  - intros a a' y Ha Ha' (b & (i & Hy%list_elem_of_singleton & Hi)%list_elem_of_bind & Hb)%list_elem_of_bind
      (b' & (i' & Hy'%list_elem_of_singleton & Hi')%list_elem_of_bind & Hb')%list_elem_of_bind.
    subst y. by destruct (Hinj a b i a' b' i') as (? & _).
  - intros a Ha. apply NoDup_bind; [| |exact Hl2].
    + intros b b' y Hb Hb' (i & Hy%list_elem_of_singleton & Hi)%list_elem_of_bind
        (i' & Hy'%list_elem_of_singleton & Hi')%list_elem_of_bind.
      subst y. by destruct (Hinj a b i a b' i') as (_ & ? & _).
    + intros b Hb. apply NoDup_bind; [| |apply NoDup_seqZ].
      * intros i i' y Hi Hi' Hy%list_elem_of_singleton Hy'%list_elem_of_singleton.
        subst y. by destruct (Hinj a b i a b i') as (_ & _ & ?).
      * intros i _. apply NoDup_singleton.
Qed.

Lemma generate_combinations_distinct_witness :
  ∃ keys, generate_combinations ["tumor"; "stroma"] ["ctl_a"; "ctl_b"] 2 = Ok keys
          ∧ NoDup keys.
Proof.
  apply (generate_combinations_distinct ["tumor"; "stroma"] ["ctl_a"; "ctl_b"] 2).
  - lia.
  - compute_done.
  - compute_done.
  - left. repeat constructor; compute_done.
Defined.
